(** * Mockup Magic Pro: the request orchestration layer

    A shallow embedding of [services/geminiService.ts], [types.ts] and the
    orchestration handlers of [App.tsx].

    Conventions.
    - A JavaScript string is a [string]: the bytes of its UTF-8 encoding.
    - A promise that settles is an [Outcome]: [Resolved v] or [Rejected e].
    - The remote capability, the random identifier source and the clock are
      oracles passed to the functions that use them.
    - [JSON.parse] is a platform function; it is a parameter of the
      definitions that call it. *)

From Stdlib Require Import String Ascii List ZArith Bool Arith Lia Permutation FinFun.
Import ListNotations.
Open Scope string_scope.

(* ================================================================== *)
(** * JavaScript strings                                                *)
(* ================================================================== *)

Module Js.

(** The double quote, which a literal cannot hold, and the line feed. *)
Definition dq : string := String (ascii_of_nat 34) EmptyString.
Definition nl : string := String (ascii_of_nat 10) EmptyString.

(** [s.includes(p)]: [p] occurs in [s] as a contiguous run. *)
Fixpoint includes (s p : string) : bool :=
  prefix p s ||
  match s with
  | EmptyString => false
  | String _ s' => includes s' p
  end.

(** [s.startsWith(p)] and the rest of [s] after [p]. *)
Fixpoint stripPrefix (p s : string) : option string :=
  match p, s with
  | EmptyString, _ => Some s
  | String a p', String b s' => if Ascii.eqb a b then stripPrefix p' s' else None
  | String _ _, EmptyString => None
  end.

(** White space and line terminators of ECMAScript, as [trim] strips them.
    One byte: TAB, LF, VT, FF, CR, SP. *)
Definition isSpace1 (c : ascii) : bool :=
  let n := nat_of_ascii c in
  (((9 <=? n) && (n <=? 13)) || (n =? 32))%nat.

(** Two bytes: U+00A0 (C2 A0). *)
Definition isSpace2 (c1 c2 : ascii) : bool :=
  ((nat_of_ascii c1 =? 194) && (nat_of_ascii c2 =? 160))%nat.

(** Three bytes: U+1680 (E1 9A 80), U+2000..U+200A (E2 80 80..8A),
    U+2028, U+2029 (E2 80 A8, A9), U+202F (E2 80 AF), U+205F (E2 81 9F),
    U+3000 (E3 80 80), U+FEFF (EF BB BF). *)
Definition isSpace3 (c1 c2 c3 : ascii) : bool :=
  let a := nat_of_ascii c1 in
  let b := nat_of_ascii c2 in
  let c := nat_of_ascii c3 in
  (((a =? 225) && (b =? 154) && (c =? 128)) ||
   ((a =? 226) && (b =? 128) &&
      (((128 <=? c) && (c <=? 138)) || (c =? 168) || (c =? 169) || (c =? 175))) ||
   ((a =? 226) && (b =? 129) && (c =? 159)) ||
   ((a =? 227) && (b =? 128) && (c =? 128)) ||
   ((a =? 239) && (b =? 187) && (c =? 191)))%nat.

(** [s.trimStart()]. *)
Fixpoint trimStart (s : string) : string :=
  match s with
  | EmptyString => EmptyString
  | String c1 s1 =>
      if isSpace1 c1 then trimStart s1
      else
        match s1 with
        | EmptyString => s
        | String c2 s2 =>
            if isSpace2 c1 c2 then trimStart s2
            else
              match s2 with
              | EmptyString => s
              | String c3 s3 => if isSpace3 c1 c2 c3 then trimStart s3 else s
              end
        end
  end.

Fixpoint rev (s : string) : string :=
  match s with
  | EmptyString => EmptyString
  | String c s' => rev s' ++ String c EmptyString
  end.

(** The same scan from the end, over the reversed string (the bytes of a
    code point then come last byte first). *)
Fixpoint trimStartRev (s : string) : string :=
  match s with
  | EmptyString => EmptyString
  | String c1 s1 =>
      if isSpace1 c1 then trimStartRev s1
      else
        match s1 with
        | EmptyString => s
        | String c2 s2 =>
            if isSpace2 c2 c1 then trimStartRev s2
            else
              match s2 with
              | EmptyString => s
              | String c3 s3 => if isSpace3 c3 c2 c1 then trimStartRev s3 else s
              end
        end
  end.

(** [s.trimEnd()] and [s.trim()]. *)
Definition trimEnd (s : string) : string := rev (trimStartRev (rev s)).
Definition trim (s : string) : string := trimEnd (trimStart s).

(** Truthiness of a string: the empty string is falsy. *)
Definition truthy (s : string) : bool :=
  match s with EmptyString => false | String _ _ => true end.

(** [a || b] on a possibly undefined string. *)
Definition orElse (a : option string) (b : string) : string :=
  match a with
  | Some s => if truthy s then s else b
  | None => b
  end.

End Js.

(* ================================================================== *)
(** * Thrown values and settled promises                                *)
(* ================================================================== *)

(** A thrown value, by the two observations [retry] makes of it:
    [e.toString()] and [JSON.stringify(e)] (which may be undefined). *)
Record JsError : Type := mkJsError {
  toString : string;
  stringify : option string
}.

(** [new Error(msg)]: printed as [Error: msg]; it has no enumerable
    property, so it is serialised as the empty object. *)
Definition Error (msg : string) : JsError :=
  {| toString := "Error: " ++ msg; stringify := Some "{}" |}.

Inductive Outcome (T : Type) : Type :=
| Resolved (v : T)
| Rejected (e : JsError).
Arguments Resolved {T} v.
Arguments Rejected {T} e.

(* ================================================================== *)
(** * services/geminiService.ts: retry                                  *)
(* ================================================================== *)

Module Retry.

(** What one run of [retry] did: how it settled, how many times it invoked
    the wrapped operation, and the delays it waited, in order. *)
Record Run (T : Type) : Type := mkRun {
  result : Outcome T;
  calls : nat;
  waits : list Z
}.
Arguments mkRun {T} _ _ _.
Arguments result {T} _.
Arguments calls {T} _.
Arguments waits {T} _.

Definition errorStr (e : JsError) : string :=
  toString e ++ Js.orElse (stringify e) "".

Definition isTransient (e : JsError) : bool :=
  Js.includes (errorStr e) "503" || Js.includes (errorStr e) "overloaded" ||
  Js.includes (errorStr e) "UNAVAILABLE" || Js.includes (errorStr e) "429".

Section Loop.
Context {T : Type}.
(** [fn i] is how the [i]-th invocation (from 0) of the wrapped operation
    settles; iteration [i] of the loop makes exactly that invocation. *)
Variable fn : nat -> Outcome T.
Variables retries baseDelay : Z.

(** The [for] loop from index [i], with [remaining] the number of indices
    [i, i+1, ...] below [retries]: the test [i < retries] holds exactly
    when [remaining] is a successor. *)
Fixpoint loop (remaining i : nat) : Run T :=
  match remaining with
  | O => mkRun (Rejected (Error "Max retries reached")) 0 []
  | S remaining' =>
      match fn i with
      | Resolved v => mkRun (Resolved v) 1 []
      | Rejected e =>
          let isLast := (Z.of_nat i =? retries - 1)%Z in
          if negb (isTransient e) || isLast then mkRun (Rejected e) 1 []
          else
            let delay := (baseDelay * 2 ^ Z.of_nat i)%Z in
            let r := loop remaining' (S i) in
            mkRun (result r) (S (calls r)) (delay :: waits r)
      end
  end.

Definition retry : Run T := loop (Z.to_nat retries) 0.
End Loop.

(** The default arguments: [retries = 3], [baseDelay = 2000]. *)
Definition retryDefault {T : Type} (fn : nat -> Outcome T) : Run T :=
  retry fn 3 2000.

(** The delay waited in total. *)
Definition totalDelay {T : Type} (r : Run T) : Z := fold_right Z.add 0%Z (waits r).

End Retry.

(* ================================================================== *)
(** * types.ts                                                          *)
(* ================================================================== *)

Inductive FrameStyle : Type :=
| FrameAuto | FrameNone | SleekBlack | ModernWhite | NaturalOak | ClassicGold
| IndustrialMetal.

Inductive LightingStyle : Type :=
| LightAuto | NaturalDaylight | SoftMorning | GoldenHour | StudioLighting
| MoodyDim.

Inductive WallTexture : Type :=
| TextureAuto | CleanDrywall | ExposedBrick | RawConcrete | SmoothPlaster
| WoodenPaneling.

Inductive PrintSize : Type := A1 | A2 | A3 | A4.

Inductive AnalysisVibe : Type :=
| IndustrialRaw | ModernMinimalist | CozyBohemian | LuxuryHighEnd
| PublicStreet | SurpriseMe.

Inductive AspectRatio : Type := R1x1 | R3x4 | R4x3 | R16x9 | R9x16.

Inductive ImageSize : Type := Size1K | Size2K | Size4K.

(** The string each member of a union type is. *)
Definition frameStyleText (f : FrameStyle) : string :=
  match f with
  | FrameAuto => "Auto"
  | FrameNone => "None"
  | SleekBlack => "Sleek Black"
  | ModernWhite => "Modern White"
  | NaturalOak => "Natural Oak"
  | ClassicGold => "Classic Gold"
  | IndustrialMetal => "Industrial Metal"
  end.

Definition lightingText (l : LightingStyle) : string :=
  match l with
  | LightAuto => "Auto"
  | NaturalDaylight => "Natural Daylight"
  | SoftMorning => "Soft Morning"
  | GoldenHour => "Golden Hour"
  | StudioLighting => "Studio Lighting"
  | MoodyDim => "Moody Dim"
  end.

Definition wallTextureText (w : WallTexture) : string :=
  match w with
  | TextureAuto => "Auto"
  | CleanDrywall => "Clean Drywall"
  | ExposedBrick => "Exposed Brick"
  | RawConcrete => "Raw Concrete"
  | SmoothPlaster => "Smooth Plaster"
  | WoodenPaneling => "Wooden Paneling"
  end.

Definition printSizeText (p : PrintSize) : string :=
  match p with A1 => "A1" | A2 => "A2" | A3 => "A3" | A4 => "A4" end.

Definition imageSize_eqb (a b : ImageSize) : bool :=
  match a, b with
  | Size1K, Size1K | Size2K, Size2K | Size4K, Size4K => true
  | _, _ => false
  end.

Record MockupResult : Type := mkMockupResult {
  id : string;
  imageUrl : string;
  prompt : string;
  createdAt : Z;
  isHighRes : bool
}.

(** The three style fields are read from the selection arrays by index, and
    an index past the end of an array reads [undefined]: they hold [None]
    then. *)
Record GenerationSettings : Type := mkGenerationSettings {
  s_prompt : string;
  negativePrompt : string;
  count : nat;
  aspectRatio : AspectRatio;
  imageSize : ImageSize;
  frameStyle : option FrameStyle;
  lighting : option LightingStyle;
  wallTexture : option WallTexture;
  printSize : PrintSize
}.

(* ================================================================== *)
(** * services/geminiService.ts: the composed generation prompt         *)
(* ================================================================== *)

Module Prompt.
Import Js.

(** The four-space indentation of the template literals. *)
Definition ind : string := "    ".

Definition qualityPrefix : string :=
  nl ++ ind ++ "Award-winning editorial photography, shot on 35mm film, Kodak Portra 400 aesthetic." ++
  nl ++ ind ++ "Features: Heavy natural film grain, slight chromatic aberration, organic color grading, imperfect lens characteristics." ++
  nl ++ ind ++ "The final image must look like a raw, unpolished photograph, not a 3D render." ++
  nl ++ ind ++ "8k resolution, hyperrealistic, detailed texture." ++
  nl ++ "  ".

(** [settings.printSize ? settings.printSize : "A3"]: every print size is a
    non-empty string, so the first branch is the one taken. *)
Definition sizeContext (settings : GenerationSettings) : string :=
  if truthy (printSizeText (printSize settings))
  then printSizeText (printSize settings) else "A3".

Definition physicalInteraction : string :=
  "Ensure the environment's lighting interacts with the artwork. Cast realistic shadows ONTO the print surface. If there is glass, show subtle reflections OVER the artwork.".

(** A value placed in a template literal; [undefined] prints its name. *)
Definition interpolate {A : Type} (show : A -> string) (v : option A) : string :=
  match v with
  | Some a => show a
  | None => "undefined"
  end.

Definition frameContext (settings : GenerationSettings) : string :=
  match frameStyle settings with
  | Some FrameNone =>
      "The attached image is taped or pasted directly onto the wall as a " ++
      sizeContext settings ++
      " poster. Show paper texture, slight curling at corners, and surface shadows falling across the image."
  | Some FrameAuto =>
      "The attached image is professionally framed in a style that perfectly matches the environment's aesthetic (" ++
      sizeContext settings ++
      " size). Include realistic glass reflections and frame shadows."
  | named =>
      "The attached image is physically framed in a " ++
      interpolate frameStyleText named ++
      " frame (" ++ sizeContext settings ++
      " size) hanging on the wall. Include realistic glass reflections and frame shadows."
  end.

Definition envLighting (settings : GenerationSettings) : string :=
  match lighting settings with
  | Some LightAuto => ""
  | l => "Lighting Condition: " ++ interpolate lightingText l ++ ". "
  end.

Definition envTexture (settings : GenerationSettings) : string :=
  match wallTexture settings with
  | Some TextureAuto => ""
  | w => "Wall Material: " ++ interpolate wallTextureText w ++ ". "
  end.

Definition envContext (settings : GenerationSettings) : string :=
  let envContext := "" ++ envLighting settings ++ envTexture settings in
  if truthy envContext then envContext
  else "Lighting and Wall Material should be inferred naturally from the scene description.".

Definition colorGrade : string :=
  "COLOR: Apply a cohesive cinematic color grade that warps the colors of the inserted artwork slightly to match the ambient light temperature of the room. The artwork should not look like a digital overlay.".

(** The negative clause, appended when the negative prompt is truthy and
    is not white space only. *)
Definition negativeClause (settings : GenerationSettings) : string :=
  if truthy (negativePrompt settings) &&
     (0 <? String.length (trim (negativePrompt settings)))%nat
  then " Do NOT include: " ++ negativePrompt settings ++ "."
  else "".

(** The text sent to the generation model. *)
Definition finalPrompt (settings : GenerationSettings) : string :=
  nl ++ ind ++ qualityPrefix ++ " " ++
  nl ++ ind ++ "SCENE: " ++ s_prompt settings ++ ". " ++
  nl ++ ind ++ "DETAILS: " ++ envContext settings ++ " " ++
  nl ++ ind ++ "PLACEMENT: " ++ frameContext settings ++ " " ++
  nl ++ ind ++ "PHYSICS: " ++ physicalInteraction ++
  nl ++ ind ++ colorGrade ++
  nl ++ "  " ++
  negativeClause settings.

End Prompt.

(* ================================================================== *)
(** * services/geminiService.ts: keys, requests and responses           *)
(* ================================================================== *)

Module Gemini.
Import Js.

Definition MODEL_NAME : string := "gemini-3-pro-image-preview".
Definition ANALYSIS_MODEL : string := "gemini-2.5-flash".

Definition normalizeApiKey (key : option string) : option string :=
  match key with
  | None => None
  | Some k =>
      if negb (truthy k) then None
      else
        let trimmed := trim k in
        if negb (truthy trimmed) || String.eqb trimmed "your_gemini_api_key_here"
        then None
        else Some trimmed
  end.

(** Where a key may come from: the two environment variables, the AI Studio
    host (absent outside it) and the browser's local storage. *)
Record KeySources : Type := mkKeySources {
  env_API_KEY : option string;
  env_GEMINI_API_KEY : option string;
  aistudio_getApiKey : option string;
  localStorage_gemini_api_key : option string
}.

(** [a || b] on two possibly undefined strings. *)
Definition orUndefined (a b : option string) : option string :=
  match a with
  | Some s => if truthy s then a else b
  | None => b
  end.

Definition getEnvApiKey (k : KeySources) : option string :=
  normalizeApiKey (orUndefined (env_API_KEY k) (env_GEMINI_API_KEY k)).

Definition getApiKey (k : KeySources) : option string :=
  match getEnvApiKey k with
  | Some envKey => Some envKey
  | None =>
      match normalizeApiKey (aistudio_getApiKey k) with
      | Some studioKey => Some studioKey
      | None =>
          match normalizeApiKey (localStorage_gemini_api_key k) with
          | Some storedKey => Some storedKey
          | None => None
          end
      end
  end.

Definition keyMissing : JsError :=
  Error "API Key not found. Please set GEMINI_API_KEY environment variable.".

(** [base64Image.replace(/^data:image\/(png|jpeg|jpg|webp);base64,/, "")]. *)
Definition cleanBase64 (base64Image : string) : string :=
  match stripPrefix "data:image/png;base64," base64Image with
  | Some rest => rest
  | None =>
  match stripPrefix "data:image/jpeg;base64," base64Image with
  | Some rest => rest
  | None =>
  match stripPrefix "data:image/jpg;base64," base64Image with
  | Some rest => rest
  | None =>
  match stripPrefix "data:image/webp;base64," base64Image with
  | Some rest => rest
  | None => base64Image
  end end end end.

Inductive RequestConfig : Type :=
| ResponseMimeType (mime : string)
| ImageConfig (aspectRatio : AspectRatio) (imageSize : ImageSize).

(** The argument of [ai.models.generateContent]: the model, the text part,
    the inline JPEG part and the configuration. *)
Record GenerateContentRequest : Type := mkRequest {
  req_model : string;
  req_text : string;
  req_data : string;
  req_config : RequestConfig
}.

Record InlineData : Type := mkInlineData { data : option string }.
Record Part : Type := mkPart { inlineData : option InlineData }.
Record Content : Type := mkContent { parts : option (list Part) }.
Record Candidate : Type := mkCandidate { content : option Content }.

(** A response, by the two properties the code reads. *)
Record GenerateContentResponse : Type := mkResponse {
  text : option string;
  candidates : option (list Candidate)
}.

(** The remote capability for one retried call: how the invocation number
    [attempt] (from 0) of [generateContent] on a request settles. *)
Definition Remote : Type :=
  GenerateContentRequest -> nat -> Outcome GenerateContentResponse.

(** A parsed JSON value, by what the code observes of it: whether it is an
    array, and then its elements, each as the text it is used as. *)
Inductive Json : Type :=
| JArray (items : list string)
| JOther.

(** [Array.prototype.slice(0, n)]. *)
Definition slice0 {A : Type} (n : nat) (l : list A) : list A := firstn n l.

Definition vibeContext (vibe : AnalysisVibe) : string :=
  match vibe with
  | IndustrialRaw =>
      "Focus on: Industrial lofts, concrete walls, abandoned factories, exposed brick, brutalist architecture, dramatic shadows."
  | ModernMinimalist =>
      "Focus on: Clean white gallery spaces, scandinavian interiors, negative space, polished concrete floors, museum settings."
  | CozyBohemian =>
      "Focus on: Warm living rooms with plants, wooden shelves, coffee shops, soft morning light, messy but aesthetic desks."
  | LuxuryHighEnd =>
      "Focus on: Expensive hotel lobbies, marble walls, gold accents, dark moody office spaces, architectural digest style."
  | PublicStreet =>
      "Focus on: Subway stations, wheatpasted street walls, bus stops, urban textures, cafe windows."
  | SurpriseMe =>
      "Focus on: A mix of unexpected locations - from industrial factories to minimalist museums to gritty street corners."
  end.

Definition getSystemPromptForVibe (vibe : AnalysisVibe) : string :=
  nl ++ "    Analyze this artwork. Identify its style, color palette, and mood." ++
  nl ++ "    Based on this analysis, suggest distinct, high-quality, editorial-style settings where this art would look amazing." ++
  nl ++ "    " ++
  nl ++ "    THEME: " ++ vibeContext vibe ++
  nl ++ "    " ++
  nl ++ "    Output strictly a JSON array of strings. " ++
  nl ++ "    Example: [" ++ dq ++ "A raw concrete industrial wall with dramatic shadow" ++ dq ++
          ", " ++ dq ++ "A minimalist art gallery with polished floors" ++ dq ++ "]" ++
  nl ++ "  ".

(** The [prompt] constant of [analyzeImageForPrompts] and of
    [regenerateSinglePrompt]. *)
Definition suggestionsPrompt (vibe : AnalysisVibe) : string :=
  nl ++ "    " ++ getSystemPromptForVibe vibe ++
  nl ++ "    Generate exactly 4 suggestions." ++
  nl ++ "  ".

Definition singlePrompt (vibe : AnalysisVibe) : string :=
  nl ++ "    " ++ getSystemPromptForVibe vibe ++
  nl ++ "    Generate exactly 1 unique, creative suggestion that is different from generic ones." ++
  nl ++ "    Output strictly a JSON array with one string." ++
  nl ++ "  ".

Definition analysisRequest (prompt base64Image : string) : GenerateContentRequest :=
  {| req_model := ANALYSIS_MODEL;
     req_text := prompt;
     req_data := cleanBase64 base64Image;
     req_config := ResponseMimeType "application/json" |}.

Definition fallbackSuggestions : list string :=
  [ "A modern gallery wall with spot lighting";
    "A cozy bohemian bedroom with plants";
    "A professional office space with sleek furniture";
    "An industrial loft with exposed brick" ].

Section Platform.
(** [JSON.parse]: [None] when it throws. *)
Variable JSON_parse : string -> option Json.

Definition analyzeImageForPrompts
    (keys : KeySources) (ai : Remote) (base64Image : string)
    (vibe : AnalysisVibe) : Outcome (list string) :=
  match getApiKey keys with
  | None => Rejected keyMissing
  | Some _ =>
      let prompt := suggestionsPrompt vibe in
      match Retry.result
              (Retry.retryDefault (ai (analysisRequest prompt base64Image))) with
      | Resolved response =>
          let text := orElse (text response) "[]" in
          match JSON_parse text with
          | Some (JArray suggestions) => Resolved (slice0 4 suggestions)
          | Some JOther => Resolved []
          | None => Resolved fallbackSuggestions
          end
      | Rejected _ => Resolved fallbackSuggestions
      end
  end.

Definition regenerateSinglePrompt
    (keys : KeySources) (ai : Remote) (base64Image : string)
    (vibe : AnalysisVibe) : Outcome string :=
  match getApiKey keys with
  | None => Rejected keyMissing
  | Some _ =>
      let prompt := singlePrompt vibe in
      match Retry.result
              (Retry.retryDefault (ai (analysisRequest prompt base64Image))) with
      | Resolved response =>
          let text := orElse (text response) "[]" in
          match JSON_parse text with
          | Some (JArray (first :: _)) => Resolved first
          | Some _ => Resolved "A creative environment for this art."
          | None => Resolved "A creative environment suitable for this artwork."
          end
      | Rejected _ => Resolved "A creative environment suitable for this artwork."
      end
  end.
End Platform.

(** The first part of the first candidate that carries image data, as a
    data URL; [None] is the [null] of the source, also where reading the
    response throws (the surrounding [catch] returns [null]). *)
Fixpoint firstInlineImage (ps : list Part) : option string :=
  match ps with
  | [] => None
  | part :: rest =>
      match inlineData part with
      | Some (mkInlineData (Some d)) =>
          if truthy d then Some ("data:image/png;base64," ++ d)
          else firstInlineImage rest
      | _ => firstInlineImage rest
      end
  end.

Definition imageOfResponse (response : GenerateContentResponse) : option string :=
  match candidates response with
  | Some (mkCandidate (Some (mkContent (Some ps))) :: _) => firstInlineImage ps
  | _ => None
  end.

Definition generationRequest (base64Image : string) (settings : GenerationSettings)
  : GenerateContentRequest :=
  {| req_model := MODEL_NAME;
     req_text := Prompt.finalPrompt settings;
     req_data := cleanBase64 base64Image;
     req_config := ImageConfig (aspectRatio settings) (imageSize settings) |}.

(** One of the [settings.count] parallel slots: a retried call whose
    failure is caught and turned into [null]. *)
Definition generateSlot (ai : Remote) (base64Image : string)
    (settings : GenerationSettings) : option string :=
  match Retry.result
          (Retry.retryDefault (ai (generationRequest base64Image settings))) with
  | Resolved response => imageOfResponse response
  | Rejected _ => None
  end.

Definition noImages : JsError :=
  Error "No images were generated. Please try a different prompt or image.".

Fixpoint nonNull {A : Type} (l : list (option A)) : list A :=
  match l with
  | [] => []
  | Some a :: rest => a :: nonNull rest
  | None :: rest => nonNull rest
  end.

(** [ai index] is the remote capability as slot [index] meets it. *)
Definition generateMockup
    (keys : KeySources) (ai : nat -> Remote) (base64Image : string)
    (settings : GenerationSettings) : Outcome (list string) :=
  match getApiKey keys with
  | None => Rejected keyMissing
  | Some _ =>
      let results :=
        map (fun index => generateSlot (ai index) base64Image settings)
            (seq 0 (count settings)) in
      let generatedImages := nonNull results in
      if (List.length generatedImages =? 0)%nat then Rejected noImages
      else Resolved generatedImages
  end.

End Gemini.

(* ================================================================== *)
(** * App.tsx: state and handlers                                       *)
(* ================================================================== *)

Module App.
Import Js Gemini.

Definition FrameStyle_eq_dec (a b : FrameStyle) : {a = b} + {a <> b}.
Proof. decide equality. Defined.

Definition LightingStyle_eq_dec (a b : LightingStyle) : {a = b} + {a <> b}.
Proof. decide equality. Defined.

Definition WallTexture_eq_dec (a b : WallTexture) : {a = b} + {a <> b}.
Proof. decide equality. Defined.

Definition INITIAL_PRESETS : list string :=
  [ "A sun-drenched industrial loft wall with harsh shadows and dust motes";
    "A moody, dimly lit art gallery with a single spotlight hitting the frame";
    "A gritty subway station wall with peeling posters and fluorescent hum" ].

Definition DEFAULT_SETTINGS : GenerationSettings :=
  {| s_prompt := nth 0 INITIAL_PRESETS "";
     negativePrompt :=
       "people, animals, text, watermark, blurry, low quality, distortion, ugly, 3d render, plastic look";
     count := 1;
     aspectRatio := R3x4;
     imageSize := Size1K;
     frameStyle := Some FrameAuto;
     lighting := Some LightAuto;
     wallTexture := Some TextureAuto;
     printSize := A3 |}.

Definition vibeText (v : AnalysisVibe) : string :=
  match v with
  | IndustrialRaw => "Industrial & Raw"
  | ModernMinimalist => "Modern & Minimalist"
  | CozyBohemian => "Cozy & Bohemian"
  | LuxuryHighEnd => "Luxury & High-end"
  | PublicStreet => "Public & Street"
  | SurpriseMe => "Surprise Me"
  end.

(** [MultiSelectPills.toggleOption]: the selection [onChange] receives, or
    the selection as it was where the handler returns without calling it. *)
Definition toggleOption {T : Type} (eq_dec : forall a b : T, {a = b} + {a <> b})
    (auto : T) (selected : list T) (opt : T) : list T :=
  if in_dec eq_dec opt selected then
    if (List.length selected =? 1)%nat then selected
    else filter (fun s => if eq_dec s opt then false else true) selected
  else
    if eq_dec opt auto then [auto]
    else filter (fun s => if eq_dec s auto then false else true) selected ++ [opt].

(** An entry of the editable prompt list; a missing [isRegenerating] is
    [false]. *)
Record PromptEntry : Type := mkPromptEntry {
  entry_id : string;
  entry_text : string;
  isRegenerating : bool
}.

(** The component's state between two handlers. The progress indicators
    ([isAnalyzing], [isGenerating], [loadingMessage], [upscalingId]) are set
    when a handler starts and reset in its [finally]; they are not kept.
    [alerts] lists what [alert] has shown, latest first, and [drawn] counts
    the calls of [crypto.randomUUID] so far. *)
Record AppState : Type := mkAppState {
  sourceImage : option string;
  selectedFrames : list FrameStyle;
  selectedLighting : list LightingStyle;
  selectedTextures : list WallTexture;
  analysisVibe : AnalysisVibe;
  editablePrompts : list PromptEntry;
  settings : GenerationSettings;
  results : list MockupResult;
  alerts : list string;
  drawn : nat
}.

(** [useState]'s initialiser for [settings]: what local storage holds,
    laid over the defaults, or the defaults. *)
Definition loadSettings (saved : option GenerationSettings) : GenerationSettings :=
  match saved with
  | Some merged => merged
  | None => DEFAULT_SETTINGS
  end.

(** The state after the first render. *)
Definition initialState (saved : option GenerationSettings) : AppState :=
  {| sourceImage := None;
     selectedFrames := [FrameAuto];
     selectedLighting := [LightAuto];
     selectedTextures := [TextureAuto];
     analysisVibe := SurpriseMe;
     editablePrompts := [mkPromptEntry "1" (nth 0 INITIAL_PRESETS "") false];
     settings := loadSettings saved;
     results := [];
     alerts := [];
     drawn := 0 |}.

Definition setSourceImage (v : option string) (st : AppState) : AppState :=
  mkAppState v (selectedFrames st) (selectedLighting st) (selectedTextures st)
    (analysisVibe st) (editablePrompts st) (settings st) (results st)
    (alerts st) (drawn st).

Definition setSelectedFrames (v : list FrameStyle) (st : AppState) : AppState :=
  mkAppState (sourceImage st) v (selectedLighting st) (selectedTextures st)
    (analysisVibe st) (editablePrompts st) (settings st) (results st)
    (alerts st) (drawn st).

Definition setSelectedLighting (v : list LightingStyle) (st : AppState) : AppState :=
  mkAppState (sourceImage st) (selectedFrames st) v (selectedTextures st)
    (analysisVibe st) (editablePrompts st) (settings st) (results st)
    (alerts st) (drawn st).

Definition setSelectedTextures (v : list WallTexture) (st : AppState) : AppState :=
  mkAppState (sourceImage st) (selectedFrames st) (selectedLighting st) v
    (analysisVibe st) (editablePrompts st) (settings st) (results st)
    (alerts st) (drawn st).

Definition setAnalysisVibe (v : AnalysisVibe) (st : AppState) : AppState :=
  mkAppState (sourceImage st) (selectedFrames st) (selectedLighting st)
    (selectedTextures st) v (editablePrompts st) (settings st) (results st)
    (alerts st) (drawn st).

Definition setEditablePrompts (v : list PromptEntry) (st : AppState) : AppState :=
  mkAppState (sourceImage st) (selectedFrames st) (selectedLighting st)
    (selectedTextures st) (analysisVibe st) v (settings st) (results st)
    (alerts st) (drawn st).

Definition setSettings (v : GenerationSettings) (st : AppState) : AppState :=
  mkAppState (sourceImage st) (selectedFrames st) (selectedLighting st)
    (selectedTextures st) (analysisVibe st) (editablePrompts st) v (results st)
    (alerts st) (drawn st).

Definition setResults (v : list MockupResult) (st : AppState) : AppState :=
  mkAppState (sourceImage st) (selectedFrames st) (selectedLighting st)
    (selectedTextures st) (analysisVibe st) (editablePrompts st) (settings st) v
    (alerts st) (drawn st).

Definition alert (msg : string) (st : AppState) : AppState :=
  mkAppState (sourceImage st) (selectedFrames st) (selectedLighting st)
    (selectedTextures st) (analysisVibe st) (editablePrompts st) (settings st)
    (results st) (msg :: alerts st) (drawn st).

Definition setDrawn (v : nat) (st : AppState) : AppState :=
  mkAppState (sourceImage st) (selectedFrames st) (selectedLighting st)
    (selectedTextures st) (analysisVibe st) (editablePrompts st) (settings st)
    (results st) (alerts st) v.

Definition withAspectRatio (r : AspectRatio) (s : GenerationSettings)
  : GenerationSettings :=
  mkGenerationSettings (s_prompt s) (negativePrompt s) (count s) r (imageSize s)
    (frameStyle s) (lighting s) (wallTexture s) (printSize s).

Definition withPrintSize (p : PrintSize) (s : GenerationSettings)
  : GenerationSettings :=
  mkGenerationSettings (s_prompt s) (negativePrompt s) (count s) (aspectRatio s)
    (imageSize s) (frameStyle s) (lighting s) (wallTexture s) p.

(** A string or [null] that is truthy, with its value. *)
Definition whenTruthy (v : option string) : option string :=
  match v with
  | Some s => if truthy s then Some s else None
  | None => None
  end.

(** The wait a batch job makes before its call: none for the first job,
    one timer of 2500 ms for every other. [editablePrompts.map] calls the
    asynchronous callback of every entry at once, when the batch starts,
    and no callback awaits another: every timer is set at the start of the
    batch, so this wait is also the time from the start of the batch to
    the job's call. *)
Definition staggerDelay (index : nat) : Z :=
  if (0 <? index)%nat then 2500%Z else 0%Z.

(** [array[index % array.length]]; an empty array reads [undefined]. *)
Definition pick {A : Type} (array : list A) (index : nat) : option A :=
  nth_error array (index mod List.length array).

Definition batchSettings (st : AppState) (promptObj : PromptEntry) (index : nat)
  : GenerationSettings :=
  {| s_prompt := entry_text promptObj;
     negativePrompt := negativePrompt (settings st);
     count := 1;
     aspectRatio := aspectRatio (settings st);
     imageSize := imageSize (settings st);
     frameStyle := pick (selectedFrames st) index;
     lighting := pick (selectedLighting st) index;
     wallTexture := pick (selectedTextures st) index;
     printSize := printSize (settings st) |}.

Definition upscaleSettings (st : AppState) (result : MockupResult)
  : GenerationSettings :=
  {| s_prompt := prompt result;
     negativePrompt := negativePrompt (settings st);
     count := 1;
     aspectRatio := aspectRatio (settings st);
     imageSize := Size4K;
     frameStyle := Some FrameAuto;
     lighting := Some LightAuto;
     wallTexture := Some TextureAuto;
     printSize := printSize (settings st) |}.

(** One job of a batch as [handleGenerateBatch] lays it out. *)
Record BatchJob : Type := mkBatchJob {
  job_index : nat;
  job_delay : Z;
  job_prompt : PromptEntry;
  job_settings : GenerationSettings
}.

Fixpoint jobsFrom (st : AppState) (entries : list PromptEntry) (index : nat)
  : list BatchJob :=
  match entries with
  | [] => []
  | promptObj :: rest =>
      mkBatchJob index (staggerDelay index) promptObj
        (batchSettings st promptObj index)
      :: jobsFrom st rest (S index)
  end.

Definition batchJobs (st : AppState) : list BatchJob :=
  jobsFrom st (editablePrompts st) 0.

(** What a batch meets outside the program: the remote capability as slot
    [s] of job [i] meets it ([batch_ai i s]), the order in which the jobs'
    calls settle, and what [Date.now()] reads when job [i] builds its
    results. *)
Record BatchWorld : Type := mkBatchWorld {
  batch_ai : nat -> nat -> Remote;
  batch_order : list nat;
  batch_clock : nat -> Z
}.

Definition batchEmpty : JsError := Error "Batch generation yielded no results.".

Section World.
Variable JSON_parse : string -> option Json.
(** [randomUUID k] is what call number [k] (from 0) of
    [crypto.randomUUID] returns. *)
Variable randomUUID : nat -> string.
Variable keys : KeySources.

(** [l.map(a => mk(crypto.randomUUID(), a))] from draw number [drawn]. *)
Fixpoint mapWithUUID {A B : Type} (mk : string -> A -> B) (l : list A)
    (drawn : nat) : list B :=
  match l with
  | [] => []
  | a :: rest => mk (randomUUID drawn) a :: mapWithUUID mk rest (S drawn)
  end.

(* ---------------- Magic analysis ---------------- *)

Definition loadingEntry (vibeToUse : AnalysisVibe) : PromptEntry :=
  mkPromptEntry "loading"
    ("✨ Analyzing for " ++ dq ++ vibeText vibeToUse ++ dq ++ " vibe...") false.

Definition handleMagicAnalysis (imageOverride : option string)
    (vibeOverride : option AnalysisVibe) (ai : Remote) (st : AppState)
  : AppState :=
  match whenTruthy (orUndefined imageOverride (sourceImage st)) with
  | None => st
  | Some imgToUse =>
      let vibeToUse :=
        match vibeOverride with Some v => v | None => analysisVibe st end in
      let st1 := setEditablePrompts [loadingEntry vibeToUse] st in
      match analyzeImageForPrompts JSON_parse keys ai imgToUse vibeToUse with
      | Resolved suggestions =>
          if (0 <? List.length suggestions)%nat then
            let newPrompts :=
              mapWithUUID (fun uuid s => mkPromptEntry uuid s false)
                suggestions (drawn st1) in
            setDrawn (drawn st1 + List.length suggestions)
              (setEditablePrompts newPrompts st1)
          else st1
      | Rejected _ => st1
      end
  end.

Definition markRegenerating (id : string) (flag : bool) (p : PromptEntry)
  : PromptEntry :=
  if String.eqb (entry_id p) id
  then mkPromptEntry (entry_id p) (entry_text p) flag
  else p.

Definition handleRegenerateSinglePrompt (id : string) (ai : Remote)
    (st : AppState) : AppState :=
  match whenTruthy (sourceImage st) with
  | None => st
  | Some img =>
      let st1 :=
        setEditablePrompts (map (markRegenerating id true) (editablePrompts st)) st in
      match regenerateSinglePrompt JSON_parse keys ai img (analysisVibe st) with
      | Resolved newText =>
          setEditablePrompts
            (map (fun p => if String.eqb (entry_id p) id
                           then mkPromptEntry (entry_id p) newText false
                           else p)
                 (editablePrompts st1)) st1
      | Rejected _ =>
          setEditablePrompts
            (map (markRegenerating id false) (editablePrompts st1)) st1
      end
  end.

(* ---------------- Upload ---------------- *)

Definition aspectFor (width height : nat) : AspectRatio :=
  if (height <? width)%nat then R4x3
  else if (width <? height)%nat then R3x4
  else R1x1.

(** [processFile] on a file of the given type, once it is read and its
    image loaded. A file chosen in the input is processed by the current
    render. A dropped file is processed by [handleDrop], memoised with no
    dependency: its [processFile] and [handleMagicAnalysis] are those of the
    first render, whose [analysisVibe] is the initial "Surprise Me". *)
Definition processFile (dropped isJpeg : bool) (dataUrl : string)
    (width height : nat) (ai : Remote) (st : AppState) : AppState :=
  if negb isJpeg then alert "Please upload a JPEG image." st
  else
    let st1 := setSourceImage (Some dataUrl) st in
    let st2 :=
      handleMagicAnalysis (Some dataUrl)
        (if dropped then Some SurpriseMe else None) ai st1 in
    setSettings (withAspectRatio (aspectFor width height) (settings st2)) st2.

Definition selectVibe (v : AnalysisVibe) (ai : Remote) (st : AppState) : AppState :=
  let st1 := setAnalysisVibe v st in
  match whenTruthy (sourceImage st) with
  | Some img => handleMagicAnalysis (Some img) (Some v) ai st1
  | None => st1
  end.

(* ---------------- Batch generation ---------------- *)

(** The continuation of one job after [generateMockup] settled: the
    results it returns and the draws made by then. *)
Definition jobResults (st : AppState) (w : BatchWorld) (img : string)
    (job : BatchJob) (drawn0 : nat) : list MockupResult * nat :=
  match generateMockup keys (batch_ai w (job_index job)) img (job_settings job) with
  | Resolved images =>
      (mapWithUUID
         (fun uuid image =>
            {| id := uuid;
               imageUrl := image;
               prompt := entry_text (job_prompt job);
               createdAt := batch_clock w (job_index job);
               isHighRes := imageSize_eqb (imageSize (settings st)) Size4K |})
         images drawn0,
       drawn0 + List.length images)
  | Rejected _ => ([], drawn0)
  end.

(** The jobs' continuations run in the order their calls settle; each is
    recorded under its job index. An index that names no job is skipped. *)
Fixpoint settle (st : AppState) (w : BatchWorld) (img : string)
    (jobs : list BatchJob) (order : list nat) (drawn0 : nat)
  : list (nat * list MockupResult) * nat :=
  match order with
  | [] => ([], drawn0)
  | i :: rest =>
      match nth_error jobs i with
      | Some job =>
          let '(rs, drawn1) := jobResults st w img job drawn0 in
          let '(settled, drawn2) := settle st w img jobs rest drawn1 in
          ((i, rs) :: settled, drawn2)
      | None => settle st w img jobs rest drawn0
      end
  end.

(** What [Promise.all] holds at index [i]. *)
Definition resultsOf (settled : list (nat * list MockupResult)) (i : nat)
  : list MockupResult :=
  match find (fun p => (fst p =? i)%nat) settled with
  | Some p => snd p
  | None => []
  end.

(** The body of the [try] of [handleGenerateBatch]: the flattened results
    in job order, or the error thrown when there is none; and the draws
    made. *)
Definition runBatch (st : AppState) (w : BatchWorld) (img : string)
  : Outcome (list MockupResult) * nat :=
  let jobs := batchJobs st in
  let '(settled, drawn1) :=
    settle st w img jobs (batch_order w) (drawn st) in
  let batchResults := map (resultsOf settled) (seq 0 (List.length jobs)) in
  let flatResults := concat batchResults in
  if (List.length flatResults =? 0)%nat then (Rejected batchEmpty, drawn1)
  else (Resolved flatResults, drawn1).

Definition handleGenerateBatch (w : BatchWorld) (st : AppState) : AppState :=
  match whenTruthy (sourceImage st) with
  | None => st
  | Some img =>
      if (List.length (editablePrompts st) =? 0)%nat then st
      else
        match runBatch st w img with
        | (Resolved flatResults, drawn1) =>
            setDrawn drawn1 (setResults (flatResults ++ results st) st)
        | (Rejected _, drawn1) =>
            setDrawn drawn1 (alert "Batch generation encountered errors." st)
        end
  end.

(* ---------------- Upscale ---------------- *)

(** The result [handleUpscale] builds from the images of a successful
    call ([generateMockup] never resolves with an empty array). *)
Definition upscaledResult (result : MockupResult) (images : list string)
    (uuid : string) (now : Z) : MockupResult :=
  {| id := uuid;
     imageUrl := hd "" images;
     prompt := prompt result;
     createdAt := now;
     isHighRes := true |}.

Definition handleUpscale (result : MockupResult) (ai : nat -> Remote) (now : Z)
    (st : AppState) : AppState :=
  match whenTruthy (sourceImage st) with
  | None => alert "Source missing." st
  | Some img =>
      match generateMockup keys ai img (upscaleSettings st result) with
      | Resolved images =>
          let newResult := upscaledResult result images (randomUUID (drawn st)) now in
          setDrawn (S (drawn st)) (setResults (newResult :: results st) st)
      | Rejected _ => alert "Upscale failed." st
      end
  end.

(* ---------------- Helpers ---------------- *)

Definition updatePrompt (id newText : string) (st : AppState) : AppState :=
  setEditablePrompts
    (map (fun p => if String.eqb (entry_id p) id
                   then mkPromptEntry (entry_id p) newText (isRegenerating p)
                   else p)
         (editablePrompts st)) st.

Definition removePrompt (id : string) (st : AppState) : AppState :=
  if (1 <? List.length (editablePrompts st))%nat then
    setEditablePrompts
      (filter (fun p => negb (String.eqb (entry_id p) id)) (editablePrompts st)) st
  else st.

Definition addEmptyPrompt (st : AppState) : AppState :=
  setDrawn (S (drawn st))
    (setEditablePrompts
       (editablePrompts st ++
        [mkPromptEntry (randomUUID (drawn st)) "Describe a new environment..." false])
       st).

Definition deleteResult (id_ : string) (st : AppState) : AppState :=
  setResults (filter (fun r => negb (String.eqb (id r) id_)) (results st)) st.

Definition clearHistory (confirmed : bool) (st : AppState) : AppState :=
  if confirmed then setResults [] st else st.

(* ---------------- The component as a state machine ---------------- *)

(** What can happen to the component: a user action or an upload, each
    with what the handler meets outside the program. Every handler runs
    to its end before the next event. *)
Inductive Event : Type :=
| EvProcessFile (dropped isJpeg : bool) (dataUrl : string) (width height : nat)
    (ai : Remote)
| EvSelectVibe (v : AnalysisVibe) (ai : Remote)
| EvSetPrintSize (p : PrintSize)
| EvSetAspectRatio (r : AspectRatio)
| EvToggleFrame (opt : FrameStyle)
| EvToggleLighting (opt : LightingStyle)
| EvToggleTexture (opt : WallTexture)
| EvRegenerateSinglePrompt (id : string) (ai : Remote)
| EvUpdatePrompt (id newText : string)
| EvRemovePrompt (id : string)
| EvAddEmptyPrompt
| EvGenerateBatch (w : BatchWorld)
| EvUpscale (result : MockupResult) (ai : nat -> Remote) (now : Z)
| EvDeleteResult (id : string)
| EvClearHistory (confirmed : bool).

Definition step (st : AppState) (ev : Event) : AppState :=
  match ev with
  | EvProcessFile dropped isJpeg dataUrl width height ai =>
      processFile dropped isJpeg dataUrl width height ai st
  | EvSelectVibe v ai => selectVibe v ai st
  | EvSetPrintSize p => setSettings (withPrintSize p (settings st)) st
  | EvSetAspectRatio r => setSettings (withAspectRatio r (settings st)) st
  | EvToggleFrame opt =>
      setSelectedFrames
        (toggleOption FrameStyle_eq_dec FrameAuto (selectedFrames st) opt) st
  | EvToggleLighting opt =>
      setSelectedLighting
        (toggleOption LightingStyle_eq_dec LightAuto (selectedLighting st) opt) st
  | EvToggleTexture opt =>
      setSelectedTextures
        (toggleOption WallTexture_eq_dec TextureAuto (selectedTextures st) opt) st
    | EvRegenerateSinglePrompt id ai => handleRegenerateSinglePrompt id ai st
  | EvUpdatePrompt id newText => updatePrompt id newText st
  | EvRemovePrompt id => removePrompt id st
  | EvAddEmptyPrompt => addEmptyPrompt st
  | EvGenerateBatch w => handleGenerateBatch w st
  | EvUpscale result ai now => handleUpscale result ai now st
  | EvDeleteResult id => deleteResult id st
  | EvClearHistory confirmed => clearHistory confirmed st
  end.

Definition run (st : AppState) (evs : list Event) : AppState :=
  fold_left step evs st.

(** The states the component can be in. *)
Inductive Reachable : AppState -> Prop :=
| Reachable_init : forall saved, Reachable (initialState saved)
| Reachable_step : forall st ev, Reachable st -> Reachable (step st ev).

End World.

End App.

(* ================================================================== *)
(** * services/geminiService.ts: the stored key                         *)
(* ================================================================== *)

Module Storage.
Import Js Gemini.

(** The AI Studio host as [checkApiKey] and [promptForApiKey] meet it:
    what [hasSelectedApiKey()] answers ([None] outside AI Studio, where
    the method does not exist), and whether [openSelectKey] exists. *)
Record StudioHost : Type := mkStudioHost {
  hasSelectedApiKey : option bool;
  openSelectKey : bool
}.

Definition checkApiKey (k : KeySources) (host : StudioHost) : bool :=
  match getEnvApiKey k with
  | Some _ => true
  | None =>
      match hasSelectedApiKey host with
      | Some true => true
      | _ =>
          match normalizeApiKey (localStorage_gemini_api_key k) with
          | Some _ => true
          | None => false
          end
      end
  end.

(** [localStorage.setItem('gemini_api_key', v)] and [removeItem]. *)
Definition setItem (v : string) (k : KeySources) : KeySources :=
  mkKeySources (env_API_KEY k) (env_GEMINI_API_KEY k) (aistudio_getApiKey k) (Some v).

Definition removeItem (k : KeySources) : KeySources :=
  mkKeySources (env_API_KEY k) (env_GEMINI_API_KEY k) (aistudio_getApiKey k) None.

Definition setApiKey (key : string) (k : KeySources) : KeySources :=
  match normalizeApiKey (Some key) with
  | Some normalized => setItem normalized k
  | None => removeItem k
  end.

Definition clearApiKey (k : KeySources) : KeySources := removeItem k.

(** [promptForApiKey]: the host's key dialog when there is one (it changes
    nothing the program holds), an instruction shown by [alert] otherwise;
    the result is what [alert] shows. *)
Definition promptForApiKey (host : StudioHost) : list string :=
  if openSelectKey host then []
  else ["Please set GEMINI_API_KEY environment variable. For local development, create a .env.local file with: GEMINI_API_KEY=your_key_here"].

End Storage.

(* ================================================================== *)
(** * App.tsx: the key screen and the downloads                         *)
(* ================================================================== *)

Module Connect.
Import Js Gemini Storage.

(** [s.length]: the number of UTF-16 code units of the string these bytes
    encode. A byte that continues a code point (80..BF) counts for none, a
    byte that starts a four-byte code point (F0 and above) for two, any
    other byte for one. *)
Fixpoint jsLength (s : string) : nat :=
  match s with
  | EmptyString => 0
  | String c rest =>
      let n := nat_of_ascii c in
      (if ((128 <=? n) && (n <=? 191))%nat then 0
       else if (240 <=? n)%nat then 2
       else 1) + jsLength rest
  end.

(** The state of the key screen. [isBootstrappingKey] and [isConnecting]
    are set and reset inside a handler and are not kept; [shown] lists what
    [alert] has shown, latest first. *)
Record KeyScreen : Type := mkKeyScreen {
  hasKey : bool;
  hasEnvKey : bool;
  apiKeyInput : string;
  keyError : string;
  shown : list string
}.

(** The state once the effect that runs [init] has finished. *)
Definition init (k : KeySources) (host : StudioHost) : KeyScreen :=
  {| hasKey := checkApiKey k host;
     hasEnvKey := match getEnvApiKey k with Some _ => true | None => false end;
     apiKeyInput := "";
     keyError := "";
     shown := [] |}.

(** The input's [onChange]. *)
Definition typeKey (value : string) (sc : KeyScreen) : KeyScreen :=
  mkKeyScreen (hasKey sc) (hasEnvKey sc) value "" (shown sc).

(** [validateApiKey]: the key it returns, and the error text it sets. *)
Definition validateApiKey (key : string) : option string * string :=
  match normalizeApiKey (Some key) with
  | None =>
      (None,
       if truthy (trim key)
       then "Please enter your actual Gemini API key (not the placeholder)."
       else "API key cannot be empty")
  | Some normalized =>
      if (jsLength normalized <? 10)%nat
      then (None, "API key appears to be invalid (too short)")
      else (Some normalized, "")
  end.

(** [handleConnect]. [hostAfter] is the host once its key dialog has
    closed. Local storage is taken never to throw, so the [catch] of the
    source is not entered. *)
Definition handleConnect (host hostAfter : StudioHost) (sc : KeyScreen)
    (k : KeySources) : KeyScreen * KeySources :=
  if hasEnvKey sc then
    (mkKeyScreen (checkApiKey k hostAfter) (hasEnvKey sc) (apiKeyInput sc)
       (keyError sc) (promptForApiKey host ++ shown sc)%list,
     k)
  else
    match validateApiKey (apiKeyInput sc) with
    | (None, err) =>
        (mkKeyScreen (hasKey sc) (hasEnvKey sc) (apiKeyInput sc) err (shown sc), k)
    | (Some normalizedKey, _) =>
        let k' := setApiKey normalizedKey k in
        if checkApiKey k' host
        then (mkKeyScreen true (hasEnvKey sc) "" "" (shown sc), k')
        else (mkKeyScreen (hasKey sc) (hasEnvKey sc) (apiKeyInput sc)
                "Failed to validate API key. Please check and try again."
                (shown sc),
              k')
    end.

(** What can happen on the key screen: typing in the input, and a call of
    [handleConnect] (the button, or Enter in the input) with the host as
    it is then and as it is once its key dialog has closed. *)
Inductive KeyEvent : Type :=
| KeType (value : string)
| KeConnect (host hostAfter : StudioHost).

(** The key screen is rendered only while [hasKey] is false; once the app
    is unlocked its input and its buttons are gone. *)
Definition keyStep (s : KeyScreen * KeySources) (ev : KeyEvent)
  : KeyScreen * KeySources :=
  if hasKey (fst s) then s
  else
    match ev with
    | KeType value => (typeKey value (fst s), snd s)
    | KeConnect host hostAfter => handleConnect host hostAfter (fst s) (snd s)
    end.

(** The key screen and the key sources after [init] and a run of events. *)
Definition keyRun (k : KeySources) (host : StudioHost) (evs : list KeyEvent)
  : KeyScreen * KeySources :=
  fold_left keyStep evs (init k host, k).

End Connect.

Module Download.

(** One click on a temporary link: its [href] and its [download] name. *)
Record Click : Type := mkClick {
  href : string;
  download : string
}.

Definition downloadImage (dataUrl id_ : string) : Click :=
  {| href := dataUrl; download := "mockup-" ++ id_ ++ ".png" |}.

(** [results.forEach((result, index) => setTimeout(..., index * 300))]
    from index [index]: each timer's delay and the click it makes. *)
Fixpoint timersFrom (results : list MockupResult) (index : nat)
  : list (Z * Click) :=
  match results with
  | [] => []
  | result :: rest =>
      ((Z.of_nat index * 300)%Z, downloadImage (imageUrl result) (id result))
      :: timersFrom rest (S index)
  end.

(** [downloadAll]: the timers it sets; [confirmed] is the answer to
    [confirm("Download all?")], asked only when there are results. *)
Definition downloadAll (confirmed : bool) (results : list MockupResult)
  : list (Z * Click) :=
  if (List.length results =? 0)%nat then []
  else if negb confirmed then []
  else timersFrom results 0.

End Download.

(* ================================================================== *)
(** * Vocabulary of the statements                                      *)
(* ================================================================== *)

Module Spec.
Import Retry Js Prompt.

(** The first [k] invocations of [fn] all fail with a transient error. *)
Definition transientUntil {T : Type} (fn : nat -> Outcome T) (k : nat) : Prop :=
  forall j, j < k -> exists e, fn j = Rejected e /\ isTransient e = true.

(** The delays of pure exponential backoff before attempts [i+1 .. i+k]:
    [baseDelay * 2^i, ..., baseDelay * 2^(i+k-1)]. *)
Definition backoffFrom (baseDelay : Z) (i k : nat) : list Z :=
  map (fun j => (baseDelay * 2 ^ Z.of_nat j)%Z) (seq i k).

Definition backoff (baseDelay : Z) (k : nat) : list Z := backoffFrom baseDelay 0 k.

(** The character [c] does not occur in the word [p]. *)
Definition avoids (c : ascii) (p : string) : bool :=
  negb (existsb (Ascii.eqb c) (list_ascii_of_string p)).

(** The character [c] occurs in none of the words. *)
Definition allAvoid (c : ascii) (words : list string) : bool :=
  forallb (avoids c) words.

(** One of the words occurs in [s]. *)
Definition includesAny (words : list string) (s : string) : bool :=
  existsb (includes s) words.

(** Framing and glass-reflection language. *)
Definition framingWords : list string :=
  ["frame"; "Frame"; "glass"; "Glass"; "reflection"; "Reflection"].

Definition hasFramingLanguage (s : string) : bool := includesAny framingWords s.

(** A frame style other than "Auto" and "None". *)
Definition namedStyle (f : FrameStyle) : bool :=
  match f with FrameAuto | FrameNone => false | _ => true end.

(** The fixed text of the composed prompt between its variable parts, each
    cut before the blank that precedes the variable part. *)
Definition sceneLabel : string :=
  nl ++ ind ++ qualityPrefix ++ " " ++ nl ++ ind ++ "SCENE:".
Definition detailsLabel : string := " " ++ nl ++ ind ++ "DETAILS:".
Definition placementLabel : string := nl ++ ind ++ "PLACEMENT:".
Definition physicsLabel : string := nl ++ ind ++ "PHYSICS: ".
Definition closing : string := nl ++ ind ++ colorGrade ++ nl ++ " ".

(** The composed prompt up to the physics clause, and after it. *)
Definition beforePhysics (settings : GenerationSettings) : string :=
  sceneLabel ++ String " " (s_prompt settings ++ String "."
    (detailsLabel ++ String " " (envContext settings ++ String " "
      (placementLabel ++ String " " (frameContext settings ++ String " "
        physicsLabel))))).

Definition afterPhysics (settings : GenerationSettings) : string :=
  closing ++ String " " (negativeClause settings).

(** [crypto.randomUUID] never returns the same identifier twice, and never
    one of the two identifiers the component writes itself. *)
Definition uniqueUUIDs (randomUUID : nat -> string) : Prop :=
  (forall i j, randomUUID i = randomUUID j -> i = j) /\
  (forall i, randomUUID i <> "1" /\ randomUUID i <> "loading").

(** [s] is one of the first [n] identifiers drawn. *)
Definition drawnId (randomUUID : nat -> string) (n : nat) (s : string) : Prop :=
  exists k, k < n /\ s = randomUUID k.

(** A selection set holds at least one value, none twice, and "Auto" only
    alone. *)
Definition goodSelection {A : Type} (auto : A) (l : list A) : Prop :=
  l <> [] /\ NoDup l /\ (In auto l -> l = [auto]).

(** What holds of every state of the component: the prompt list is not
    empty, its identifiers are pairwise distinct and each is "1", "loading"
    or one drawn so far; every result carries an identifier drawn so far;
    the three selections are good. *)
Definition Inv (randomUUID : nat -> string) (st : App.AppState) : Prop :=
  App.editablePrompts st <> [] /\
  NoDup (map App.entry_id (App.editablePrompts st)) /\
  (forall p, In p (App.editablePrompts st) ->
     App.entry_id p = "1" \/ App.entry_id p = "loading" \/
     drawnId randomUUID (App.drawn st) (App.entry_id p)) /\
  (forall r, In r (App.results st) -> drawnId randomUUID (App.drawn st) (id r)) /\
  goodSelection FrameAuto (App.selectedFrames st) /\
  goodSelection LightAuto (App.selectedLighting st) /\
  goodSelection TextureAuto (App.selectedTextures st).

(** A remote call that is rejected on every attempt, whatever the request. *)
Definition alwaysFails (r : Gemini.Remote) : Prop :=
  forall req attempt, exists e, r req attempt = Rejected e.

(** A result without its identifier: image, prompt, creation time and
    resolution flag. *)
Definition unidentified (r : MockupResult) : string * string * Z * bool :=
  (imageUrl r, prompt r, createdAt r, isHighRes r).

(** What one job of a batch contributes, identifiers aside: one entry per
    image of a successful call, stamped with the job's prompt text, the
    clock at the job's completion and the resolution flag of the base
    settings; nothing when the call fails. *)
Definition jobOutput (keys : Gemini.KeySources) (st : App.AppState)
    (w : App.BatchWorld) (img : string) (job : App.BatchJob)
  : list (string * string * Z * bool) :=
  match Gemini.generateMockup keys (App.batch_ai w (App.job_index job)) img
          (App.job_settings job) with
  | Resolved images =>
      map (fun image =>
             (image, App.entry_text (App.job_prompt job),
              App.batch_clock w (App.job_index job),
              imageSize_eqb (imageSize (App.settings st)) Size4K))
          images
  | Rejected _ => []
  end.

(** The jobs whose call succeeds. *)
Definition jobSucceeds (keys : Gemini.KeySources) (w : App.BatchWorld)
    (img : string) (job : App.BatchJob) : Prop :=
  exists images,
    Gemini.generateMockup keys (App.batch_ai w (App.job_index job)) img
      (App.job_settings job) = Resolved images.

(** A list without its element at index [k]. *)
Definition without {A : Type} (k : nat) (l : list A) : list A :=
  firstn k l ++ skipn (S k) l.

End Spec.

(* ================================================================== *)
(** * Concrete inputs of the examples                                   *)
(* ================================================================== *)

Module Sample.
Import Gemini App.

(** A rate-limit error and an authorisation error as the SDK prints them. *)
Definition busy : JsError :=
  {| toString := "ApiError: 429 Too Many Requests"; stringify := Some "{}" |}.
Definition denied : JsError :=
  {| toString := "ApiError: 403 Forbidden"; stringify := None |}.

(** An operation that is busy twice and then returns 7. *)
Definition flaky (i : nat) : Outcome nat :=
  match i with
  | 0 | 1 => Rejected busy
  | _ => Resolved 7
  end.

(** A poster job: the default settings with the frame style "None". *)
Definition posterSettings : GenerationSettings :=
  mkGenerationSettings (s_prompt DEFAULT_SETTINGS) (negativePrompt DEFAULT_SETTINGS)
    1 R3x4 Size1K (Some FrameNone) (Some LightAuto) (Some TextureAuto) A3.

(** A scene whose description holds the word "Auto", framed automatically. *)
Definition garageSettings : GenerationSettings :=
  mkGenerationSettings "Auto repair garage wall with tool racks" ""
    1 R3x4 Size1K (Some FrameAuto) (Some LightAuto) (Some TextureAuto) A3.

(** A job framed in oak under studio lighting. *)
Definition oakSettings : GenerationSettings :=
  mkGenerationSettings "A quiet reading room" "people"
    1 R3x4 Size1K (Some NaturalOak) (Some StudioLighting) (Some TextureAuto) A2.

(** [JSON.parse] on the two texts the examples feed it, the empty array and
    the empty object; the examples parse no other text. *)
Definition parseSample (s : string) : option Json :=
  if String.eqb s "[]" then Some (JArray [])
  else if String.eqb s "{}" then Some JOther
  else None.

(** A deployment with a key in the environment, and one with no key. *)
Definition envKeys : KeySources :=
  mkKeySources None (Some "AIzaSyExampleExampleExample") None None.
Definition noKeys : KeySources := mkKeySources None None None None.

Definition jpeg : string := "data:image/jpeg;base64,/9j/4AAQ".

(** A remote call that answers at once with no text and no candidate. *)
Definition silent : Remote :=
  fun _ _ => Resolved (mkResponse None None).

(** A remote call that answers at once with one image. *)
Definition painter : Remote :=
  fun _ _ =>
    Resolved
      (mkResponse None
         (Some [mkCandidate (Some (mkContent (Some
            [mkPart (Some (mkInlineData (Some "iVBORw0KGgo=")))])))])).

(** A remote call that is refused on every attempt. *)
Definition refusing : Remote := fun _ _ => Rejected denied.

(** Identifiers that never repeat: the draw number in unary. *)
Fixpoint tally (k : nat) : string :=
  match k with
  | O => EmptyString
  | S k' => String "i" (tally k')
  end.
Definition sampleUUID (k : nat) : string := "uuid-" ++ tally k.

(** The clock of the examples: a millisecond later for each job index. *)
Definition clockAt (i : nat) : Z := (1700000000000 + Z.of_nat i)%Z.

(** The handlers of the examples. *)
Definition stepSample : AppState -> Event -> AppState :=
  step parseSample sampleUUID envKeys.

(** After an upload whose analysis call is refused: the four generic
    suggestions, with the identifiers of draws 0 to 3. *)
Definition uploaded : AppState :=
  stepSample (initialState None) (EvProcessFile false true jpeg 3 4 refusing).

(** After an upload whose analysis call answers without text: the single
    placeholder entry stays. *)
Definition lonely : AppState :=
  stepSample (initialState None) (EvProcessFile false true jpeg 3 4 silent).

(** [uploaded] with its last entry removed (three entries), and with one
    entry added and the frames Sleek Black and Natural Oak selected (five
    entries, two frames). *)
Definition threePrompts : AppState :=
  stepSample uploaded (EvRemovePrompt (sampleUUID 3)).

Definition fivePrompts : AppState :=
  run parseSample sampleUUID envKeys uploaded
    [EvAddEmptyPrompt; EvToggleFrame SleekBlack; EvToggleFrame NaturalOak].

(** Batches of four jobs that settle in the order 2, 0, 3, 1: every call
    paints; the call of job 1 is refused and the others paint. And a batch
    of one job whose call is refused. *)
Definition paintAll : BatchWorld :=
  mkBatchWorld (fun _ _ => painter) [2; 0; 3; 1] clockAt.

Definition oneRefused : BatchWorld :=
  mkBatchWorld (fun i _ => if (i =? 1)%nat then refusing else painter)
    [2; 0; 3; 1] clockAt.

Definition allRefused : BatchWorld :=
  mkBatchWorld (fun _ _ => refusing) [0] clockAt.

(** After a batch over [uploaded] in which every call paints, and the
    result of its job 0 (the second job to settle: draw 5). *)
Definition generated : AppState := stepSample uploaded (EvGenerateBatch paintAll).

Definition draft : MockupResult :=
  {| id := sampleUUID 5;
     imageUrl := "data:image/png;base64,iVBORw0KGgo=";
     prompt := "A modern gallery wall with spot lighting";
     createdAt := clockAt 0;
     isHighRes := false |}.


(** A browser outside AI Studio with nothing stored, and the AI Studio
    host with no key selected. *)
Definition standalone : Storage.StudioHost := Storage.mkStudioHost None false.
Definition studio : Storage.StudioHost := Storage.mkStudioHost (Some false) true.

(** The key screen of [noKeys] after the user typed a key between blanks. *)
Definition typedKey : Connect.KeyScreen :=
  Connect.typeKey "  AIzaSyExampleExampleExample " (Connect.init noKeys standalone).


(** An operation that is busy on every attempt. *)
Definition alwaysBusy (i : nat) : Outcome nat := Rejected busy.

(** A remote call that is busy twice and then answers with one image. *)
Definition busyTwice : Remote :=
  fun req i => if (i <? 2)%nat then Rejected busy else painter req i.

(** Two slots of one call: the first is refused, the second paints. *)
Definition secondPaints (index : nat) : Remote :=
  match index with
  | 0 => refusing
  | _ => painter
  end.

(** The default settings with two images asked for. *)
Definition twoImages : GenerationSettings :=
  mkGenerationSettings "A poster on a brick wall" "" 2 R1x1 Size1K
    (Some FrameAuto) (Some LightAuto) (Some TextureAuto) A2.

End Sample.

(* ================================================================== *)
(** * Retry policy                                                      *)
(* ================================================================== *)

Module RetryFacts.
Import Retry Spec.

Section Loop.
Context {T : Type}.
Variable fn : nat -> Outcome T.
Variables retries baseDelay : Z.

Lemma loop_calls_le (remaining i : nat) :
  calls (loop fn retries baseDelay remaining i) <= remaining.
Proof.
  revert i. induction remaining as [|r IH]; intros i; simpl.
  - lia.
  - destruct (fn i) as [v|e]; simpl; [lia|].
    destruct (negb (isTransient e) || (Z.of_nat i =? retries - 1)%Z); simpl.
    + lia.
    + specialize (IH (S i)). lia.
Qed.

(** A run of [k] transient failures below the last index: the loop waits
    the [k] backoff delays and goes on from index [i + k]. *)
Lemma loop_transient_prefix (k : nat) :
  forall remaining i,
    Z.of_nat (i + remaining) = retries ->
    k < remaining ->
    (forall j, j < k -> exists e, fn (i + j) = Rejected e /\ isTransient e = true) ->
    loop fn retries baseDelay remaining i =
    let r := loop fn retries baseDelay (remaining - k) (i + k) in
    mkRun (result r) (k + calls r) (backoffFrom baseDelay i k ++ waits r).
Proof.
  induction k as [|k IH]; intros remaining i Hinv Hlt Hfail.
  - cbn zeta. rewrite Nat.sub_0_r, Nat.add_0_r. simpl.
    destruct (loop fn retries baseDelay remaining i); reflexivity.
  - destruct remaining as [|r]; [lia|].
    destruct (Hfail 0 ltac:(lia)) as [e [He Ht]].
    rewrite Nat.add_0_r in He.
    simpl loop. rewrite He, Ht. simpl negb. simpl orb.
    replace (Z.of_nat i =? retries - 1)%Z with false
      by (symmetry; apply Z.eqb_neq; lia).
    rewrite (IH r (S i)).
    + cbn zeta. simpl result. simpl calls. simpl waits.
      replace (S r - S k) with (r - k) by lia.
      replace (i + S k) with (S i + k) by lia.
      unfold backoffFrom. simpl. reflexivity.
    + lia.
    + lia.
    + intros j Hj. destruct (Hfail (S j) ltac:(lia)) as [e' [He' Ht']].
      exists e'. split; [|exact Ht'].
      replace (S i + j) with (i + S j) by lia. exact He'.
Qed.

End Loop.

Lemma retry_nonpositive {T : Type} (fn : nat -> Outcome T) (retries baseDelay : Z) :
  (retries <= 0)%Z ->
  retry fn retries baseDelay = mkRun (Rejected (Error "Max retries reached")) 0 [].
Proof.
  intros H. unfold retry.
  replace (Z.to_nat retries) with 0 by lia. reflexivity.
Qed.

Lemma retry_calls_le {T : Type} (fn : nat -> Outcome T) (retries baseDelay : Z) :
  calls (retry fn retries baseDelay) <= Z.to_nat (Z.max retries 0).
Proof.
  unfold retry.
  pose proof (loop_calls_le fn retries baseDelay (Z.to_nat retries) 0). lia.
Qed.

(** After [k] transient failures, with attempt [k] still below the bound,
    the run is the [k] backoff delays followed by what attempt [k] does. *)
Lemma retry_after_transient {T : Type} (fn : nat -> Outcome T)
    (retries baseDelay : Z) (k : nat) :
  (Z.of_nat k < retries)%Z ->
  transientUntil fn k ->
  retry fn retries baseDelay =
  let r := loop fn retries baseDelay (Z.to_nat retries - k) k in
  mkRun (result r) (k + calls r) (backoff baseDelay k ++ waits r).
Proof.
  intros Hk Hfail. unfold retry.
  rewrite (loop_transient_prefix fn retries baseDelay k (Z.to_nat retries) 0).
  - reflexivity.
  - simpl. lia.
  - lia.
  - intros j Hj. simpl. apply Hfail. exact Hj.
Qed.

Lemma retry_settles_at {T : Type} (fn : nat -> Outcome T)
    (retries baseDelay : Z) (k : nat) (o : Outcome T) :
  (Z.of_nat k < retries)%Z ->
  transientUntil fn k ->
  fn k = o ->
  match o with
  | Resolved _ => True
  | Rejected e => isTransient e = false \/ Z.of_nat k = (retries - 1)%Z
  end ->
  retry fn retries baseDelay = mkRun o (S k) (backoff baseDelay k).
Proof.
  intros Hk Hfail Hfn Hstop.
  rewrite (retry_after_transient fn retries baseDelay k Hk Hfail). cbn zeta.
  destruct (Z.to_nat retries - k) as [|r] eqn:Hr; [lia|].
  simpl loop. rewrite Hfn.
  destruct o as [v|e]; simpl.
  - rewrite app_nil_r. f_equal. lia.
  - assert (Hc : negb (isTransient e) || (Z.of_nat k =? retries - 1)%Z = true).
    { destruct Hstop as [Hnt|Hlast].
      - rewrite Hnt. reflexivity.
      - apply orb_true_iff. right. apply Z.eqb_eq. exact Hlast. }
    rewrite Hc. simpl. rewrite app_nil_r. f_equal. lia.
Qed.

(** C4. For [maxAttempts >= 1], [retry] invokes the operation at most
    [maxAttempts] times. Let attempts [0 .. k-1] fail with transient errors
    and attempt [k] be below the bound; before each of those retries the
    run waited [baseDelayMs * 2^i] (the list [backoff baseDelayMs k]), and
    then: if attempt [k] succeeds the run returns its value; if it fails
    with a terminal error the run fails with that error at once, without a
    further wait; if it is the last attempt the run fails with that last
    error. In particular two transient failures and then a success under
    [retry(op, 3, 100)] return the success value after 100 + 200 = 300 ms
    of waiting. *)
Theorem C4_retry_policy :
  forall (T : Type) (fn : nat -> Outcome T) (maxAttempts baseDelayMs : Z),
    (1 <= maxAttempts)%Z ->
    (Z.of_nat (calls (retry fn maxAttempts baseDelayMs)) <= maxAttempts)%Z /\
    (forall k, (Z.of_nat k < maxAttempts)%Z -> transientUntil fn k ->
       (forall v, fn k = Resolved v ->
          retry fn maxAttempts baseDelayMs =
          mkRun (Resolved v) (S k) (backoff baseDelayMs k)) /\
       (forall e, fn k = Rejected e -> isTransient e = false ->
          retry fn maxAttempts baseDelayMs =
          mkRun (Rejected e) (S k) (backoff baseDelayMs k)) /\
       (forall e, fn k = Rejected e -> Z.of_nat k = (maxAttempts - 1)%Z ->
          retry fn maxAttempts baseDelayMs =
          mkRun (Rejected e) (S k) (backoff baseDelayMs k))) /\
    (forall e0 e1 v,
       fn 0 = Rejected e0 -> isTransient e0 = true ->
       fn 1 = Rejected e1 -> isTransient e1 = true ->
       fn 2 = Resolved v ->
       result (retry fn 3 100) = Resolved v /\
       calls (retry fn 3 100) = 3 /\
       totalDelay (retry fn 3 100) = 300%Z).
Proof.
  intros T fn maxAttempts baseDelayMs Hmax. split; [|split].
  - pose proof (retry_calls_le fn maxAttempts baseDelayMs). lia.
  - intros k Hk Hfail. repeat split.
    + intros v Hv. apply (retry_settles_at fn _ _ k (Resolved v)); auto.
    + intros e He Hnt. apply (retry_settles_at fn _ _ k (Rejected e)); auto.
    + intros e He Hlast. apply (retry_settles_at fn _ _ k (Rejected e)); auto.
  - intros e0 e1 v H0 Ht0 H1 Ht1 H2.
    assert (Hrun : retry fn 3 100 = mkRun (Resolved v) 3 (backoff 100 2)).
    { apply (retry_settles_at fn 3 100 2 (Resolved v)); auto; [lia|].
      intros j Hj. destruct j as [|[|j]]; [exists e0|exists e1|lia]; auto. }
    rewrite Hrun. repeat split.
Qed.

(** The policy at work on [Sample.flaky]: two busy answers, then 7. *)
Lemma C4_retry_policy_witness :
  result (retry Sample.flaky 3 100) = Resolved 7 /\
  calls (retry Sample.flaky 3 100) = 3 /\
  totalDelay (retry Sample.flaky 3 100) = 300%Z.
Proof.
  refine (proj2 (proj2 (C4_retry_policy nat Sample.flaky 3 100 _))
            Sample.busy Sample.busy 7 _ _ _ _ _).
  - lia.
  - reflexivity.
  - vm_compute. reflexivity.
  - reflexivity.
  - vm_compute. reflexivity.
  - reflexivity.
Defined.

(** C10. With [retries <= 0] the loop body never runs: [retry] fails with
    "Max retries reached" and never invokes the wrapped operation. For any
    [retries] the operation is invoked at most [max(retries, 0)] times. *)
Theorem C10_retry_without_attempts :
  forall (T : Type) (fn : nat -> Outcome T) (retries baseDelay : Z),
    ((retries <= 0)%Z ->
       result (retry fn retries baseDelay) = Rejected (Error "Max retries reached") /\
       calls (retry fn retries baseDelay) = 0 /\
       waits (retry fn retries baseDelay) = []) /\
    (calls (retry fn retries baseDelay) <= Z.to_nat (Z.max retries 0)).
Proof.
  intros T fn retries baseDelay. split.
  - intros H. rewrite (retry_nonpositive fn retries baseDelay H). repeat split.
  - apply retry_calls_le.
Qed.

(** No attempt at all under [retry(op, 0, 2000)]. *)
Lemma C10_retry_without_attempts_witness :
  result (retry Sample.flaky 0 2000) = Rejected (Error "Max retries reached") /\
  calls (retry Sample.flaky 0 2000) = 0 /\
  waits (retry Sample.flaky 0 2000) = [].
Proof.
  apply (proj1 (C10_retry_without_attempts nat Sample.flaky 0 2000)). lia.
Defined.

End RetryFacts.

(* ================================================================== *)
(** * The composed generation prompt                                    *)
(* ================================================================== *)

Module PromptFacts.
Import Js Prompt Spec.

Lemma append_assoc (a b c : string) : (a ++ b) ++ c = a ++ (b ++ c).
Proof. induction a as [|x a IH]; simpl; [reflexivity | rewrite IH; reflexivity]. Qed.

Lemma append_cons (x : ascii) (a b : string) : String x a ++ b = String x (a ++ b).
Proof. reflexivity. Qed.

(** The composed prompt, cut at the blanks and the full stop around its
    variable parts. *)
Lemma finalPrompt_segments settings :
  finalPrompt settings =
  sceneLabel ++ String " " (s_prompt settings ++ String "."
    (detailsLabel ++ String " " (envContext settings ++ String " "
      (placementLabel ++ String " " (frameContext settings ++ String " "
        (physicsLabel ++ physicalInteraction ++ closing ++
         String " " (negativeClause settings))))))).
Proof. reflexivity. Qed.

Lemma finalPrompt_physics settings :
  finalPrompt settings =
  beforePhysics settings ++ physicalInteraction ++ afterPhysics settings.
Proof.
  rewrite finalPrompt_segments. unfold beforePhysics, afterPhysics.
  repeat (rewrite append_assoc || rewrite append_cons). reflexivity.
Qed.

(** A word cannot begin before a character it avoids and run over it. *)
Lemma prefix_sep c p : avoids c p = true ->
  forall a b, prefix p (a ++ String c b) = prefix p a.
Proof.
  unfold avoids. induction p as [|y p IH]; intros Hc a b.
  - destruct a; reflexivity.
  - simpl in Hc. apply negb_true_iff in Hc. apply orb_false_iff in Hc.
    destruct Hc as [Hy Hp].
    destruct a as [|x a]; simpl.
    + destruct (ascii_dec y c) as [->|]; [|reflexivity].
      rewrite Ascii.eqb_refl in Hy. discriminate.
    + destruct (ascii_dec y x); [|reflexivity]. apply IH. rewrite Hp. reflexivity.
Qed.

Lemma includes_cons x a p :
  includes (String x a) p = prefix p (String x a) || includes a p.
Proof. reflexivity. Qed.

(** A separator that the word avoids splits the search. *)
Lemma includes_sep c p : avoids c p = true ->
  forall a b, includes (a ++ String c b) p = includes a p || includes b p.
Proof.
  intros Hc a b. induction a as [|x a IH].
  - change ("" ++ String c b) with (String c b).
    rewrite includes_cons.
    pose proof (prefix_sep c p Hc "" b) as H. simpl append in H. rewrite H.
    destruct p; reflexivity.
  - change (String x a ++ String c b) with (String x (a ++ String c b)).
    rewrite !includes_cons, IH.
    pose proof (prefix_sep c p Hc (String x a) b) as H. simpl append in H.
    rewrite H, orb_assoc. reflexivity.
Qed.

Lemma includesAny_sep c words : allAvoid c words = true ->
  forall a b,
    includesAny words (a ++ String c b) = includesAny words a || includesAny words b.
Proof.
  unfold includesAny, allAvoid. induction words as [|w ws IH]; intros Hc a b.
  - reflexivity.
  - simpl in Hc. apply andb_true_iff in Hc. destruct Hc as [Hw Hws].
    simpl. rewrite (includes_sep c w Hw), (IH Hws).
    destruct (includes a w), (includes b w), (existsb (includes a) ws); reflexivity.
Qed.

Lemma envContext_no_framing settings :
  hasFramingLanguage (envContext settings) = false.
Proof. destruct settings as [p n c a i f [[]|] [[]|] s]; reflexivity. Qed.

Lemma envContext_no_Auto settings : includes (envContext settings) "Auto" = false.
Proof. destruct settings as [p n c a i f [[]|] [[]|] s]; reflexivity. Qed.

Lemma frameContext_None_no_framing settings :
  frameStyle settings = Some FrameNone ->
  hasFramingLanguage (frameContext settings) = false.
Proof.
  destruct settings as [p n c a i f l w s]. simpl. intros ->.
  destruct s; reflexivity.
Qed.

Lemma frameContext_Auto_no_Auto settings :
  frameStyle settings = Some FrameAuto ->
  includes (frameContext settings) "Auto" = false.
Proof.
  destruct settings as [p n c a i f l w s]. simpl. intros ->.
  destruct s; reflexivity.
Qed.

(** The negative clause is empty or wraps the negative prompt between a
    blank and a full stop. *)
Lemma negativeClause_cases settings :
  negativeClause settings = "" \/
  negativeClause settings =
    "" ++ String " " ("Do NOT include:" ++
                      String " " (negativePrompt settings ++ String "." "")).
Proof.
  unfold negativeClause.
  destruct (truthy (negativePrompt settings) &&
            (0 <? String.length (trim (negativePrompt settings)))%nat);
    [right|left]; reflexivity.
Qed.

Lemma beforePhysics_no_framing settings :
  frameStyle settings = Some FrameNone ->
  hasFramingLanguage (s_prompt settings) = false ->
  hasFramingLanguage (beforePhysics settings) = false.
Proof.
  intros Hf Hp. unfold beforePhysics, hasFramingLanguage.
  rewrite !includesAny_sep by reflexivity.
  fold (hasFramingLanguage (s_prompt settings)).
  fold (hasFramingLanguage (envContext settings)).
  fold (hasFramingLanguage (frameContext settings)).
  rewrite Hp, envContext_no_framing, (frameContext_None_no_framing settings Hf).
  reflexivity.
Qed.

Lemma afterPhysics_no_framing settings :
  hasFramingLanguage (negativePrompt settings) = false ->
  hasFramingLanguage (afterPhysics settings) = false.
Proof.
  intros Hn. unfold afterPhysics, hasFramingLanguage.
  rewrite includesAny_sep by reflexivity.
  destruct (negativeClause_cases settings) as [-> | ->].
  - reflexivity.
  - rewrite !includesAny_sep by reflexivity.
    fold (hasFramingLanguage (negativePrompt settings)). rewrite Hn. reflexivity.
Qed.

Lemma includes_app_r a b p : includes b p = true -> includes (a ++ b) p = true.
Proof.
  intros H. induction a as [|x a IH]; [exact H|].
  change (String x a ++ b) with (String x (a ++ b)).
  rewrite includes_cons, IH. apply orb_true_r.
Qed.

Lemma prefix_app p b : prefix p (p ++ b) = true.
Proof.
  induction p as [|x p IH]; simpl; [destruct b; reflexivity|].
  destruct (ascii_dec x x); [exact IH | congruence].
Qed.

Lemma prefix_app_l p : forall a b, prefix p a = true -> prefix p (a ++ b) = true.
Proof.
  induction p as [|y p IH]; intros a b H.
  - destruct (a ++ b); reflexivity.
  - destruct a as [|x a]; [discriminate|]. simpl in *.
    destruct (ascii_dec y x); [|discriminate]. apply IH. exact H.
Qed.

Lemma includes_app_l a b p : includes a p = true -> includes (a ++ b) p = true.
Proof.
  intros H. induction a as [|x a IH].
  - simpl in H. rewrite orb_false_r in H.
    destruct p; [|discriminate]. destruct b; reflexivity.
  - change (String x a ++ b) with (String x (a ++ b)).
    rewrite includes_cons in *. apply orb_true_iff in H. apply orb_true_iff.
    destruct H as [H|H].
    + left. apply (prefix_app_l p (String x a) b H).
    + right. apply IH. exact H.
Qed.

Lemma frameContext_names_style settings named :
  namedStyle named = true ->
  frameStyle settings = Some named ->
  includes (frameContext settings) (frameStyleText named) = true.
Proof.
  intros Hn Hf. unfold frameContext. rewrite Hf.
  destruct named; try discriminate;
    (apply includes_app_r; apply includes_app_l; simpl; reflexivity).
Qed.

Lemma includes_cons_r x a p : includes a p = true -> includes (String x a) p = true.
Proof. intros H. rewrite includes_cons, H. apply orb_true_r. Qed.

Lemma finalPrompt_includes_placement settings p :
  includes (frameContext settings) p = true ->
  includes (finalPrompt settings) p = true.
Proof.
  intros H. rewrite finalPrompt_segments.
  do 5 (apply includes_app_r; apply includes_cons_r).
  apply includes_app_l. exact H.
Qed.

Lemma negativeClause_Auto settings :
  includes (negativePrompt settings) "Auto" = false ->
  includes (negativeClause settings) "Auto" = false.
Proof.
  intros H. destruct (negativeClause_cases settings) as [-> | ->].
  - reflexivity.
  - rewrite !includes_sep by reflexivity. rewrite H. reflexivity.
Qed.

Lemma finalPrompt_Auto settings :
  frameStyle settings = Some FrameAuto ->
  includes (finalPrompt settings) "Auto" =
  includes (s_prompt settings) "Auto" || includes (negativeClause settings) "Auto".
Proof.
  intros Hf. rewrite finalPrompt_segments.
  rewrite 6 includes_sep by reflexivity.
  rewrite <- 2 append_assoc.
  rewrite includes_sep by reflexivity.
  rewrite envContext_no_Auto, (frameContext_Auto_no_Auto settings Hf).
  change (includes sceneLabel "Auto") with false.
  change (includes detailsLabel "Auto") with false.
  change (includes placementLabel "Auto") with false.
  change (includes ((physicsLabel ++ physicalInteraction) ++ closing) "Auto") with false.
  destruct (includes (s_prompt settings) "Auto"),
    (includes (negativeClause settings) "Auto"); reflexivity.
Qed.

(** C2 (amended). For every generation request: with the frame style "None"
    the placement clause holds no framing or glass-reflection language, and
    the composed text is [beforePhysics ++ physicalInteraction ++
    afterPhysics], where neither side of the fixed physics clause holds such
    language when the scene and negative texts hold none; with a named
    style the composed text contains the style's name; with "Auto" the
    placement clause does not contain "Auto", and the composed text contains
    it exactly when the scene description or the negative clause does. *)
Theorem C2_frame_style_cases : forall settings : GenerationSettings,
  (frameStyle settings = Some FrameNone ->
     hasFramingLanguage (frameContext settings) = false /\
     finalPrompt settings =
       beforePhysics settings ++ physicalInteraction ++ afterPhysics settings /\
     (hasFramingLanguage (s_prompt settings) = false ->
      hasFramingLanguage (negativePrompt settings) = false ->
      hasFramingLanguage (beforePhysics settings) = false /\
      hasFramingLanguage (afterPhysics settings) = false)) /\
  (forall named, namedStyle named = true ->
     frameStyle settings = Some named ->
     includes (finalPrompt settings) (frameStyleText named) = true) /\
  (frameStyle settings = Some FrameAuto ->
     includes (frameContext settings) "Auto" = false /\
     includes (finalPrompt settings) "Auto" =
       includes (s_prompt settings) "Auto" ||
       includes (negativeClause settings) "Auto" /\
     (includes (s_prompt settings) "Auto" = false ->
      includes (negativePrompt settings) "Auto" = false ->
      includes (finalPrompt settings) "Auto" = false)).
Proof.
  intros settings. split; [|split].
  - intros Hf. split; [|split].
    + apply frameContext_None_no_framing. exact Hf.
    + apply finalPrompt_physics.
    + intros Hp Hn. split.
      * apply beforePhysics_no_framing; assumption.
      * apply afterPhysics_no_framing; assumption.
  - intros named Hn Hf. apply finalPrompt_includes_placement.
    apply frameContext_names_style; assumption.
  - intros Hf. split; [|split].
    + apply frameContext_Auto_no_Auto. exact Hf.
    + apply finalPrompt_Auto. exact Hf.
    + intros Hp Hn. rewrite (finalPrompt_Auto settings Hf), Hp.
      apply negativeClause_Auto. exact Hn.
Qed.

(** The three cases at work: a poster, an oak frame, and an automatic frame
    over texts that do not hold the word. *)
Lemma C2_frame_style_cases_witness :
  hasFramingLanguage (beforePhysics Sample.posterSettings) = false /\
  hasFramingLanguage (afterPhysics Sample.posterSettings) = false /\
  includes (finalPrompt Sample.oakSettings) "Natural Oak" = true /\
  includes (finalPrompt App.DEFAULT_SETTINGS) "Auto" = false.
Proof.
  split; [|split; [|split]].
  - exact (proj1 (proj2 (proj2 (proj1 (C2_frame_style_cases Sample.posterSettings)
             eq_refl)) eq_refl eq_refl)).
  - exact (proj2 (proj2 (proj2 (proj1 (C2_frame_style_cases Sample.posterSettings)
             eq_refl)) eq_refl eq_refl)).
  - exact (proj1 (proj2 (C2_frame_style_cases Sample.oakSettings))
             NaturalOak eq_refl eq_refl).
  - exact (proj2 (proj2 (proj2 (proj2 (C2_frame_style_cases App.DEFAULT_SETTINGS))
             eq_refl)) eq_refl eq_refl).
Defined.

(** C2 as stated fails twice. A poster job over texts without any framing
    word still carries the physics clause ("If there is glass, show subtle
    reflections"), and an automatically framed job whose scene description
    holds "Auto" sends that word. *)
Lemma C2_counterexample :
  (frameStyle Sample.posterSettings = Some FrameNone /\
   hasFramingLanguage (s_prompt Sample.posterSettings) = false /\
   hasFramingLanguage (negativePrompt Sample.posterSettings) = false /\
   includes (finalPrompt Sample.posterSettings) "glass" = true /\
   includes (finalPrompt Sample.posterSettings) "reflections" = true /\
   hasFramingLanguage (finalPrompt Sample.posterSettings) = true) /\
  (frameStyle Sample.garageSettings = Some FrameAuto /\
   includes (finalPrompt Sample.garageSettings) "Auto" = true).
Proof. repeat split; vm_compute; reflexivity. Qed.

End PromptFacts.

(* ================================================================== *)
(** * Batch layout: round-robin constraints and stagger                 *)
(* ================================================================== *)

Module LayoutFacts.
Import Gemini App.

Lemma jobsFrom_nth st entries : forall k i,
  nth_error (jobsFrom st entries k) i =
  option_map
    (fun promptObj =>
       mkBatchJob (k + i) (staggerDelay (k + i)) promptObj
         (batchSettings st promptObj (k + i)))
    (nth_error entries i).
Proof.
  induction entries as [|e rest IH]; intros k i.
  - destruct i; reflexivity.
  - destruct i as [|i]; simpl.
    + rewrite Nat.add_0_r. reflexivity.
    + rewrite IH. replace (S k + i) with (k + S i) by lia. reflexivity.
Qed.

Lemma jobsFrom_length st entries k :
  List.length (jobsFrom st entries k) = List.length entries.
Proof.
  revert k. induction entries as [|e rest IH]; intros k; simpl; [|rewrite IH];
    reflexivity.
Qed.

Lemma batchJobs_nth st i :
  nth_error (batchJobs st) i =
  option_map
    (fun promptObj =>
       mkBatchJob i (staggerDelay i) promptObj (batchSettings st promptObj i))
    (nth_error (editablePrompts st) i).
Proof. unfold batchJobs. rewrite jobsFrom_nth. reflexivity. Qed.

Lemma batchJobs_length st :
  List.length (batchJobs st) = List.length (editablePrompts st).
Proof. apply jobsFrom_length. Qed.

Lemma pick_nonempty {A : Type} (array : list A) (index : nat) :
  array <> [] ->
  exists a, pick array index = Some a /\
            nth_error array (index mod List.length array) = Some a.
Proof.
  intros Hne. unfold pick.
  destruct (nth_error array (index mod List.length array)) as [a|] eqn:H.
  - exists a. split; reflexivity.
  - apply nth_error_None in H.
    assert (List.length array <> 0) by (destruct array; simpl; congruence).
    pose proof (Nat.mod_upper_bound index (List.length array) ltac:(assumption)).
    lia.
Qed.

(** C8. In every batch over non-empty selection sets the job at index [i]
    carries its entry's text and the constraints
    [frames[i mod |frames|]], [lighting[i mod |lighting|]] and
    [textures[i mod |textures|]]; with five entries and two selected frames
    the jobs receive the frames in the order 0, 1, 0, 1, 0. *)
Theorem C8_round_robin :
  forall (st : AppState),
    selectedFrames st <> [] ->
    selectedLighting st <> [] ->
    selectedTextures st <> [] ->
    (forall i promptObj,
       nth_error (editablePrompts st) i = Some promptObj ->
       exists job f l t,
         nth_error (batchJobs st) i = Some job /\
         job_index job = i /\
         job_prompt job = promptObj /\
         s_prompt (job_settings job) = entry_text promptObj /\
         nth_error (selectedFrames st)
           (i mod List.length (selectedFrames st)) = Some f /\
         frameStyle (job_settings job) = Some f /\
         nth_error (selectedLighting st)
           (i mod List.length (selectedLighting st)) = Some l /\
         lighting (job_settings job) = Some l /\
         nth_error (selectedTextures st)
           (i mod List.length (selectedTextures st)) = Some t /\
         wallTexture (job_settings job) = Some t) /\
    (forall f0 f1,
       selectedFrames st = [f0; f1] ->
       List.length (editablePrompts st) = 5 ->
       map (fun job => frameStyle (job_settings job)) (batchJobs st) =
       [Some f0; Some f1; Some f0; Some f1; Some f0]).
Proof.
  intros st Hf Hl Ht. split.
  - intros i promptObj Hi.
    destruct (pick_nonempty (selectedFrames st) i Hf) as [f [Hpf Hnf]].
    destruct (pick_nonempty (selectedLighting st) i Hl) as [l [Hpl Hnl]].
    destruct (pick_nonempty (selectedTextures st) i Ht) as [t [Hpt Hnt]].
    exists (mkBatchJob i (staggerDelay i) promptObj (batchSettings st promptObj i)),
      f, l, t.
    rewrite batchJobs_nth, Hi. simpl. repeat split; assumption.
  - intros f0 f1 Hsel Hlen. unfold batchJobs.
    destruct (editablePrompts st) as [|e0 [|e1 [|e2 [|e3 [|e4 [|e5 rest]]]]]];
      try discriminate.
    simpl. unfold pick. rewrite Hsel. reflexivity.
Qed.

(** Five entries over the frames Sleek Black and Natural Oak. *)
Lemma C8_round_robin_witness :
  map (fun job => frameStyle (job_settings job)) (batchJobs Sample.fivePrompts) =
  [Some SleekBlack; Some NaturalOak; Some SleekBlack; Some NaturalOak;
   Some SleekBlack].
Proof.
  refine (proj2 (C8_round_robin Sample.fivePrompts _ _ _)
            SleekBlack NaturalOak eq_refl eq_refl); discriminate.
Defined.

(** C3, on the code. Every job after the first waits one timer of 2500 ms,
    whatever its index: in a batch of three, jobs 1 and 2 are both released
    2500 ms after the start, and job 2 is not released at 2 * 2500 ms. *)
Theorem C3_stagger_is_flat :
  map job_delay (batchJobs Sample.threePrompts) = [0; 2500; 2500]%Z /\
  (forall job, nth_error (batchJobs Sample.threePrompts) 2 = Some job ->
     job_delay job <> (2 * 2500)%Z).
Proof.
  split.
  - reflexivity.
  - intros job H. vm_compute in H. injection H as <-. discriminate.
Qed.

(** The wait does not grow with the index. *)
Lemma staggerDelay_flat (i : nat) : 0 < i -> staggerDelay i = 2500%Z.
Proof. intros H. unfold staggerDelay. destruct i; [lia | reflexivity]. Qed.

End LayoutFacts.

(* ================================================================== *)
(** * Suggestion engine                                                 *)
(* ================================================================== *)

Module AnalysisFacts.
Import Js Gemini.

Lemma slice0_length {A : Type} (n : nat) (l : list A) :
  List.length (slice0 n l) <= n.
Proof. unfold slice0. apply firstn_le_length. Qed.

Lemma fallbackSuggestions_length : List.length fallbackSuggestions = 4.
Proof. reflexivity. Qed.

(** C1 (amended). With a key available, [analyzeImageForPrompts] never
    fails and returns at most 4 suggestions: the fixed 4 generic ones when
    the retried call fails or its body does not parse; the first 4 elements
    of the array the body parses to, which are none for an empty array (a
    missing or empty body counts as one); and none when the body parses to
    something that is no array. With no key it fails with the
    configuration error. *)
Theorem C1_suggestions :
  forall (JSON_parse : string -> option Json) (keys : KeySources) (ai : Remote)
         (base64Image : string) (vibe : AnalysisVibe),
    let call :=
      Retry.result
        (Retry.retryDefault
           (ai (analysisRequest (suggestionsPrompt vibe) base64Image))) in
    let run := analyzeImageForPrompts JSON_parse keys ai base64Image vibe in
    (getApiKey keys = None -> run = Rejected keyMissing) /\
    (getApiKey keys <> None ->
       (exists suggestions,
          run = Resolved suggestions /\ List.length suggestions <= 4) /\
       (forall e, call = Rejected e -> run = Resolved fallbackSuggestions) /\
       (forall response,
          call = Resolved response ->
          JSON_parse (orElse (text response) "[]") = None ->
          run = Resolved fallbackSuggestions) /\
       (forall response items,
          call = Resolved response ->
          JSON_parse (orElse (text response) "[]") = Some (JArray items) ->
          run = Resolved (slice0 4 items)) /\
       (forall response,
          call = Resolved response ->
          JSON_parse (orElse (text response) "[]") = Some JOther ->
          run = Resolved [])) /\
    List.length fallbackSuggestions = 4.
Proof.
  intros JSON_parse keys ai base64Image vibe call run.
  subst call run. unfold analyzeImageForPrompts.
  split; [|split].
  - intros ->. reflexivity.
  - intros Hkey. destruct (getApiKey keys) as [key|]; [|congruence].
    cbn zeta.
    destruct (Retry.result _) as [response|e].
    + destruct (JSON_parse (orElse (text response) "[]")) as [[items|]|] eqn:Hp;
        (split;
         [ eexists; split; [reflexivity | first [apply slice0_length | simpl; lia]]
         | repeat split; intros;
           repeat match goal with
                  | H : Resolved _ = Resolved _ |- _ => injection H as H; subst
                  end;
           congruence ]).
    + split.
      * exists fallbackSuggestions. split; [reflexivity | simpl; lia].
      * repeat split; intros; congruence.
  - reflexivity.
Qed.

(** A refused call with a key in the environment: the four generic
    suggestions. *)
Lemma C1_suggestions_witness :
  analyzeImageForPrompts Sample.parseSample Sample.envKeys Sample.refusing
    Sample.jpeg SurpriseMe = Resolved fallbackSuggestions.
Proof.
  refine (proj1 (proj2 (proj1 (proj2
            (C1_suggestions Sample.parseSample Sample.envKeys Sample.refusing
               Sample.jpeg SurpriseMe)) _)) Sample.denied _).
  - discriminate.
  - reflexivity.
Defined.

(** C1 as stated fails twice. An answer without text is read as the empty
    array and the function returns no suggestion at all; and without a key
    the function throws before the [try]. *)
Lemma C1_counterexample :
  analyzeImageForPrompts Sample.parseSample Sample.envKeys Sample.silent
    Sample.jpeg SurpriseMe = Resolved [] /\
  analyzeImageForPrompts Sample.parseSample Sample.noKeys Sample.silent
    Sample.jpeg SurpriseMe = Rejected keyMissing.
Proof. split; reflexivity. Qed.

(** With a key available [regenerateSinglePrompt] never fails: it returns
    the first element of the array the body parses to, and a fixed text
    when the call fails, the body does not parse, or it parses to an empty
    array or to no array. *)
Theorem regenerate_always_answers :
  forall (JSON_parse : string -> option Json) (keys : KeySources) (ai : Remote)
         (base64Image : string) (vibe : AnalysisVibe),
    getApiKey keys <> None ->
    let call :=
      Retry.result
        (Retry.retryDefault (ai (analysisRequest (singlePrompt vibe) base64Image))) in
    let run := regenerateSinglePrompt JSON_parse keys ai base64Image vibe in
    (exists newText, run = Resolved newText) /\
    (forall e, call = Rejected e ->
       run = Resolved "A creative environment suitable for this artwork.") /\
    (forall response first rest,
       call = Resolved response ->
       JSON_parse (orElse (text response) "[]") = Some (JArray (first :: rest)) ->
       run = Resolved first).
Proof.
  intros JSON_parse keys ai base64Image vibe Hkey call run.
  subst call run. unfold regenerateSinglePrompt.
  destruct (getApiKey keys) as [key|]; [|congruence]. cbn zeta.
  destruct (Retry.result _) as [response|e].
  - destruct (JSON_parse (orElse (text response) "[]")) as [[[|first rest]|]|] eqn:Hp;
      (split; [eexists; reflexivity|]); split; intros;
      repeat match goal with
             | H : Resolved _ = Resolved _ |- _ => injection H as H; subst
             end;
      congruence.
  - split; [eexists; reflexivity|]. split; intros; congruence.
Qed.

Lemma regenerate_always_answers_witness :
  regenerateSinglePrompt Sample.parseSample Sample.envKeys Sample.refusing
    Sample.jpeg CozyBohemian =
  Resolved "A creative environment suitable for this artwork.".
Proof.
  refine (proj1 (proj2 (regenerate_always_answers Sample.parseSample Sample.envKeys
            Sample.refusing Sample.jpeg CozyBohemian _)) Sample.denied _).
  - discriminate.
  - reflexivity.
Defined.

End AnalysisFacts.

(* ================================================================== *)
(** * The generation call                                               *)
(* ================================================================== *)

Module GenerateFacts.
Import Js Gemini Spec.

Lemma loop_all_rejected {T : Type} (fn : nat -> Outcome T) (retries baseDelay : Z) :
  (forall i, exists e, fn i = Rejected e) ->
  forall remaining i,
    exists e, Retry.result (Retry.loop fn retries baseDelay remaining i) = Rejected e.
Proof.
  intros Hfail. induction remaining as [|r IH]; intros i; simpl.
  - eexists. reflexivity.
  - destruct (Hfail i) as [e ->].
    destruct (negb (Retry.isTransient e) || (Z.of_nat i =? retries - 1)%Z); simpl.
    + exists e. reflexivity.
    + apply IH.
Qed.

Lemma generateSlot_alwaysFails (ai : Remote) img settings :
  alwaysFails ai -> generateSlot ai img settings = None.
Proof.
  intros Hfail. unfold generateSlot, Retry.retryDefault, Retry.retry.
  destruct (loop_all_rejected (ai (generationRequest img settings)) 3 2000
              (Hfail _) (Z.to_nat 3) 0) as [e ->].
  reflexivity.
Qed.

Lemma nonNull_length {A : Type} (l : list (option A)) :
  List.length (nonNull l) <= List.length l.
Proof.
  induction l as [|[a|] l IH]; simpl; lia.
Qed.

Lemma generateMockup_nonempty keys ai img settings images :
  generateMockup keys ai img settings = Resolved images -> images <> [].
Proof.
  unfold generateMockup. destruct (getApiKey keys); [|discriminate].
  cbn zeta.
  destruct (Nat.eqb_spec (List.length (nonNull (map (fun index =>
              generateSlot (ai index) img settings) (seq 0 (count settings))))) 0)
    as [H0|H0]; [discriminate|].
  intros H. injection H as <-. intros Hnil. rewrite Hnil in H0. apply H0. reflexivity.
Qed.

(** A request for one image resolves with exactly one. *)
Lemma generateMockup_single keys ai img settings images :
  count settings = 1 ->
  generateMockup keys ai img settings = Resolved images ->
  List.length images = 1.
Proof.
  intros Hc H. pose proof (generateMockup_nonempty _ _ _ _ _ H) as Hne.
  unfold generateMockup in H. destruct (getApiKey keys); [|discriminate].
  cbn zeta in H. rewrite Hc in H. simpl in H.
  destruct (generateSlot (ai 0) img settings); simpl in H.
  - injection H as <-. reflexivity.
  - discriminate.
Qed.

(** A request for one image whose remote call always fails is rejected. *)
Lemma generateMockup_alwaysFails keys ai img settings :
  count settings = 1 ->
  alwaysFails (ai 0) ->
  exists e, generateMockup keys ai img settings = Rejected e.
Proof.
  intros Hc Hfail. unfold generateMockup.
  destruct (getApiKey keys); [|eexists; reflexivity].
  cbn zeta. rewrite Hc. simpl.
  rewrite (generateSlot_alwaysFails (ai 0) img settings Hfail). simpl.
  eexists. reflexivity.
Qed.

Lemma firstInlineImage_dataUrl ps url :
  firstInlineImage ps = Some url -> prefix "data:image/png;base64," url = true.
Proof.
  induction ps as [|part rest IH]; simpl; [discriminate|].
  destruct (inlineData part) as [[[d|]]|]; try exact IH.
  destruct (truthy d); [|exact IH].
  intros H. injection H as <-.
  apply (PromptFacts.prefix_app "data:image/png;base64," d).
Qed.

Lemma generateSlot_dataUrl ai img settings url :
  generateSlot ai img settings = Some url ->
  prefix "data:image/png;base64," url = true.
Proof.
  unfold generateSlot. destruct (Retry.result _) as [response|e]; [|discriminate].
  unfold imageOfResponse.
  destruct (candidates response) as [[|[[[[ps|]]|]] cs]|]; try discriminate.
  apply firstInlineImage_dataUrl.
Qed.

Lemma nonNull_Forall {A : Type} (P : A -> Prop) (l : list (option A)) :
  (forall a, In (Some a) l -> P a) -> Forall P (nonNull l).
Proof.
  induction l as [|[a|] l IH]; intros H; simpl.
  - constructor.
  - constructor; [apply H; left; reflexivity | apply IH; intros b Hb; apply H; right; exact Hb].
  - apply IH. intros b Hb. apply H. right. exact Hb.
Qed.

(** A call of [generateMockup] that resolves returns at least one image and
    at most [settings.count], each a PNG data URL. *)
Theorem generateMockup_images :
  forall (keys : KeySources) (ai : nat -> Remote) (base64Image : string)
         (settings : GenerationSettings) (images : list string),
    generateMockup keys ai base64Image settings = Resolved images ->
    1 <= List.length images <= count settings /\
    Forall (fun url => prefix "data:image/png;base64," url = true) images.
Proof.
  intros keys ai img settings images H.
  pose proof (generateMockup_nonempty _ _ _ _ _ H) as Hne.
  unfold generateMockup in H. destruct (getApiKey keys); [|discriminate].
  cbn zeta in H.
  destruct (List.length (nonNull _) =? 0)%nat; [discriminate|].
  injection H as <-. split; [split|].
  - destruct (nonNull _); [congruence | simpl; lia].
  - pose proof (nonNull_length (map (fun index => generateSlot (ai index) img settings)
                                  (seq 0 (count settings)))) as Hl.
    rewrite length_map, length_seq in Hl. exact Hl.
  - apply nonNull_Forall. intros url Hin. apply in_map_iff in Hin.
    destruct Hin as [index [Hslot _]]. apply (generateSlot_dataUrl _ _ _ _ Hslot).
Qed.

Lemma generateMockup_images_witness :
  1 <= List.length ["data:image/png;base64,iVBORw0KGgo="] <= 1 /\
  Forall (fun url => prefix "data:image/png;base64," url = true)
    ["data:image/png;base64,iVBORw0KGgo="].
Proof.
  exact (generateMockup_images Sample.envKeys (fun _ => Sample.painter) Sample.jpeg
           App.DEFAULT_SETTINGS ["data:image/png;base64,iVBORw0KGgo="] eq_refl).
Defined.

End GenerateFacts.

(* ================================================================== *)
(** * The component's invariant                                         *)
(* ================================================================== *)

Module StateFacts.
Import Js Gemini App Spec.

Lemma NoDup_map_filter {A B : Type} (f : A -> B) (g : A -> bool) (l : list A) :
  NoDup (map f l) -> NoDup (map f (filter g l)).
Proof.
  induction l as [|a l IH]; simpl; intros H; [constructor|].
  inversion H as [|x xs Hnin Hnd]; subst.
  destruct (g a); simpl; [|apply IH; exact Hnd].
  constructor; [|apply IH; exact Hnd].
  intros Hin. apply Hnin. apply in_map_iff in Hin.
  destruct Hin as [b [Hb Hinb]]. apply filter_In in Hinb.
  apply in_map_iff. exists b. tauto.
Qed.

(** Removing one identifier from two or more distinct ones leaves one. *)
Lemma filter_id_nonempty (x : string) (l : list PromptEntry) :
  NoDup (map entry_id l) -> 1 < List.length l ->
  filter (fun p => negb (String.eqb (entry_id p) x)) l <> [].
Proof.
  intros Hnd Hlen. destruct l as [|a [|b rest]]; simpl in Hlen; try lia.
  simpl. destruct (String.eqb_spec (entry_id a) x) as [Ha|Ha]; simpl;
    [|discriminate].
  destruct (String.eqb_spec (entry_id b) x) as [Hb|Hb]; simpl; [|discriminate].
  exfalso. inversion Hnd as [|y ys Hnin _]; subst.
  apply Hnin. simpl. left. congruence.
Qed.

Lemma toggleOption_good {T : Type} (eq_dec : forall a b : T, {a = b} + {a <> b})
    (auto : T) (selected : list T) (opt : T) :
  goodSelection auto selected ->
  goodSelection auto (toggleOption eq_dec auto selected opt).
Proof.
  intros (Hne & Hnd & Hauto). unfold toggleOption.
  destruct (in_dec eq_dec opt selected) as [Hin|Hnin].
  - destruct (Nat.eqb_spec (List.length selected) 1) as [Hlen|Hlen];
      [repeat split; assumption|].
    assert (Hno : ~ In auto selected).
    { intros Ha. rewrite (Hauto Ha) in Hlen. apply Hlen. reflexivity. }
    split; [|split].
    + destruct selected as [|a [|b rest]]; [congruence | simpl in Hlen; lia |].
      simpl. destruct (eq_dec a opt) as [Ha|Ha]; [|discriminate].
      destruct (eq_dec b opt) as [Hb|Hb]; [|discriminate].
      exfalso. inversion Hnd as [|y ys Hn _]; subst. apply Hn. left. reflexivity.
    + apply NoDup_filter. exact Hnd.
    + intros Ha. apply filter_In in Ha. tauto.
  - destruct (eq_dec opt auto) as [Heq|Hneq].
    + split; [discriminate|]. split; [repeat constructor; simpl; tauto|].
      reflexivity.
    + split; [|split].
      * intros H. apply app_eq_nil in H. destruct H as [_ H]. discriminate.
      * apply NoDup_app.
        -- apply NoDup_filter. exact Hnd.
        -- repeat constructor. simpl. tauto.
        -- intros a Ha [Hb|[]]. subst a. apply filter_In in Ha.
           apply Hnin. tauto.
      * intros Ha. exfalso. apply in_app_or in Ha. destruct Ha as [Ha|[Ha|[]]].
        -- apply filter_In in Ha. destruct Ha as [_ Ha].
           destruct (eq_dec auto auto); [discriminate | congruence].
        -- congruence.
Qed.

Section Machine.
Variable JSON_parse : string -> option Json.
Variable randomUUID : nat -> string.
Variable keys : KeySources.
Hypothesis Huuid : uniqueUUIDs randomUUID.

Lemma drawnId_mono (n m : nat) (s : string) :
  n <= m -> drawnId randomUUID n s -> drawnId randomUUID m s.
Proof. intros Hle [k [Hk Hs]]. exists k. split; [lia | exact Hs]. Qed.

(** The invariant reads the prompt list, the results, the selections and
    the number of draws only. *)
Lemma Inv_same (st st' : AppState) :
  editablePrompts st' = editablePrompts st ->
  results st' = results st ->
  selectedFrames st' = selectedFrames st ->
  selectedLighting st' = selectedLighting st ->
  selectedTextures st' = selectedTextures st ->
  drawn st <= drawn st' ->
  Inv randomUUID st -> Inv randomUUID st'.
Proof.
  intros Hp Hr Hf Hl Ht Hd (I1 & I2 & I3 & I4 & I5 & I6 & I7).
  unfold Inv. rewrite Hp, Hr, Hf, Hl, Ht.
  split; [exact I1|]. split; [exact I2|]. split; [|split; [|tauto]].
  - intros p Hin. destruct (I3 p Hin) as [H|[H|H]]; auto.
    right. right. apply (drawnId_mono (drawn st)); assumption.
  - intros r Hin. apply (drawnId_mono (drawn st)); auto.
Qed.

(** Replacing the prompt list by any good one, after more draws. *)
Lemma Inv_prompts (st : AppState) (l : list PromptEntry) (d : nat) :
  drawn st <= d ->
  l <> [] ->
  NoDup (map entry_id l) ->
  (forall p, In p l ->
     entry_id p = "1" \/ entry_id p = "loading" \/
     drawnId randomUUID d (entry_id p)) ->
  Inv randomUUID st ->
  Inv randomUUID (setDrawn d (setEditablePrompts l st)).
Proof.
  intros Hd Hne Hnd Hids (I1 & I2 & I3 & I4 & I5 & I6 & I7).
  unfold Inv. simpl.
  split; [exact Hne|]. split; [exact Hnd|]. split; [exact Hids|].
  split; [|tauto].
  intros r Hin. apply (drawnId_mono (drawn st)); auto.
Qed.

(** Replacing the results by any whose identifiers were drawn. *)
Lemma Inv_results (st : AppState) (l : list MockupResult) (d : nat) :
  drawn st <= d ->
  (forall r, In r l -> drawnId randomUUID d (id r)) ->
  Inv randomUUID st ->
  Inv randomUUID (setDrawn d (setResults l st)).
Proof.
  intros Hd Hids (I1 & I2 & I3 & I4 & I5 & I6 & I7).
  unfold Inv. simpl.
  split; [exact I1|]. split; [exact I2|]. split; [|split; [exact Hids|tauto]].
  intros p Hin. destruct (I3 p Hin) as [H|[H|H]]; auto.
  right. right. apply (drawnId_mono (drawn st)); assumption.
Qed.

Lemma Inv_initial (saved : option GenerationSettings) :
  Inv randomUUID (initialState saved).
Proof.
  unfold Inv, goodSelection. simpl.
  split; [discriminate|]. split; [repeat constructor; simpl; tauto|].
  split; [intros p [<-|[]]; left; reflexivity|].
  split; [intros r []|].
  repeat split; try discriminate; repeat constructor; simpl; tauto.
Qed.

(* ---------------- Drawing identifiers ---------------- *)

Lemma mapWithUUID_length {A B : Type} (mk : string -> A -> B) (l : list A) :
  forall d, List.length (mapWithUUID randomUUID mk l d) = List.length l.
Proof. induction l as [|a l IH]; intros d; simpl; [|rewrite IH]; reflexivity. Qed.

(** The identifiers given out are the draws [d, d+1, ...], in order. *)
Lemma mapWithUUID_ids {A B : Type} (mk : string -> A -> B) (key : B -> string)
    (l : list A) :
  (forall uuid a, key (mk uuid a) = uuid) ->
  forall d,
    map key (mapWithUUID randomUUID mk l d) =
    map randomUUID (seq d (List.length l)).
Proof.
  intros Hkey. induction l as [|a l IH]; intros d; simpl; [reflexivity|].
  rewrite Hkey, IH. reflexivity.
Qed.

Lemma NoDup_draws (d n : nat) : NoDup (map randomUUID (seq d n)).
Proof.
  apply Finite.Injective_map_NoDup; [|apply seq_NoDup].
  intros i j. apply (proj1 Huuid).
Qed.

Lemma In_draws (d n : nat) (s : string) :
  In s (map randomUUID (seq d n)) ->
  exists k, d <= k < d + n /\ s = randomUUID k.
Proof.
  intros H. apply in_map_iff in H. destruct H as [k [Hk Hin]].
  apply in_seq in Hin. exists k. split; [lia | congruence].
Qed.

(* ---------------- Prompt handlers ---------------- *)

Lemma handleMagicAnalysis_Inv imageOverride vibeOverride ai st :
  Inv randomUUID st ->
  Inv randomUUID
    (handleMagicAnalysis JSON_parse randomUUID keys imageOverride vibeOverride ai st).
Proof.
  intros HI. unfold handleMagicAnalysis.
  destruct (whenTruthy (orUndefined imageOverride (sourceImage st))) as [img|];
    [|exact HI].
  set (vibeToUse := match vibeOverride with Some v => v | None => analysisVibe st end).
  assert (H1 : Inv randomUUID (setEditablePrompts [loadingEntry vibeToUse] st)).
  { apply (Inv_same (setDrawn (drawn st)
                       (setEditablePrompts [loadingEntry vibeToUse] st)));
      try reflexivity.
    apply Inv_prompts; auto.
    - discriminate.
    - repeat constructor. simpl. tauto.
    - intros p [<-|[]]. right. left. reflexivity. }
  destruct (analyzeImageForPrompts JSON_parse keys ai img vibeToUse)
    as [suggestions|e]; [|exact H1].
  destruct (Nat.ltb_spec 0 (List.length suggestions)) as [Hlen|Hlen]; [|exact H1].
  simpl drawn.
  set (mk := fun (uuid s : string) => mkPromptEntry uuid s false).
  assert (Hids : map entry_id (mapWithUUID randomUUID mk suggestions (drawn st)) =
                 map randomUUID (seq (drawn st) (List.length suggestions))).
  { apply mapWithUUID_ids. reflexivity. }
  apply (Inv_same (setDrawn (drawn st + List.length suggestions)
                     (setEditablePrompts
                        (mapWithUUID randomUUID mk suggestions (drawn st)) st)));
    try reflexivity.
  apply Inv_prompts; auto.
  - lia.
  - intros Hnil. apply (f_equal (@List.length _)) in Hnil.
    rewrite mapWithUUID_length in Hnil. simpl in Hnil. lia.
  - rewrite Hids. apply NoDup_draws.
  - intros p Hin. right. right.
    assert (Hp : In (entry_id p)
                   (map randomUUID (seq (drawn st) (List.length suggestions)))).
    { rewrite <- Hids. apply in_map. exact Hin. }
    apply In_draws in Hp. destruct Hp as [k [Hk Hs]].
    exists k. split; [lia | exact Hs].
Qed.

(** Rewriting entries without touching their identifiers. *)
Lemma Inv_map_entries (f : PromptEntry -> PromptEntry) (st : AppState) :
  (forall p, entry_id (f p) = entry_id p) ->
  Inv randomUUID st ->
  Inv randomUUID (setEditablePrompts (map f (editablePrompts st)) st).
Proof.
  intros Hf HI.
  assert (Hids : map entry_id (map f (editablePrompts st)) =
                 map entry_id (editablePrompts st)).
  { rewrite map_map. apply map_ext. exact Hf. }
  apply (Inv_same (setDrawn (drawn st)
                     (setEditablePrompts (map f (editablePrompts st)) st)));
    try reflexivity.
  pose proof HI as (I1 & I2 & I3 & _).
  apply Inv_prompts; auto.
  - intros Hnil. apply I1. destruct (editablePrompts st); [reflexivity|discriminate].
  - rewrite Hids. exact I2.
  - intros p Hin. apply in_map_iff in Hin. destruct Hin as [q [<- Hq]].
    rewrite Hf. apply I3. exact Hq.
Qed.

Lemma markRegenerating_id id flag p :
  entry_id (markRegenerating id flag p) = entry_id p.
Proof. unfold markRegenerating. destruct (String.eqb (entry_id p) id); reflexivity. Qed.

Lemma handleRegenerateSinglePrompt_Inv id ai st :
  Inv randomUUID st ->
  Inv randomUUID (handleRegenerateSinglePrompt JSON_parse keys id ai st).
Proof.
  intros HI. unfold handleRegenerateSinglePrompt.
  destruct (whenTruthy (sourceImage st)) as [img|]; [|exact HI].
  assert (H1 : Inv randomUUID
                 (setEditablePrompts
                    (map (markRegenerating id true) (editablePrompts st)) st)).
  { apply Inv_map_entries; [apply markRegenerating_id | exact HI]. }
  destruct (regenerateSinglePrompt JSON_parse keys ai img (analysisVibe st))
    as [newText|e].
  - apply Inv_map_entries; [|exact H1].
    intros p. destruct (String.eqb (entry_id p) id); reflexivity.
  - apply Inv_map_entries; [apply markRegenerating_id | exact H1].
Qed.

Lemma updatePrompt_Inv id newText st :
  Inv randomUUID st -> Inv randomUUID (updatePrompt id newText st).
Proof.
  intros HI. unfold updatePrompt. apply Inv_map_entries; [|exact HI].
  intros p. destruct (String.eqb (entry_id p) id); reflexivity.
Qed.

Lemma removePrompt_Inv id st :
  Inv randomUUID st -> Inv randomUUID (removePrompt id st).
Proof.
  intros HI. unfold removePrompt.
  destruct (Nat.ltb_spec 1 (List.length (editablePrompts st))) as [Hlen|Hlen];
    [|exact HI].
  set (l := filter (fun p => negb (String.eqb (entry_id p) id)) (editablePrompts st)).
  apply (Inv_same (setDrawn (drawn st) (setEditablePrompts l st)));
    try reflexivity.
  pose proof HI as (I1 & I2 & I3 & _).
  apply Inv_prompts; auto.
  - apply filter_id_nonempty; assumption.
  - apply NoDup_map_filter. exact I2.
  - intros p Hin. apply filter_In in Hin. apply I3. tauto.
Qed.

(** The identifier about to be drawn is on no entry yet. *)
Lemma next_uuid_fresh st :
  Inv randomUUID st ->
  ~ In (randomUUID (drawn st)) (map entry_id (editablePrompts st)).
Proof.
  intros (_ & _ & I3 & _) Hin. apply in_map_iff in Hin.
  destruct Hin as [p [Hp Hin]]. destruct Huuid as [Hinj Hshape].
  destruct (I3 p Hin) as [H|[H|[k [Hk H]]]].
  - apply (proj1 (Hshape (drawn st))). congruence.
  - apply (proj2 (Hshape (drawn st))). congruence.
  - assert (drawn st = k) by (apply Hinj; congruence). lia.
Qed.

Lemma addEmptyPrompt_Inv st :
  Inv randomUUID st -> Inv randomUUID (addEmptyPrompt randomUUID st).
Proof.
  intros HI. unfold addEmptyPrompt.
  pose proof HI as (I1 & I2 & I3 & _).
  apply Inv_prompts; auto.
  - intros H. apply app_eq_nil in H. destruct H as [_ H]. discriminate.
  - rewrite map_app. simpl. apply NoDup_app.
    + exact I2.
    + repeat constructor. simpl. tauto.
    + intros s Hs [<-|[]]. revert Hs. apply next_uuid_fresh. exact HI.
  - intros p Hin. apply in_app_or in Hin. destruct Hin as [Hin|[<-|[]]].
    + destruct (I3 p Hin) as [H|[H|H]]; auto.
      right. right. apply (drawnId_mono (drawn st)); auto.
    + right. right. exists (drawn st). simpl. split; [lia | reflexivity].
Qed.

(* ---------------- Batch generation ---------------- *)

Lemma jobResults_spec st w img job d rs d' :
  jobResults randomUUID keys st w img job d = (rs, d') ->
  d' = d + List.length rs /\
  map id rs = map randomUUID (seq d (List.length rs)) /\
  map unidentified rs = jobOutput keys st w img job.
Proof.
  unfold jobResults, jobOutput.
  destruct (generateMockup keys (batch_ai w (job_index job)) img (job_settings job))
    as [images|e]; intros H; injection H as <- <-.
  - rewrite mapWithUUID_length. split; [reflexivity|]. split.
    + apply mapWithUUID_ids. reflexivity.
    + generalize d. induction images as [|image images IH]; intros d0; simpl;
        [reflexivity|]. rewrite IH. reflexivity.
  - split; [simpl; lia|]. split; reflexivity.
Qed.

Lemma settle_cons st w img jobs i rest d0 :
  settle randomUUID keys st w img jobs (i :: rest) d0 =
  match nth_error jobs i with
  | Some job =>
      let '(rs, d1) := jobResults randomUUID keys st w img job d0 in
      let '(settled, d2) := settle randomUUID keys st w img jobs rest d1 in
      ((i, rs) :: settled, d2)
  | None => settle randomUUID keys st w img jobs rest d0
  end.
Proof. reflexivity. Qed.

(** The identifiers of all settled jobs are the draws made, in order. *)
Lemma settle_ids st w img jobs : forall order d0 settled d1,
  settle randomUUID keys st w img jobs order d0 = (settled, d1) ->
  d0 <= d1 /\
  map id (concat (map snd settled)) = map randomUUID (seq d0 (d1 - d0)).
Proof.
  induction order as [|i rest IH]; intros d0 settled d1 H.
  - simpl in H. injection H as <- <-. rewrite Nat.sub_diag. split; [lia|reflexivity].
  - rewrite settle_cons in H. destruct (nth_error jobs i) as [job|].
    + destruct (jobResults randomUUID keys st w img job d0) as [rs dj] eqn:Hj.
      destruct (settle randomUUID keys st w img jobs rest dj) as [settled' d2] eqn:Hs.
      injection H as <- <-.
      destruct (jobResults_spec _ _ _ _ _ _ _ Hj) as [Hd [Hids _]].
      destruct (IH _ _ _ Hs) as [Hle Hrest].
      split; [lia|]. simpl. rewrite map_app, Hids, Hrest.
      replace (d2 - d0) with (List.length rs + (d2 - dj)) by lia.
      rewrite seq_app, map_app. rewrite <- Hd. reflexivity.
    + apply IH. exact H.
Qed.

Lemma settle_keys st w img jobs : forall order d0 settled d1,
  settle randomUUID keys st w img jobs order d0 = (settled, d1) ->
  map fst settled = filter (fun i => (i <? List.length jobs)%nat) order.
Proof.
  induction order as [|i rest IH]; intros d0 settled d1 H.
  - simpl in H. injection H as <- <-. reflexivity.
  - rewrite settle_cons in H. simpl filter.
    destruct (nth_error jobs i) as [job|] eqn:Hn.
    + destruct (jobResults randomUUID keys st w img job d0) as [rs dj] eqn:Hj.
      destruct (settle randomUUID keys st w img jobs rest dj) as [settled' d2] eqn:Hs.
      injection H as <- <-.
      assert (Hlt : i < List.length jobs) by (apply nth_error_Some; congruence).
      apply Nat.ltb_lt in Hlt. rewrite Hlt. simpl. f_equal. apply (IH _ _ _ Hs).
    + apply nth_error_None in Hn.
      assert (Hge : (i <? List.length jobs)%nat = false) by (apply Nat.ltb_ge; lia).
      rewrite Hge. apply (IH _ _ _ H).
Qed.

(** What [Promise.all] holds for a job that settled: that job's output. *)
Lemma settle_resultsOf st w img jobs i job : forall order d0 settled d1,
  settle randomUUID keys st w img jobs order d0 = (settled, d1) ->
  nth_error jobs i = Some job ->
  In i order ->
  map unidentified (resultsOf settled i) = jobOutput keys st w img job.
Proof.
  induction order as [|j rest IH]; intros d0 settled d1 H Hjob Hin; [destruct Hin|].
  rewrite settle_cons in H. destruct (nth_error jobs j) as [jobj|] eqn:Hn.
  - destruct (jobResults randomUUID keys st w img jobj d0) as [rs dj] eqn:Hj.
    destruct (settle randomUUID keys st w img jobs rest dj) as [settled' d2] eqn:Hs.
    injection H as <- <-. unfold resultsOf. simpl.
    destruct (Nat.eqb_spec j i) as [->|Hne].
    + simpl. assert (jobj = job) by congruence. subst jobj.
      apply (jobResults_spec _ _ _ _ _ _ _ Hj).
    + destruct Hin as [Hin|Hin]; [congruence|].
      apply (IH _ _ _ Hs Hjob Hin).
  - destruct Hin as [->|Hin]; [congruence|]. apply (IH _ _ _ H Hjob Hin).
Qed.

Lemma resultsOf_In settled i r :
  In r (resultsOf settled i) -> In r (concat (map snd settled)).
Proof.
  unfold resultsOf.
  destruct (find (fun p => (fst p =? i)%nat) settled) as [p|] eqn:Hf; [|intros []].
  apply find_some in Hf. destruct Hf as [Hin _]. intros Hr.
  apply in_concat. exists (snd p). split; [apply in_map; exact Hin | exact Hr].
Qed.

(** Every result of a batch carries a draw made during the batch. *)
Lemma runBatch_ids st w img o d1 :
  runBatch randomUUID keys st w img = (o, d1) ->
  drawn st <= d1 /\
  forall flat, o = Resolved flat ->
    forall r, In r flat ->
      exists k, drawn st <= k < d1 /\ id r = randomUUID k.
Proof.
  unfold runBatch.
  destruct (settle randomUUID keys st w img (batchJobs st) (batch_order w) (drawn st))
    as [settled dn] eqn:Hs.
  destruct (settle_ids _ _ _ _ _ _ _ _ Hs) as [Hle Hids].
  set (flat0 := concat (map (resultsOf settled) (seq 0 (List.length (batchJobs st))))).
  assert (Hall : forall r, In r flat0 ->
                   exists k, drawn st <= k < dn /\ id r = randomUUID k).
  { intros r Hr. apply in_concat in Hr. destruct Hr as [rs [Hrs Hr]].
    apply in_map_iff in Hrs. destruct Hrs as [i [<- _]].
    apply resultsOf_In in Hr. apply (in_map id) in Hr. rewrite Hids in Hr.
    apply In_draws in Hr. destruct Hr as [k [Hk Hr]]. exists k. split; [lia|exact Hr]. }
  destruct (List.length flat0 =? 0)%nat; intros H; injection H as <- <-;
    (split; [exact Hle|]); intros flat Hflat; [discriminate|].
  injection Hflat as <-. exact Hall.
Qed.

Lemma handleGenerateBatch_Inv w st :
  Inv randomUUID st -> Inv randomUUID (handleGenerateBatch randomUUID keys w st).
Proof.
  intros HI. unfold handleGenerateBatch.
  destruct (whenTruthy (sourceImage st)) as [img|]; [|exact HI].
  destruct (List.length (editablePrompts st) =? 0)%nat; [exact HI|].
  destruct (runBatch randomUUID keys st w img) as [o d1] eqn:Hr.
  destruct (runBatch_ids _ _ _ _ _ Hr) as [Hle Hids].
  pose proof HI as (_ & _ & _ & I4 & _).
  destruct o as [flat|e].
  - apply Inv_results; auto.
    intros r Hin. apply in_app_or in Hin. destruct Hin as [Hin|Hin].
    + destruct (Hids flat eq_refl r Hin) as [k [Hk Hid]]. exists k. split; [lia|exact Hid].
    + apply (drawnId_mono (drawn st)); auto.
  - apply (Inv_same (setDrawn d1 (setResults (results st) st))); try reflexivity.
    apply Inv_results; auto.
    intros r Hin. apply (drawnId_mono (drawn st)); auto.
Qed.

(* ---------------- Upscale and the result store ---------------- *)

Lemma handleUpscale_Inv result ai now st :
  Inv randomUUID st -> Inv randomUUID (handleUpscale randomUUID keys result ai now st).
Proof.
  intros HI. unfold handleUpscale.
  assert (Halert : forall msg, Inv randomUUID (alert msg st)).
  { intros msg. apply (Inv_same st); try reflexivity. exact HI. }
  destruct (whenTruthy (sourceImage st)) as [img|]; [|apply Halert].
  destruct (generateMockup keys ai img (upscaleSettings st result)) as [images|e];
    [|apply Halert].
  pose proof HI as (_ & _ & _ & I4 & _).
  apply Inv_results; auto.
  intros r [<-|Hin].
  - exists (drawn st). simpl. split; [lia|reflexivity].
  - apply (drawnId_mono (drawn st)); auto.
Qed.

Lemma deleteResult_Inv id_ st :
  Inv randomUUID st -> Inv randomUUID (deleteResult id_ st).
Proof.
  intros HI. unfold deleteResult.
  set (l := filter (fun r => negb (String.eqb (id r) id_)) (results st)).
  apply (Inv_same (setDrawn (drawn st) (setResults l st))); try reflexivity.
  pose proof HI as (_ & _ & _ & I4 & _).
  apply Inv_results; auto.
  intros r Hin. apply filter_In in Hin. apply I4. tauto.
Qed.

Lemma clearHistory_Inv confirmed st :
  Inv randomUUID st -> Inv randomUUID (clearHistory confirmed st).
Proof.
  intros HI. unfold clearHistory. destruct confirmed; [|exact HI].
  apply (Inv_same (setDrawn (drawn st) (setResults [] st))); try reflexivity.
  apply Inv_results; auto. intros r [].
Qed.

(* ---------------- Every event ---------------- *)

(** A step that leaves the fields the invariant reads as they were in
    [st0]. *)
Ltac unchanged st0 := apply (Inv_same st0); try reflexivity.

Lemma step_Inv st ev :
  Inv randomUUID st -> Inv randomUUID (step JSON_parse randomUUID keys st ev).
Proof.
  intros HI. destruct ev; simpl step.
  - unfold processFile. destruct (negb isJpeg).
    + unchanged st. exact HI.
    + match goal with |- Inv _ (setSettings _ ?s) => unchanged s end.
      apply handleMagicAnalysis_Inv. unchanged st. exact HI.
  - unfold selectVibe.
    assert (H1 : Inv randomUUID (setAnalysisVibe v st))
      by (unchanged st; exact HI).
    destruct (whenTruthy (sourceImage st)); [|exact H1].
    apply handleMagicAnalysis_Inv. exact H1.
  - unchanged st. exact HI.
  - unchanged st. exact HI.
  - destruct HI as (I1 & I2 & I3 & I4 & I5 & I6 & I7).
    unfold Inv. simpl. repeat (split; [assumption|]).
    split; [|split; assumption]. apply toggleOption_good. exact I5.
  - destruct HI as (I1 & I2 & I3 & I4 & I5 & I6 & I7).
    unfold Inv. simpl. repeat (split; [assumption|]).
    split; [|assumption]. apply toggleOption_good. exact I6.
  - destruct HI as (I1 & I2 & I3 & I4 & I5 & I6 & I7).
    unfold Inv. simpl. repeat (split; [assumption|]).
    apply toggleOption_good. exact I7.
  - apply handleRegenerateSinglePrompt_Inv. exact HI.
  - apply updatePrompt_Inv. exact HI.
  - apply removePrompt_Inv. exact HI.
  - apply addEmptyPrompt_Inv. exact HI.
  - apply handleGenerateBatch_Inv. exact HI.
  - apply handleUpscale_Inv. exact HI.
  - apply deleteResult_Inv. exact HI.
  - apply clearHistory_Inv. exact HI.
Qed.

Lemma Reachable_Inv st :
  Reachable JSON_parse randomUUID keys st -> Inv randomUUID st.
Proof.
  induction 1 as [saved|st ev _ IH].
  - apply Inv_initial.
  - apply step_Inv. exact IH.
Qed.

(** In every state the component can reach, each of the three selections
    holds at least one value, none twice, and "Auto" only alone. *)
Theorem selections_stay_good :
  forall st : AppState,
    Reachable JSON_parse randomUUID keys st ->
    goodSelection FrameAuto (selectedFrames st) /\
    goodSelection LightAuto (selectedLighting st) /\
    goodSelection TextureAuto (selectedTextures st).
Proof.
  intros st Hreach.
  destruct (Reachable_Inv st Hreach) as (_ & _ & _ & _ & H). exact H.
Qed.

(* ---------------- What a batch returns ---------------- *)

Lemma map_nth_seq {A B : Type} (f : A -> B) (g : nat -> B) (l : list A) :
  (forall i a, nth_error l i = Some a -> g i = f a) ->
  map g (seq 0 (List.length l)) = map f l.
Proof.
  intros H.
  assert (Hgen : forall k (l' : list A),
             (forall i a, nth_error l' i = Some a -> g (k + i) = f a) ->
             map g (seq k (List.length l')) = map f l').
  { intros k l'. revert k. induction l' as [|a l' IH]; intros k Hl; simpl;
      [reflexivity|].
    rewrite <- (Hl 0 a eq_refl), Nat.add_0_r. f_equal.
    apply IH. intros i b Hi. replace (S k + i) with (k + S i) by lia.
    apply Hl. exact Hi. }
  apply (Hgen 0 l). exact H.
Qed.

Lemma flat_map_nil {A B : Type} (f : A -> list B) (l : list A) :
  (forall a, In a l -> f a = []) -> flat_map f l = [].
Proof.
  induction l as [|a l IH]; intros H; simpl; [reflexivity|].
  rewrite (H a (or_introl eq_refl)), IH; [reflexivity|].
  intros b Hb. apply H. right. exact Hb.
Qed.

(** With every job settled, the batch returns, identifiers aside, the
    outputs of its jobs in job order; it throws when there is none. *)
Lemma runBatch_output st w img :
  (forall i, i < List.length (batchJobs st) -> In i (batch_order w)) ->
  let out := flat_map (jobOutput keys st w img) (batchJobs st) in
  (out = [] -> fst (runBatch randomUUID keys st w img) = Rejected batchEmpty) /\
  (out <> [] ->
   exists flat,
     fst (runBatch randomUUID keys st w img) = Resolved flat /\
     map unidentified flat = out).
Proof.
  intros Hall out. unfold runBatch.
  destruct (settle randomUUID keys st w img (batchJobs st) (batch_order w) (drawn st))
    as [settled dn] eqn:Hs.
  set (flat0 := concat (map (resultsOf settled) (seq 0 (List.length (batchJobs st))))).
  assert (Hout : map unidentified flat0 = out).
  { unfold flat0, out. rewrite concat_map, map_map, flat_map_concat_map.
    f_equal. apply map_nth_seq. intros i job Hjob.
    apply (settle_resultsOf st w img (batchJobs st) i job _ _ _ _ Hs Hjob).
    apply Hall. apply nth_error_Some. congruence. }
  assert (Hlen : List.length flat0 = List.length out)
    by (rewrite <- Hout; symmetry; apply length_map).
  split.
  - intros Hnil. rewrite Hnil in Hlen. simpl in Hlen. rewrite Hlen. reflexivity.
  - intros Hne. destruct (Nat.eqb_spec (List.length flat0) 0) as [H0|H0].
    + exfalso. apply Hne. destruct out; [reflexivity | simpl in Hlen; lia].
    + exists flat0. split; [reflexivity | exact Hout].
Qed.

Lemma resultsOf_keys (settled : list (nat * list MockupResult)) :
  NoDup (map fst settled) ->
  map (resultsOf settled) (map fst settled) = map snd settled.
Proof.
  induction settled as [|[k rs] rest IH]; intros Hnd; [reflexivity|].
  simpl in Hnd. inversion Hnd as [|x xs Hnin Hnd']; subst.
  simpl. f_equal.
  - unfold resultsOf. simpl. rewrite Nat.eqb_refl. reflexivity.
  - rewrite <- (IH Hnd'). apply map_ext_in. intros k' Hk'.
    unfold resultsOf. simpl.
    destruct (Nat.eqb_spec k k') as [->|Hne]; [contradiction | reflexivity].
Qed.

(** With every job settled exactly once, the identifiers of a batch's
    results are pairwise distinct. *)
Lemma runBatch_nodup st w img flat :
  Permutation (batch_order w) (seq 0 (List.length (batchJobs st))) ->
  fst (runBatch randomUUID keys st w img) = Resolved flat ->
  NoDup (map id flat).
Proof.
  intros Hperm. unfold runBatch.
  destruct (settle randomUUID keys st w img (batchJobs st) (batch_order w) (drawn st))
    as [settled dn] eqn:Hs.
  set (n := List.length (batchJobs st)) in *.
  destruct (List.length (concat (map (resultsOf settled) (seq 0 n))) =? 0)%nat;
    simpl; intros H; [discriminate|]. injection H as <-.
  assert (Hkeys : map fst settled = batch_order w).
  { rewrite (settle_keys _ _ _ _ _ _ _ _ Hs).
    apply forallb_filter_id. apply forallb_forall. intros i Hi.
    apply Nat.ltb_lt. apply (Permutation_in _ Hperm) in Hi.
    apply in_seq in Hi. lia. }
  assert (Hnd : NoDup (batch_order w)).
  { apply (Permutation_NoDup (Permutation_sym Hperm)). apply seq_NoDup. }
  destruct (settle_ids _ _ _ _ _ _ _ _ Hs) as [_ Hids].
  apply (Permutation_NoDup (l := map id (concat (map snd settled)))).
  - apply Permutation_map.
    rewrite <- (resultsOf_keys settled) by (rewrite Hkeys; exact Hnd).
    rewrite Hkeys, <- !flat_map_concat_map.
    apply Permutation_flat_map. exact Hperm.
  - rewrite Hids. apply NoDup_draws.
Qed.

Lemma prompts_without (st : AppState) (k : nat) (F : BatchJob -> list string) :
  (forall job, F job = if (job_index job =? k)%nat then []
                       else [entry_text (job_prompt job)]) ->
  forall entries i0,
    flat_map F (jobsFrom st entries i0) =
    map entry_text (if (k <? i0)%nat then entries else without (k - i0) entries).
Proof.
  intros HF. induction entries as [|e rest IH]; intros i0.
  - unfold without. destruct (k <? i0)%nat; [reflexivity|].
    rewrite firstn_nil, skipn_nil. reflexivity.
  - simpl flat_map. rewrite HF, IH. simpl job_index. simpl job_prompt.
    destruct (Nat.eqb_spec i0 k) as [->|Hne].
    + rewrite Nat.ltb_irrefl, Nat.sub_diag.
      assert (Hlt : (k <? S k)%nat = true) by (apply Nat.ltb_lt; lia).
      rewrite Hlt. reflexivity.
    + destruct (Nat.ltb_spec k i0) as [Hlt|Hge].
      * assert (Hlt' : (k <? S i0)%nat = true) by (apply Nat.ltb_lt; lia).
        rewrite Hlt'. reflexivity.
      * assert (Hge' : (k <? S i0)%nat = false) by (apply Nat.ltb_ge; lia).
        rewrite Hge'. replace (k - i0) with (S (k - S i0)) by lia.
        reflexivity.
Qed.

Lemma without_length {A : Type} (k : nat) (l : list A) :
  k < List.length l -> List.length (without k l) = List.length l - 1.
Proof.
  intros Hk. unfold without. rewrite length_app, length_firstn, length_skipn. lia.
Qed.

(* ---------------- The claims on the component ---------------- *)

(** C9. In every state the component can reach the prompt list holds at
    least one entry, and it still does after any event; removing an entry
    from a list of one leaves the state as it is; adding an entry appends
    exactly one entry, whose identifier is on no entry of the list. *)
Theorem C9_prompt_set :
  forall st : AppState,
    Reachable JSON_parse randomUUID keys st ->
    1 <= List.length (editablePrompts st) /\
    (forall ev,
       1 <= List.length (editablePrompts (step JSON_parse randomUUID keys st ev))) /\
    (forall id_,
       List.length (editablePrompts st) = 1 -> removePrompt id_ st = st) /\
    (exists entry : PromptEntry,
       editablePrompts (addEmptyPrompt randomUUID st) =
       (editablePrompts st ++ [entry])%list /\
       List.length (editablePrompts (addEmptyPrompt randomUUID st)) =
       List.length (editablePrompts st) + 1 /\
       ~ In (entry_id entry) (map entry_id (editablePrompts st))).
Proof.
  intros st Hreach.
  assert (Hsize : forall s, Inv randomUUID s -> 1 <= List.length (editablePrompts s)).
  { intros s (I1 & _). destruct (editablePrompts s); [congruence | simpl; lia]. }
  pose proof (Reachable_Inv st Hreach) as HI.
  split; [apply Hsize; exact HI|]. split; [|split].
  - intros ev. apply Hsize. apply step_Inv. exact HI.
  - intros id_ Hlen. unfold removePrompt. rewrite Hlen. reflexivity.
  - exists (mkPromptEntry (randomUUID (drawn st)) "Describe a new environment..." false).
    split; [reflexivity|]. split.
    + simpl. rewrite length_app. reflexivity.
    + apply next_uuid_fresh. exact HI.
Qed.

(** C7. Let [R] be a result in the store of a reachable state (a Draft in
    particular) and let the upscale call succeed. The request reuses [R]'s
    prompt, asks for one 4K image and forces frame, lighting and texture to
    "Auto"; the handler puts one new result in front of the store, with
    [R]'s prompt, the high-resolution flag, the current time and an
    identifier that differs from [R]'s and from every stored one; the store
    behind it is as it was, so [R] is still in it, unchanged. *)
Theorem C7_upscale :
  forall (st : AppState) (R : MockupResult) (ai : nat -> Remote) (now : Z)
         (img : string) (images : list string),
    Reachable JSON_parse randomUUID keys st ->
    In R (results st) ->
    whenTruthy (sourceImage st) = Some img ->
    generateMockup keys ai img (upscaleSettings st R) = Resolved images ->
    let request := upscaleSettings st R in
    let st' := handleUpscale randomUUID keys R ai now st in
    (s_prompt request = prompt R /\ count request = 1 /\
     imageSize request = Size4K /\ frameStyle request = Some FrameAuto /\
     lighting request = Some LightAuto /\ wallTexture request = Some TextureAuto) /\
    exists newResult,
      results st' = newResult :: results st /\
      prompt newResult = prompt R /\
      isHighRes newResult = true /\
      createdAt newResult = now /\
      id newResult <> id R /\
      (forall r, In r (results st) -> id newResult <> id r) /\
      In R (results st').
Proof.
  intros st R ai now img images Hreach HR Himg Hgen request st'.
  split; [repeat split|].
  subst st'. unfold handleUpscale. rewrite Himg, Hgen.
  exists (upscaledResult R images (randomUUID (drawn st)) now).
  pose proof (Reachable_Inv st Hreach) as (_ & _ & _ & I4 & _).
  assert (Hfresh : forall r, In r (results st) -> randomUUID (drawn st) <> id r).
  { intros r Hr Heq. destruct (I4 r Hr) as [k [Hk Hid]].
    assert (drawn st = k) by (apply (proj1 Huuid); congruence). lia. }
  simpl. repeat split; auto.
Qed.

(** C6. Let every job of a batch settle exactly once, in any order. If
    every job fails, the batch throws "Batch generation yielded no
    results." and the handler leaves the store as it was; otherwise the
    batch returns, identifiers aside, the concatenation in job order of
    the outputs of its successful jobs, each stamped with its job's prompt
    and the clock at its job's completion, flagged high-resolution exactly
    when the base settings ask for 4K (Draft otherwise); the identifiers
    are pairwise distinct and on no stored result; and the handler puts
    these results in front of the store. *)
Theorem C6_batch_outcome :
  forall (st : AppState) (w : BatchWorld) (img : string),
    Reachable JSON_parse randomUUID keys st ->
    whenTruthy (sourceImage st) = Some img ->
    Permutation (batch_order w) (seq 0 (List.length (editablePrompts st))) ->
    let jobs := batchJobs st in
    let outcome := fst (runBatch randomUUID keys st w img) in
    let st' := handleGenerateBatch randomUUID keys w st in
    ((forall job, In job jobs -> ~ jobSucceeds keys w img job) ->
       outcome = Rejected batchEmpty /\ results st' = results st) /\
    ((exists job, In job jobs /\ jobSucceeds keys w img job) ->
       exists flat : list MockupResult,
         outcome = Resolved flat /\
         map unidentified flat = flat_map (jobOutput keys st w img) jobs /\
         (forall r, In r flat ->
            isHighRes r = imageSize_eqb (imageSize (settings st)) Size4K /\
            exists job, In job jobs /\
              prompt r = entry_text (job_prompt job) /\
              createdAt r = batch_clock w (job_index job)) /\
         NoDup (map id flat) /\
         (forall r r', In r flat -> In r' (results st) -> id r <> id r') /\
         results st' = (flat ++ results st)%list).
Proof.
  intros st w img Hreach Himg Hperm jobs outcome st'.
  pose proof (Reachable_Inv st Hreach) as HI.
  assert (Hlen : List.length jobs = List.length (editablePrompts st))
    by apply LayoutFacts.batchJobs_length.
  assert (Hall : forall i, i < List.length (batchJobs st) -> In i (batch_order w)).
  { intros i Hi. apply (Permutation_in _ (Permutation_sym Hperm)).
    apply in_seq. fold jobs in Hi. lia. }
  destruct (runBatch_output st w img Hall) as [Hnone Hsome].
  assert (Hne : (List.length (editablePrompts st) =? 0)%nat = false).
  { destruct HI as (I1 & _). destruct (editablePrompts st); [congruence|reflexivity]. }
  assert (Hst' : results st' =
                 match outcome with
                 | Resolved flat => (flat ++ results st)%list
                 | Rejected _ => results st
                 end).
  { subst st' outcome. unfold handleGenerateBatch. rewrite Himg, Hne.
    destruct (runBatch randomUUID keys st w img) as [[flat|e] d1]; reflexivity. }
  split.
  - intros Hfail.
    assert (Hout : flat_map (jobOutput keys st w img) (batchJobs st) = []).
    { apply flat_map_nil. intros job Hjob. unfold jobOutput.
      destruct (generateMockup keys (batch_ai w (job_index job)) img (job_settings job))
        as [images|e] eqn:Hg; [|reflexivity].
      exfalso. apply (Hfail job Hjob). exists images. exact Hg. }
    rewrite Hst'. unfold outcome. rewrite (Hnone Hout). split; reflexivity.
  - intros [job [Hjob [images Hg]]].
    assert (Hout : flat_map (jobOutput keys st w img) (batchJobs st) <> []).
    { intros Hnil. pose proof (GenerateFacts.generateMockup_nonempty _ _ _ _ _ Hg) as Hi.
      assert (Hin : forall u, In u (jobOutput keys st w img job) -> False).
      { intros u Hu. assert (In u (flat_map (jobOutput keys st w img) (batchJobs st)))
          by (apply in_flat_map; exists job; split; assumption).
        rewrite Hnil in H. exact H. }
      unfold jobOutput in Hin. rewrite Hg in Hin.
      destruct images as [|image images]; [congruence|].
      apply (Hin _ (or_introl eq_refl)). }
    destruct (Hsome Hout) as [flat [Hflat Hun]].
    exists flat. rewrite Hst'. unfold outcome. rewrite Hflat.
    split; [reflexivity|]. split; [exact Hun|]. split; [|split; [|split]].
    + intros r Hr. apply (in_map unidentified) in Hr. rewrite Hun in Hr.
      apply in_flat_map in Hr. destruct Hr as [j [Hj Hr]].
      unfold jobOutput in Hr.
      destruct (generateMockup keys (batch_ai w (job_index j)) img (job_settings j));
        [|destruct Hr].
      apply in_map_iff in Hr. destruct Hr as [image [Hr _]].
      unfold unidentified in Hr. injection Hr as _ Hp Hc Hh.
      split; [congruence|]. exists j. split; [exact Hj|]. split; congruence.
    + apply (runBatch_nodup st w img flat); [|exact Hflat].
      fold jobs. rewrite Hlen. exact Hperm.
    + intros r r' Hr Hr' Heq.
      destruct (runBatch randomUUID keys st w img) as [o d1] eqn:Hrun.
      simpl in Hflat. subst o.
      destruct (runBatch_ids _ _ _ _ _ Hrun) as [_ Hids].
      destruct (Hids flat eq_refl r Hr) as [k [Hk Hid]].
      destruct HI as (_ & _ & _ & I4 & _).
      destruct (I4 r' Hr') as [k' [Hk' Hid']].
      assert (k = k') by (apply (proj1 Huuid); congruence). lia.
    + reflexivity.
Qed.

(** C5 (amended). Let a batch of two or more jobs settle each job once. If
    the remote call of job [k] always fails and every other job succeeds,
    the batch does not throw: it returns one result per entry other than
    [k], in job order, each carrying its entry's text. *)
Theorem C5_one_job_fails :
  forall (st : AppState) (w : BatchWorld) (img : string) (k : nat),
    2 <= List.length (editablePrompts st) ->
    k < List.length (editablePrompts st) ->
    Permutation (batch_order w) (seq 0 (List.length (editablePrompts st))) ->
    alwaysFails (batch_ai w k 0) ->
    (forall job, In job (batchJobs st) -> job_index job <> k ->
       jobSucceeds keys w img job) ->
    exists flat,
      fst (runBatch randomUUID keys st w img) = Resolved flat /\
      List.length flat = List.length (editablePrompts st) - 1 /\
      map prompt flat = map entry_text (without k (editablePrompts st)).
Proof.
  intros st w img k Hn Hk Hperm Hfail Hothers.
  assert (Hlen : List.length (batchJobs st) = List.length (editablePrompts st))
    by apply LayoutFacts.batchJobs_length.
  assert (Hall : forall i, i < List.length (batchJobs st) -> In i (batch_order w)).
  { intros i Hi. apply (Permutation_in _ (Permutation_sym Hperm)).
    apply in_seq. lia. }
  set (promptOf := fun u : string * string * Z * bool => snd (fst (fst u))).
  set (F := fun job : BatchJob =>
              if (job_index job =? k)%nat then [] else [entry_text (job_prompt job)]).
  assert (Hjob : forall job, In job (batchJobs st) ->
            map promptOf (jobOutput keys st w img job) = F job).
  { intros job Hin. pose proof Hin as Hin0.
    apply In_nth_error in Hin. destruct Hin as [i Hi].
    rewrite LayoutFacts.batchJobs_nth in Hi.
    destruct (nth_error (editablePrompts st) i) as [e|]; [|discriminate].
    simpl in Hi. injection Hi as <-.
    unfold jobOutput, F. simpl job_index. simpl job_settings. simpl job_prompt.
    destruct (Nat.eqb_spec i k) as [->|Hne].
    - destruct (GenerateFacts.generateMockup_alwaysFails keys (batch_ai w k) img
                  (batchSettings st e k) eq_refl Hfail) as [err ->].
      reflexivity.
    - destruct (Hothers _ Hin0 Hne) as [images Hg]. simpl in Hg. rewrite Hg.
      pose proof (GenerateFacts.generateMockup_single keys (batch_ai w i) img
                    (batchSettings st e i) images eq_refl Hg) as H1.
      destruct images as [|image [|image' images]]; try discriminate.
      reflexivity. }
  assert (Hout : map promptOf (flat_map (jobOutput keys st w img) (batchJobs st)) =
                 map entry_text (without k (editablePrompts st))).
  { rewrite flat_map_concat_map, concat_map, map_map.
    rewrite (map_ext_in _ F _ Hjob), <- flat_map_concat_map.
    unfold batchJobs. rewrite (prompts_without st k F (fun job => eq_refl)).
    simpl. rewrite Nat.sub_0_r. reflexivity. }
  assert (Hwl : List.length (without k (editablePrompts st)) =
                List.length (editablePrompts st) - 1)
    by (apply without_length; exact Hk).
  destruct (runBatch_output st w img Hall) as [_ Hsome].
  destruct Hsome as [flat [Hflat Hun]].
  { intros Hnil. rewrite Hnil in Hout. simpl in Hout.
    apply (f_equal (@List.length _)) in Hout. rewrite length_map, Hwl in Hout.
    simpl in Hout. lia. }
  assert (Hprompts : map prompt flat = map entry_text (without k (editablePrompts st))).
  { rewrite <- Hout, <- Hun, map_map. reflexivity. }
  exists flat. split; [exact Hflat|]. split; [|exact Hprompts].
  rewrite <- (length_map prompt), Hprompts, length_map. exact Hwl.
Qed.

End Machine.

(* ---------------- The claims at work on the examples ---------------- *)

Lemma tally_inj : forall i j, Sample.tally i = Sample.tally j -> i = j.
Proof.
  induction i as [|i IH]; intros [|j] H; simpl in H; try discriminate.
  - reflexivity.
  - injection H as H. f_equal. apply IH. exact H.
Qed.

Lemma sampleUUID_unique : uniqueUUIDs Sample.sampleUUID.
Proof.
  split.
  - intros i j H. unfold Sample.sampleUUID in H. simpl in H.
    injection H as H. apply tally_inj. exact H.
  - intros i. unfold Sample.sampleUUID. simpl. split; discriminate.
Qed.

Lemma Reachable_uploaded :
  Reachable Sample.parseSample Sample.sampleUUID Sample.envKeys Sample.uploaded.
Proof. apply Reachable_step. apply Reachable_init. Qed.

Lemma Reachable_generated :
  Reachable Sample.parseSample Sample.sampleUUID Sample.envKeys Sample.generated.
Proof. apply Reachable_step. apply Reachable_uploaded. Qed.

Lemma order_2031 : Permutation [2; 0; 3; 1] (seq 0 4).
Proof.
  simpl. apply (perm_trans (l' := [0; 2; 3; 1])); [apply perm_swap|].
  apply perm_skip. apply (perm_trans (l' := [2; 1; 3])); [|apply perm_swap].
  apply perm_skip. apply perm_swap.
Qed.

Lemma selections_stay_good_witness :
  goodSelection FrameAuto (selectedFrames Sample.fivePrompts) /\
  goodSelection LightAuto (selectedLighting Sample.fivePrompts) /\
  goodSelection TextureAuto (selectedTextures Sample.fivePrompts).
Proof.
  apply (selections_stay_good Sample.parseSample Sample.sampleUUID Sample.envKeys
           sampleUUID_unique).
  repeat apply Reachable_step. apply Reachable_init.
Defined.

(** The prompt list after an upload holds four entries; a fifth is added
    under a new identifier. *)
Lemma C9_prompt_set_witness :
  1 <= List.length (editablePrompts Sample.uploaded) /\
  exists entry : PromptEntry,
    editablePrompts (addEmptyPrompt Sample.sampleUUID Sample.uploaded) =
    (editablePrompts Sample.uploaded ++ [entry])%list /\
    ~ In (entry_id entry) (map entry_id (editablePrompts Sample.uploaded)).
Proof.
  destruct (C9_prompt_set Sample.parseSample Sample.sampleUUID Sample.envKeys
              sampleUUID_unique Sample.uploaded Reachable_uploaded)
    as [Hsize [_ [_ [entry [Hadd [_ Hfresh]]]]]].
  split; [exact Hsize|]. exists entry. split; [exact Hadd | exact Hfresh].
Defined.

(** Upscaling the draft of job 0 after a batch of four. *)
Lemma C7_upscale_witness :
  exists newResult,
    results (handleUpscale Sample.sampleUUID Sample.envKeys Sample.draft
               (fun _ => Sample.painter) (Sample.clockAt 9) Sample.generated) =
    newResult :: results Sample.generated /\
    prompt newResult = prompt Sample.draft /\
    isHighRes newResult = true /\
    id newResult <> id Sample.draft.
Proof.
  destruct (C7_upscale Sample.parseSample Sample.sampleUUID Sample.envKeys
              sampleUUID_unique Sample.generated Sample.draft
              (fun _ => Sample.painter) (Sample.clockAt 9) Sample.jpeg
              ["data:image/png;base64,iVBORw0KGgo="]
              Reachable_generated (or_introl eq_refl) eq_refl eq_refl)
    as [_ [newResult [Hstore [Hprompt [Hflag [_ [Hid _]]]]]]].
  exists newResult. repeat split; assumption.
Defined.

(** A batch of four in which every call paints. *)
Lemma C6_batch_outcome_witness :
  exists flat : list MockupResult,
    fst (runBatch Sample.sampleUUID Sample.envKeys Sample.uploaded Sample.paintAll
           Sample.jpeg) = Resolved flat /\
    NoDup (map id flat) /\
    results (handleGenerateBatch Sample.sampleUUID Sample.envKeys Sample.paintAll
               Sample.uploaded) = (flat ++ results Sample.uploaded)%list.
Proof.
  destruct (C6_batch_outcome Sample.parseSample Sample.sampleUUID Sample.envKeys
              sampleUUID_unique Sample.uploaded Sample.paintAll Sample.jpeg
              Reachable_uploaded eq_refl order_2031) as [_ Hsome].
  destruct Hsome as [flat [Hflat [_ [_ [Hnd [_ Hstore]]]]]].
  - exists (mkBatchJob 0 0%Z
              (mkPromptEntry (Sample.sampleUUID 0)
                 "A modern gallery wall with spot lighting" false)
              (batchSettings Sample.uploaded
                 (mkPromptEntry (Sample.sampleUUID 0)
                    "A modern gallery wall with spot lighting" false) 0)).
    split; [left; reflexivity|].
    exists ["data:image/png;base64,iVBORw0KGgo="]. reflexivity.
  - exists flat. repeat split; assumption.
Defined.

(** A batch of four in which the call of job 1 is refused. *)
Lemma C5_one_job_fails_witness :
  exists flat : list MockupResult,
    fst (runBatch Sample.sampleUUID Sample.envKeys Sample.uploaded Sample.oneRefused
           Sample.jpeg) = Resolved flat /\
    List.length flat = 3 /\
    map prompt flat =
    [ "A modern gallery wall with spot lighting";
      "A professional office space with sleek furniture";
      "An industrial loft with exposed brick" ].
Proof.
  refine (C5_one_job_fails Sample.sampleUUID Sample.envKeys Sample.uploaded
            Sample.oneRefused Sample.jpeg 1 _ _ order_2031 _ _).
  - simpl. lia.
  - simpl. lia.
  - intros req attempt. exists Sample.denied. reflexivity.
  - intros job Hin Hne. simpl in Hin.
    destruct Hin as [<-|[<-|[<-|[<-|[]]]]];
      try (exists ["data:image/png;base64,iVBORw0KGgo="]; reflexivity).
    exfalso. apply Hne. reflexivity.
Defined.

(** C5 as stated fails for a batch of one: the job that fails is then
    every job, and the batch throws. *)
Lemma C5_counterexample :
  List.length (editablePrompts Sample.lonely) = 1 /\
  alwaysFails (batch_ai Sample.allRefused 0 0) /\
  fst (runBatch Sample.sampleUUID Sample.envKeys Sample.lonely Sample.allRefused
         Sample.jpeg) = Rejected batchEmpty /\
  alerts (handleGenerateBatch Sample.sampleUUID Sample.envKeys Sample.allRefused
            Sample.lonely) = ["Batch generation encountered errors."].
Proof.
  split; [reflexivity|]. split; [|split; reflexivity].
  intros req attempt. exists Sample.denied. reflexivity.
Qed.

End StateFacts.

(* ================================================================== *)
(** * Trimming and the API key                                          *)
(* ================================================================== *)

Module KeyFacts.
Import Js Gemini Storage Connect.

Lemma string_length_ind (P : string -> Prop) :
  (forall s, (forall t, String.length t < String.length s -> P t) -> P s) ->
  forall s, P s.
Proof.
  intros H s.
  assert (Hn : forall n t, String.length t < n -> P t).
  { induction n as [|n IH]; intros t Ht; [lia|].
    apply H. intros u Hu. apply IH. lia. }
  apply (Hn (S (String.length s))). lia.
Qed.

Lemma append_nil_r (s : string) : s ++ "" = s.
Proof. induction s as [|c s IH]; simpl; [|rewrite IH]; reflexivity. Qed.

Lemma append_length (a b : string) :
  String.length (a ++ b) = String.length a + String.length b.
Proof. induction a as [|c a IH]; simpl; [|rewrite IH]; reflexivity. Qed.

Lemma rev_append (a b : string) : rev (a ++ b) = rev b ++ rev a.
Proof.
  induction a as [|c a IH]; simpl.
  - rewrite append_nil_r. reflexivity.
  - rewrite IH, PromptFacts.append_assoc. reflexivity.
Qed.

Lemma rev_involutive (s : string) : rev (rev s) = s.
Proof.
  induction s as [|c s IH]; simpl; [reflexivity|].
  rewrite rev_append, IH. reflexivity.
Qed.

(** One step of a scan from the start: the string is kept, or a non-empty
    run is dropped and the scan goes on behind it. *)
Lemma trimStart_step (s : string) :
  trimStart s = s \/
  exists w t, s = w ++ t /\ w <> "" /\ trimStart s = trimStart t.
Proof.
  destruct s as [|c1 [|c2 [|c3 s3]]]; simpl.
  - left. reflexivity.
  - destruct (isSpace1 c1); [right|left; reflexivity].
    exists (String c1 ""), "". repeat split. discriminate.
  - destruct (isSpace1 c1).
    + right. exists (String c1 ""), (String c2 ""). repeat split. discriminate.
    + destruct (isSpace2 c1 c2); [right|left; reflexivity].
      exists (String c1 (String c2 "")), "". repeat split. discriminate.
  - destruct (isSpace1 c1).
    + right. exists (String c1 ""), (String c2 (String c3 s3)).
      repeat split. discriminate.
    + destruct (isSpace2 c1 c2).
      * right. exists (String c1 (String c2 "")), (String c3 s3).
        repeat split. discriminate.
      * destruct (isSpace3 c1 c2 c3); [right|left; reflexivity].
        exists (String c1 (String c2 (String c3 ""))), s3.
        repeat split. discriminate.
Qed.

Lemma trimStartRev_step (s : string) :
  trimStartRev s = s \/
  exists w t, s = w ++ t /\ w <> "" /\ trimStartRev s = trimStartRev t.
Proof.
  destruct s as [|c1 [|c2 [|c3 s3]]]; simpl.
  - left. reflexivity.
  - destruct (isSpace1 c1); [right|left; reflexivity].
    exists (String c1 ""), "". repeat split. discriminate.
  - destruct (isSpace1 c1).
    + right. exists (String c1 ""), (String c2 ""). repeat split. discriminate.
    + destruct (isSpace2 c2 c1); [right|left; reflexivity].
      exists (String c1 (String c2 "")), "". repeat split. discriminate.
  - destruct (isSpace1 c1).
    + right. exists (String c1 ""), (String c2 (String c3 s3)).
      repeat split. discriminate.
    + destruct (isSpace2 c2 c1).
      * right. exists (String c1 (String c2 "")), (String c3 s3).
        repeat split. discriminate.
      * destruct (isSpace3 c3 c2 c1); [right|left; reflexivity].
        exists (String c1 (String c2 (String c3 ""))), s3.
        repeat split. discriminate.
Qed.

Lemma nonempty_length (w : string) : w <> "" -> 0 < String.length w.
Proof. destruct w; [congruence | simpl; lia]. Qed.

(** What a scan keeps is the end of the string. *)
Lemma trimStart_suffix (s : string) : exists v, s = v ++ trimStart s.
Proof.
  induction s as [s IH] using string_length_ind.
  destruct (trimStart_step s) as [H|[w [t [Hs [Hw H]]]]].
  - exists "". rewrite H. reflexivity.
  - destruct (IH t) as [v Hv].
    { rewrite Hs, append_length. pose proof (nonempty_length w Hw). lia. }
    exists (w ++ v). rewrite H, PromptFacts.append_assoc, <- Hv. exact Hs.
Qed.

Lemma trimStartRev_suffix (s : string) : exists v, s = v ++ trimStartRev s.
Proof.
  induction s as [s IH] using string_length_ind.
  destruct (trimStartRev_step s) as [H|[w [t [Hs [Hw H]]]]].
  - exists "". rewrite H. reflexivity.
  - destruct (IH t) as [v Hv].
    { rewrite Hs, append_length. pose proof (nonempty_length w Hw). lia. }
    exists (w ++ v). rewrite H, PromptFacts.append_assoc, <- Hv. exact Hs.
Qed.

Lemma trimStart_idempotent (s : string) : trimStart (trimStart s) = trimStart s.
Proof.
  induction s as [s IH] using string_length_ind.
  destruct (trimStart_step s) as [H|[w [t [Hs [Hw H]]]]].
  - rewrite H. exact H.
  - rewrite H. apply IH.
    rewrite Hs, append_length. pose proof (nonempty_length w Hw). lia.
Qed.

Lemma trimStartRev_idempotent (s : string) :
  trimStartRev (trimStartRev s) = trimStartRev s.
Proof.
  induction s as [s IH] using string_length_ind.
  destruct (trimStartRev_step s) as [H|[w [t [Hs [Hw H]]]]].
  - rewrite H. exact H.
  - rewrite H. apply IH.
    rewrite Hs, append_length. pose proof (nonempty_length w Hw). lia.
Qed.

Lemma trimStart_length (s : string) :
  String.length (trimStart s) <= String.length s.
Proof.
  destruct (trimStart_suffix s) as [v Hv].
  rewrite Hv at 2. rewrite append_length. lia.
Qed.

(** What [trimEnd] keeps is the start of the string. *)
Lemma trimEnd_prefix (s : string) : exists u, s = trimEnd s ++ u.
Proof.
  unfold trimEnd. destruct (trimStartRev_suffix (rev s)) as [v Hv].
  exists (rev v). rewrite <- rev_append, <- Hv, rev_involutive. reflexivity.
Qed.

Lemma trimEnd_idempotent (s : string) : trimEnd (trimEnd s) = trimEnd s.
Proof.
  unfold trimEnd. rewrite rev_involutive, trimStartRev_idempotent. reflexivity.
Qed.

(** The start of a string with no leading white space has none. *)
Lemma trimStart_fixed_prefix (p u : string) :
  trimStart (p ++ u) = p ++ u -> trimStart p = p.
Proof.
  intros H.
  assert (Hshort : forall t, String.length t < String.length (p ++ u) ->
                     trimStart t <> p ++ u).
  { intros t Ht Heq. pose proof (trimStart_length t) as Hl.
    rewrite Heq in Hl. lia. }
  destruct p as [|c1 p1]; [reflexivity|].
  simpl in H. simpl.
  destruct (isSpace1 c1).
  { exfalso. apply (Hshort (p1 ++ u)); [simpl; lia | exact H]. }
  destruct p1 as [|c2 p2]; [reflexivity|].
  simpl in H.
  destruct (isSpace2 c1 c2).
  { exfalso. apply (Hshort (p2 ++ u)); [simpl; lia | exact H]. }
  destruct p2 as [|c3 p3]; [reflexivity|].
  simpl in H.
  destruct (isSpace3 c1 c2 c3); [|reflexivity].
  exfalso. apply (Hshort (p3 ++ u)); [simpl; lia | exact H].
Qed.

Lemma trim_idempotent (s : string) : trim (trim s) = trim s.
Proof.
  unfold trim.
  assert (H : trimStart (trimEnd (trimStart s)) = trimEnd (trimStart s)).
  { destruct (trimEnd_prefix (trimStart s)) as [u Hu].
    apply (trimStart_fixed_prefix _ u). rewrite <- Hu.
    apply trimStart_idempotent. }
  rewrite H. apply trimEnd_idempotent.
Qed.

(** A key that [normalizeApiKey] returns is not empty, is not the
    placeholder, carries no white space at either end, and is returned as
    it is when normalised again. *)
Lemma normalizeApiKey_fixed (key : option string) (n : string) :
  normalizeApiKey key = Some n ->
  n <> "" /\ n <> "your_gemini_api_key_here" /\ trim n = n /\
  normalizeApiKey (Some n) = Some n.
Proof.
  unfold normalizeApiKey at 1. destruct key as [k|]; [|discriminate].
  destruct (truthy k); [|discriminate]. simpl negb. cbn iota.
  destruct (truthy (trim k)) eqn:Ht; [|discriminate]. simpl negb. simpl orb.
  destruct (String.eqb_spec (trim k) "your_gemini_api_key_here") as [Hp|Hp];
    [discriminate|].
  intros H. injection H as <-.
  assert (Hne : trim k <> "") by (intros E; rewrite E in Ht; discriminate).
  split; [exact Hne|]. split; [exact Hp|]. split; [apply trim_idempotent|].
  unfold normalizeApiKey. rewrite Ht, trim_idempotent, Ht. simpl.
  destruct (String.eqb_spec (trim k) "your_gemini_api_key_here");
    [contradiction | reflexivity].
Qed.

(** [normalizeApiKey] is idempotent; it never returns the empty string or
    the placeholder, and what it returns is trimmed. *)
Theorem normalizeApiKey_idempotent :
  forall key : option string,
    normalizeApiKey (normalizeApiKey key) = normalizeApiKey key /\
    normalizeApiKey key <> Some "" /\
    normalizeApiKey key <> Some "your_gemini_api_key_here" /\
    (forall n, normalizeApiKey key = Some n -> trim n = n).
Proof.
  intros key.
  destruct (normalizeApiKey key) as [n|] eqn:Hn.
  - destruct (normalizeApiKey_fixed key n Hn) as (H1 & H2 & H3 & H4).
    split; [exact H4|]. split; [congruence|]. split; [congruence|].
    intros m Hm. injection Hm as <-. exact H3.
  - split; [reflexivity|]. split; [discriminate|]. split; [discriminate|].
    intros m Hm. discriminate.
Qed.

Lemma getApiKey_normalized (k : KeySources) (n : string) :
  getApiKey k = Some n -> normalizeApiKey (Some n) = Some n.
Proof.
  unfold getApiKey, getEnvApiKey.
  destruct (normalizeApiKey (orUndefined (env_API_KEY k) (env_GEMINI_API_KEY k)))
    as [e|] eqn:He.
  - intros H. injection H as <-. apply (normalizeApiKey_fixed _ _ He).
  - destruct (normalizeApiKey (aistudio_getApiKey k)) as [a|] eqn:Ha.
    + intros H. injection H as <-. apply (normalizeApiKey_fixed _ _ Ha).
    + destruct (normalizeApiKey (localStorage_gemini_api_key k)) as [l|] eqn:Hl;
        [|discriminate].
      intros H. injection H as <-. apply (normalizeApiKey_fixed _ _ Hl).
Qed.

(** Reading back what [setApiKey] and [clearApiKey] leave in local
    storage: a key from the environment or from AI Studio still comes
    first; behind them [getApiKey] returns the key just set, normalised,
    and nothing after a clear or after setting a blank or placeholder
    key. *)
Theorem stored_key_round_trip :
  forall (key : string) (k : KeySources),
    getApiKey (setApiKey key k) =
      match getEnvApiKey k with
      | Some envKey => Some envKey
      | None =>
          match normalizeApiKey (aistudio_getApiKey k) with
          | Some studioKey => Some studioKey
          | None => normalizeApiKey (Some key)
          end
      end /\
    getApiKey (clearApiKey k) =
      match getEnvApiKey k with
      | Some envKey => Some envKey
      | None => normalizeApiKey (aistudio_getApiKey k)
      end /\
    getApiKey (clearApiKey (setApiKey key k)) = getApiKey (clearApiKey k) /\
    localStorage_gemini_api_key (setApiKey key k) = normalizeApiKey (Some key).
Proof.
  intros key k. unfold setApiKey, clearApiKey.
  assert (Hget : forall v,
            getApiKey (mkKeySources (env_API_KEY k) (env_GEMINI_API_KEY k)
                         (aistudio_getApiKey k) v) =
            match getEnvApiKey k with
            | Some envKey => Some envKey
            | None =>
                match normalizeApiKey (aistudio_getApiKey k) with
                | Some studioKey => Some studioKey
                | None => normalizeApiKey v
                end
            end).
  { intros v. unfold getApiKey, getEnvApiKey.
    cbn [env_API_KEY env_GEMINI_API_KEY aistudio_getApiKey
         localStorage_gemini_api_key].
    destruct (normalizeApiKey (orUndefined (env_API_KEY k) (env_GEMINI_API_KEY k)));
      [reflexivity|].
    destruct (normalizeApiKey (aistudio_getApiKey k)); [reflexivity|].
    destruct (normalizeApiKey v); reflexivity. }
  destruct (normalizeApiKey (Some key)) as [n|] eqn:Hn; unfold setItem, removeItem;
    cbn [env_API_KEY env_GEMINI_API_KEY aistudio_getApiKey
         localStorage_gemini_api_key]; rewrite !Hget.
  - destruct (normalizeApiKey_fixed _ _ Hn) as (_ & _ & _ & Hfix).
    rewrite Hfix. repeat split.
    destruct (getEnvApiKey k); [reflexivity|].
    destruct (normalizeApiKey (aistudio_getApiKey k)); reflexivity.
  - repeat split.
    destruct (getEnvApiKey k); [reflexivity|].
    destruct (normalizeApiKey (aistudio_getApiKey k)); reflexivity.
Qed.

(** The gate and the use agree apart from AI Studio: when [checkApiKey]
    answers yes and the host reports no selected key, [getApiKey] finds a
    key; when [getApiKey] finds a key that does not come from the host,
    [checkApiKey] answers yes. *)
Theorem checkApiKey_agrees :
  forall (k : KeySources) (host : StudioHost),
    (checkApiKey k host = true -> hasSelectedApiKey host <> Some true ->
       getApiKey k <> None) /\
    (getApiKey k <> None -> normalizeApiKey (aistudio_getApiKey k) = None ->
       checkApiKey k host = true).
Proof.
  intros k host. unfold checkApiKey, getApiKey. split.
  - intros Hc Hh. destruct (getEnvApiKey k); [discriminate|].
    destruct (hasSelectedApiKey host) as [[|]|]; try congruence;
      destruct (normalizeApiKey (localStorage_gemini_api_key k)); try discriminate;
      destruct (normalizeApiKey (aistudio_getApiKey k)); discriminate.
  - intros Hg Ha. destruct (getEnvApiKey k); [reflexivity|].
    rewrite Ha in Hg.
    destruct (normalizeApiKey (localStorage_gemini_api_key k)); [|congruence].
    destruct (hasSelectedApiKey host) as [[|]|]; reflexivity.
Qed.

Lemma checkApiKey_agrees_witness :
  getApiKey (setApiKey "  AIzaSyExampleExampleExample " Sample.noKeys) <> None.
Proof.
  apply (proj1 (checkApiKey_agrees
                  (setApiKey "  AIzaSyExampleExampleExample " Sample.noKeys)
                  Sample.standalone)).
  - reflexivity.
  - discriminate.
Defined.

(** [handleConnect] on the manual key screen (no key in the environment).
    A key that is, once trimmed, not the placeholder and at least 10 code
    units long is stored trimmed, the screen is left ([hasKey]), the input
    and the error are cleared, and [checkApiKey] then answers yes. Any
    other input changes neither the storage nor [hasKey] and sets an
    error text. The text "Failed to validate API key." is never set. *)
Theorem handleConnect_manual :
  forall (host hostAfter : StudioHost) (sc : KeyScreen) (k : KeySources),
    hasEnvKey sc = false ->
    let sc' := fst (handleConnect host hostAfter sc k) in
    let k' := snd (handleConnect host hostAfter sc k) in
    (forall n,
       normalizeApiKey (Some (apiKeyInput sc)) = Some n -> 10 <= jsLength n ->
       hasKey sc' = true /\ apiKeyInput sc' = "" /\ keyError sc' = "" /\
       localStorage_gemini_api_key k' = Some n /\
       checkApiKey k' host = true) /\
    ((normalizeApiKey (Some (apiKeyInput sc)) = None \/
      exists n, normalizeApiKey (Some (apiKeyInput sc)) = Some n /\ jsLength n < 10) ->
       k' = k /\ hasKey sc' = hasKey sc /\ apiKeyInput sc' = apiKeyInput sc /\
       keyError sc' <> "") /\
    keyError sc' <> "Failed to validate API key. Please check and try again." /\
    shown sc' = shown sc.
Proof.
  intros host hostAfter sc k Henv sc' k'. subst sc' k'.
  unfold handleConnect. rewrite Henv.
  assert (Hcheck : forall n, normalizeApiKey (Some n) = Some n ->
                     checkApiKey (setApiKey n k) host = true /\
                     localStorage_gemini_api_key (setApiKey n k) = Some n).
  { intros n Hn. unfold setApiKey. rewrite Hn.
    unfold checkApiKey, getEnvApiKey, setItem.
    cbn [env_API_KEY env_GEMINI_API_KEY aistudio_getApiKey
         localStorage_gemini_api_key].
    rewrite Hn. split; [|reflexivity].
    destruct (normalizeApiKey (orUndefined (env_API_KEY k) (env_GEMINI_API_KEY k)));
      [reflexivity|].
    destruct (hasSelectedApiKey host) as [[|]|]; reflexivity. }
  unfold validateApiKey.
  destruct (normalizeApiKey (Some (apiKeyInput sc))) as [n|] eqn:Hn.
  - destruct (normalizeApiKey_fixed _ _ Hn) as (_ & _ & _ & Hfix).
    destruct (Hcheck n Hfix) as [Hc Hs].
    destruct (Nat.ltb_spec (jsLength n) 10) as [Hlt|Hge]; simpl.
    + split; [intros m Hm Hlen; injection Hm as <-; lia|].
      split; [intros _; repeat split; discriminate|].
      split; [discriminate | reflexivity].
    + rewrite Hc. simpl.
      split; [intros m Hm Hlen; injection Hm as <-; repeat split; assumption|].
      split; [intros [H|[m [Hm Hlen]]]; [discriminate | injection Hm as <-; lia]|].
      split; [discriminate | reflexivity].
  - simpl.
    split; [intros m Hm; discriminate|].
    split; [intros _; repeat split; destruct (truthy (trim (apiKeyInput sc)));
            discriminate|].
    split; [destruct (truthy (trim (apiKeyInput sc))); discriminate | reflexivity].
Qed.

(** A key typed between blanks on the manual key screen. *)
Lemma handleConnect_manual_witness :
  hasKey (fst (handleConnect Sample.standalone Sample.standalone Sample.typedKey
                 Sample.noKeys)) = true /\
  getApiKey (snd (handleConnect Sample.standalone Sample.standalone Sample.typedKey
                    Sample.noKeys)) = Some "AIzaSyExampleExampleExample".
Proof.
  destruct (proj1 (handleConnect_manual Sample.standalone Sample.standalone
                     Sample.typedKey Sample.noKeys eq_refl)
              "AIzaSyExampleExampleExample" eq_refl)
    as [Hkey _].
  - simpl. lia.
  - split; [exact Hkey | reflexivity].
Defined.

End KeyFacts.

(* ================================================================== *)
(** * Retry policy: what a run can be                                   *)
(* ================================================================== *)

Module RetryRuns.
Import Retry Spec.

Section Loop.
Context {T : Type}.
Variable fn : nat -> Outcome T.
Variables retries baseDelay : Z.

(** From index [i] with [remaining] indices left below [retries], a run
    is a number of transient failures followed by the attempt that settles
    it; it waited the backoff delays of those failures and nothing else. *)
Lemma loop_shape : forall remaining i,
  Z.of_nat (i + remaining) = retries ->
  0 < remaining ->
  exists k,
    k < remaining /\
    (forall j, j < k -> exists e, fn (i + j) = Rejected e /\ isTransient e = true) /\
    loop fn retries baseDelay remaining i =
      mkRun (fn (i + k)) (S k) (backoffFrom baseDelay i k) /\
    match fn (i + k) with
    | Resolved _ => True
    | Rejected e => isTransient e = false \/ S k = remaining
    end.
Proof.
  induction remaining as [|r IH]; intros i Hinv Hpos; [lia|].
  simpl loop. destruct (fn i) as [v|e] eqn:Hfn.
  - exists 0. rewrite Nat.add_0_r, Hfn. repeat split; [lia | intros j Hj; lia].
  - destruct (isTransient e) eqn:Ht; simpl negb; simpl orb.
    + destruct (Z.eqb_spec (Z.of_nat i) (retries - 1)) as [Hlast|Hnot].
      * exists 0. rewrite Nat.add_0_r, Hfn.
        repeat split; [lia | intros j Hj; lia | right; lia].
      * destruct (IH (S i)) as [k [Hk [Hfail [Hrun Hstop]]]]; [lia | lia |].
        exists (S k). replace (i + S k) with (S i + k) by lia.
        split; [lia|]. split; [|split].
        -- intros [|j] Hj.
           ++ exists e. rewrite Nat.add_0_r. split; assumption.
           ++ replace (i + S j) with (S i + j) by lia. apply Hfail. lia.
        -- rewrite Hrun. reflexivity.
        -- destruct (fn (S i + k)); [exact I|].
           destruct Hstop as [Hs|Hs]; [left; exact Hs | right; lia].
    + exists 0. rewrite Nat.add_0_r, Hfn.
      repeat split; [lia | intros j Hj; lia | left; exact Ht].
Qed.

End Loop.

Lemma backoff_sum (baseDelay : Z) (i k : nat) :
  fold_right Z.add 0%Z (backoffFrom baseDelay i k) =
  (baseDelay * 2 ^ Z.of_nat i * (2 ^ Z.of_nat k - 1))%Z.
Proof.
  revert i. induction k as [|k IH]; intros i; unfold backoffFrom in *.
  - simpl. lia.
  - cbn [seq map fold_right]. rewrite IH.
    rewrite !Nat2Z.inj_succ, !Z.pow_succ_r by lia. lia.
Qed.

(** Every run of [retry] with one attempt or more: attempts [0 .. k-1]
    failed with a transient error, attempt [k] settled the run, which made
    [k + 1] calls and waited the [k] backoff delays. *)
Lemma retry_shape {T : Type} (fn : nat -> Outcome T) (retries baseDelay : Z) :
  (1 <= retries)%Z ->
  exists k,
    (Z.of_nat k < retries)%Z /\
    transientUntil fn k /\
    retry fn retries baseDelay = mkRun (fn k) (S k) (backoff baseDelay k) /\
    match fn k with
    | Resolved _ => True
    | Rejected e => isTransient e = false \/ Z.of_nat k = (retries - 1)%Z
    end.
Proof.
  intros Hr.
  destruct (loop_shape fn retries baseDelay (Z.to_nat retries) 0)
    as [k [Hk [Hfail [Hrun Hstop]]]]; [simpl; lia | lia |].
  exists k. simpl in *. split; [lia|]. split; [exact Hfail|]. split; [exact Hrun|].
  destruct (fn k); [exact I|]. destruct Hstop as [H|H]; [left; exact H | right; lia].
Qed.

(** The delays of a run are the first backoff delays: with [c] calls the
    run waited [baseDelay * (2^(c-1) - 1)] in all. With a delay that is
    not negative this is at most [baseDelay * (2^(retries-1) - 1)], and
    under the default arguments at most 3 calls and 6000 ms. *)
Theorem retry_total_delay :
  forall (T : Type) (fn : nat -> Outcome T) (retries baseDelay : Z),
    let r := retry fn retries baseDelay in
    waits r = backoff baseDelay (calls r - 1) /\
    totalDelay r = (baseDelay * (2 ^ Z.of_nat (calls r - 1) - 1))%Z /\
    ((0 <= baseDelay)%Z -> (1 <= retries)%Z ->
       (0 <= totalDelay r <= baseDelay * (2 ^ (retries - 1) - 1))%Z) /\
    (calls (retryDefault fn) <= 3 /\
     (0 <= totalDelay (retryDefault fn) <= 6000)%Z).
Proof.
  intros T fn retries baseDelay r.
  assert (Hshape : forall n b, waits (retry fn n b) = backoff b (calls (retry fn n b) - 1)).
  { intros n b. destruct (Z_le_gt_dec 1 n) as [Hn|Hn].
    - destruct (retry_shape fn n b Hn) as [k [_ [_ [Hrun _]]]].
      rewrite Hrun. simpl. rewrite Nat.sub_0_r. reflexivity.
    - rewrite (RetryFacts.retry_nonpositive fn n b) by lia. reflexivity. }
  assert (Htotal : forall n b,
            totalDelay (retry fn n b) =
            (b * (2 ^ Z.of_nat (calls (retry fn n b) - 1) - 1))%Z).
  { intros n b. unfold totalDelay. rewrite Hshape. unfold backoff.
    rewrite backoff_sum. simpl Z.of_nat. lia. }
  assert (Hbound : forall n b, (0 <= b)%Z -> (1 <= n)%Z ->
            (0 <= totalDelay (retry fn n b) <= b * (2 ^ (n - 1) - 1))%Z).
  { intros n b Hb Hn. rewrite Htotal.
    pose proof (RetryFacts.retry_calls_le fn n b) as Hc.
    assert (Hle : (Z.of_nat (calls (retry fn n b) - 1) <= n - 1)%Z) by lia.
    assert (Hpow : (2 ^ Z.of_nat (calls (retry fn n b) - 1) <= 2 ^ (n - 1))%Z)
      by (apply Z.pow_le_mono_r; lia).
    assert (Hpos : (1 <= 2 ^ Z.of_nat (calls (retry fn n b) - 1))%Z)
      by (apply Z.lt_pred_le, Z.pow_pos_nonneg; lia).
    split; nia. }
  subst r. split; [apply Hshape|]. split; [apply Htotal|]. split; [apply Hbound|].
  unfold retryDefault. split.
  - pose proof (RetryFacts.retry_calls_le fn 3 2000). lia.
  - pose proof (Hbound 3%Z 2000%Z ltac:(lia) ltac:(lia)) as H.
    change (2000 * (2 ^ (3 - 1) - 1))%Z with 6000%Z in H. exact H.
Qed.

(** Three busy answers under the default arguments: 2000 + 4000 ms. *)
Lemma retry_total_delay_witness :
  (0 <= totalDelay (retry Sample.alwaysBusy 3 2000) <= 2000 * (2 ^ (3 - 1) - 1))%Z.
Proof.
  apply (proj1 (proj2 (proj2 (retry_total_delay nat Sample.alwaysBusy 3 2000)))); lia.
Defined.

(** What the outcome of a run tells. A value comes from the attempt that
    ended the run, after transient failures only. An error is "Max retries
    reached" when there was no attempt to make, and otherwise the error of
    the attempt that ended the run: a terminal error, or the error of the
    last attempt allowed. *)
Theorem retry_outcome :
  forall (T : Type) (fn : nat -> Outcome T) (retries baseDelay : Z),
    let r := retry fn retries baseDelay in
    (forall v, result r = Resolved v ->
       exists k, (Z.of_nat k < retries)%Z /\ transientUntil fn k /\
                 fn k = Resolved v /\ calls r = S k) /\
    (forall e, result r = Rejected e ->
       ((retries <= 0)%Z /\ e = Error "Max retries reached" /\ calls r = 0) \/
       exists k, (Z.of_nat k < retries)%Z /\ transientUntil fn k /\
                 fn k = Rejected e /\ calls r = S k /\
                 (isTransient e = false \/ Z.of_nat k = (retries - 1)%Z)).
Proof.
  intros T fn retries baseDelay r. subst r.
  destruct (Z_le_gt_dec 1 retries) as [Hn|Hn].
  - destruct (retry_shape fn retries baseDelay Hn) as [k [Hk [Hfail [Hrun Hstop]]]].
    rewrite Hrun. simpl. split.
    + intros v Hv. exists k. repeat split; assumption.
    + intros e He. right. exists k. rewrite He in Hstop.
      repeat split; assumption.
  - rewrite (RetryFacts.retry_nonpositive fn retries baseDelay) by lia. simpl.
    split; [intros v Hv; discriminate|].
    intros e He. injection He as <-. left. repeat split. lia.
Qed.

(** The value 7 of [Sample.flaky] comes from its third attempt. *)
Lemma retry_outcome_witness :
  exists k, (Z.of_nat k < 3)%Z /\ transientUntil Sample.flaky k /\
            Sample.flaky k = Resolved 7 /\
            calls (retry Sample.flaky 3 100) = S k.
Proof.
  apply (proj1 (retry_outcome nat Sample.flaky 3 100) 7). reflexivity.
Defined.

End RetryRuns.

(* ================================================================== *)
(** * generateMockup: slots, retries and the image payload              *)
(* ================================================================== *)

Module SlotFacts.
Import Js Retry Gemini Spec.

Lemma In_nonNull {A : Type} (a : A) (l : list (option A)) :
  In a (nonNull l) <-> In (Some a) l.
Proof.
  induction l as [|[b|] l IH]; simpl.
  - tauto.
  - rewrite IH. split; intros [H|H]; auto; left; congruence.
  - rewrite IH. split; [auto | intros [H|H]; [discriminate | exact H]].
Qed.

Lemma nonNull_nil {A : Type} (l : list (option A)) :
  nonNull l = [] <-> (forall o, In o l -> o = None).
Proof.
  induction l as [|[b|] l IH]; simpl.
  - split; [intros _ o [] | reflexivity].
  - split; [discriminate|]. intros H. specialize (H (Some b) (or_introl eq_refl)).
    discriminate.
  - rewrite IH. split.
    + intros H o [<-|Ho]; [reflexivity | apply H, Ho].
    + intros H o Ho. apply H. right. exact Ho.
Qed.

(** With a key, [generateMockup] returns exactly the images its slots
    produced: an image is returned if and only if one of the
    [settings.count] slots produced it, and the call is rejected with "No
    images were generated..." if and only if every slot came back empty. A
    slot that fails costs its own image and nothing else. *)
Theorem generateMockup_collects_slots :
  forall (keys : KeySources) (ai : nat -> Remote) (base64Image : string)
         (settings : GenerationSettings),
    getApiKey keys <> None ->
    (forall url,
       (exists images,
          generateMockup keys ai base64Image settings = Resolved images /\
          In url images) <->
       (exists index, index < count settings /\
          generateSlot (ai index) base64Image settings = Some url)) /\
    (generateMockup keys ai base64Image settings = Rejected noImages <->
     (forall index, index < count settings ->
        generateSlot (ai index) base64Image settings = None)).
Proof.
  intros keys ai img settings Hkey.
  unfold generateMockup.
  destruct (getApiKey keys) as [key|]; [clear Hkey | congruence].
  set (results := map (fun index => generateSlot (ai index) img settings)
                      (seq 0 (count settings))).
  assert (Hin : forall o, In o results <->
            exists index, index < count settings /\
                          generateSlot (ai index) img settings = o).
  { intros o. unfold results. rewrite in_map_iff. split.
    - intros [index [Ho Hi]]. apply in_seq in Hi. exists index. split; [lia | exact Ho].
    - intros [index [Hi Ho]]. exists index. split; [exact Ho | apply in_seq; lia]. }
  cbv zeta. split.
  - intros url. split.
    + intros [images [Hres Hurl]].
      destruct (List.length (nonNull results) =? 0)%nat; [discriminate|].
      injection Hres as <-. apply In_nonNull in Hurl. apply Hin, Hurl.
    + intros Hslot. apply Hin, In_nonNull in Hslot.
      destruct (nonNull results) as [|a l] eqn:Hn; [destruct Hslot|].
      exists (a :: l). split; [reflexivity | exact Hslot].
  - split.
    + intros Hres index Hi.
      destruct (nonNull results) as [|a l] eqn:Hn; [|discriminate].
      apply (proj1 (nonNull_nil results) Hn). apply Hin. exists index. split; [exact Hi | reflexivity].
    + intros Hnone.
      assert (Hn : nonNull results = []).
      { apply nonNull_nil. intros o Ho. apply Hin in Ho.
        destruct Ho as [index [Hi <-]]. apply Hnone, Hi. }
      rewrite Hn. reflexivity.
Qed.

(** Two slots, the first refused: the image of the second is returned. *)
Lemma generateMockup_collects_slots_witness :
  exists images,
    generateMockup Sample.envKeys Sample.secondPaints Sample.jpeg Sample.twoImages
      = Resolved images /\
    In "data:image/png;base64,iVBORw0KGgo=" images.
Proof.
  apply (proj1 (generateMockup_collects_slots Sample.envKeys Sample.secondPaints
                  Sample.jpeg Sample.twoImages ltac:(discriminate)))%string.
  exists 1. split; [simpl; lia | reflexivity].
Defined.

(** One slot under the default retry policy: it survives two transient
    failures of its call and reads the image of the answer that follows; a
    third transient failure, or a failure that is not transient, leaves
    the slot empty. In no case does the error leave the slot. *)
Theorem generateSlot_tolerance :
  forall (ai : Remote) (base64Image : string) (settings : GenerationSettings),
    let attempt := ai (generationRequest base64Image settings) in
    (forall k response,
       k <= 2 -> transientUntil attempt k -> attempt k = Resolved response ->
       generateSlot ai base64Image settings = imageOfResponse response) /\
    (forall k e,
       k <= 2 -> transientUntil attempt k -> attempt k = Rejected e ->
       isTransient e = false ->
       generateSlot ai base64Image settings = None) /\
    (transientUntil attempt 3 -> generateSlot ai base64Image settings = None).
Proof.
  intros ai img settings attempt. unfold generateSlot, retryDefault.
  fold attempt. split; [|split].
  - intros k response Hk Hfail Hok.
    rewrite (RetryFacts.retry_settles_at attempt 3 2000 k (Resolved response));
      [reflexivity | lia | exact Hfail | exact Hok | exact I].
  - intros k e Hk Hfail Herr Ht.
    rewrite (RetryFacts.retry_settles_at attempt 3 2000 k (Rejected e));
      [reflexivity | lia | exact Hfail | exact Herr | left; exact Ht].
  - intros Hfail.
    destruct (Hfail 2 ltac:(lia)) as [e [He Ht]].
    rewrite (RetryFacts.retry_settles_at attempt 3 2000 2 (Rejected e));
      [reflexivity | lia | | exact He | right; reflexivity].
    intros j Hj. apply Hfail. lia.
Qed.

(** Busy twice, then an image: the slot returns it. *)
Lemma generateSlot_tolerance_witness :
  generateSlot Sample.busyTwice Sample.jpeg Sample.twoImages =
  Some "data:image/png;base64,iVBORw0KGgo=".
Proof.
  apply (proj1 (generateSlot_tolerance Sample.busyTwice Sample.jpeg Sample.twoImages)
           2 (mkResponse None
                (Some [mkCandidate (Some (mkContent (Some
                   [mkPart (Some (mkInlineData (Some "iVBORw0KGgo=")))])))]))).
  - lia.
  - intros j Hj. exists Sample.busy.
    destruct j as [|[|j]]; [split; reflexivity | split; reflexivity | lia].
  - reflexivity.
Defined.

Lemma stripPrefix_app (p s : string) : stripPrefix p (p ++ s) = Some s.
Proof.
  induction p as [|a p IH]; simpl; [reflexivity|].
  rewrite Ascii.eqb_refl. exact IH.
Qed.

Lemma stripPrefix_None_app (p q s : string) :
  stripPrefix p s = None -> stripPrefix (p ++ q) s = None.
Proof.
  revert s. induction p as [|a p IH]; intros s; simpl; [discriminate|].
  destruct s as [|b s]; [reflexivity|].
  destruct (Ascii.eqb a b); [apply IH | reflexivity].
Qed.

Lemma stripPrefix_Some (p s rest : string) :
  stripPrefix p s = Some rest -> s = p ++ rest.
Proof.
  revert s. induction p as [|a p IH]; intros s; simpl.
  - intros H. injection H as <-. reflexivity.
  - destruct s as [|b s]; [discriminate|].
    destruct (Ascii.eqb_spec a b) as [<-|]; [|discriminate].
    intros H. rewrite (IH s H). reflexivity.
Qed.

(** [cleanBase64] removes the data-URL header of a PNG, JPEG, JPG or WEBP
    image and nothing of the payload; it returns any other text as it is,
    in particular text that does not start with "data:image/". A payload is
    changed only by losing one of the four headers, and the images this
    service returns lose exactly the header it put in front of them. *)
Theorem cleanBase64_strips_header :
  (forall payload,
     cleanBase64 ("data:image/png;base64," ++ payload) = payload /\
     cleanBase64 ("data:image/jpeg;base64," ++ payload) = payload /\
     cleanBase64 ("data:image/jpg;base64," ++ payload) = payload /\
     cleanBase64 ("data:image/webp;base64," ++ payload) = payload) /\
  (forall s, stripPrefix "data:image/" s = None -> cleanBase64 s = s) /\
  (forall s, cleanBase64 s = s \/
     exists format,
       In format ["png"; "jpeg"; "jpg"; "webp"] /\
       s = "data:image/" ++ format ++ ";base64," ++ cleanBase64 s) /\
  (forall ps url, firstInlineImage ps = Some url ->
     url = "data:image/png;base64," ++ cleanBase64 url).
Proof.
  split; [|split; [|split]].
  - intros payload. repeat split; reflexivity.
  - intros s Hs. unfold cleanBase64.
    pose proof (stripPrefix_None_app "data:image/" "png;base64," s Hs) as E1.
    pose proof (stripPrefix_None_app "data:image/" "jpeg;base64," s Hs) as E2.
    pose proof (stripPrefix_None_app "data:image/" "jpg;base64," s Hs) as E3.
    pose proof (stripPrefix_None_app "data:image/" "webp;base64," s Hs) as E4.
    cbn [append] in E1, E2, E3, E4. rewrite E1, E2, E3, E4. reflexivity.
  - intros s. unfold cleanBase64.
    destruct (stripPrefix "data:image/png;base64," s) as [rest|] eqn:H1.
    { right. exists "png". split; [simpl; auto|]. exact (stripPrefix_Some _ _ _ H1). }
    destruct (stripPrefix "data:image/jpeg;base64," s) as [rest|] eqn:H2.
    { right. exists "jpeg". split; [simpl; auto|]. exact (stripPrefix_Some _ _ _ H2). }
    destruct (stripPrefix "data:image/jpg;base64," s) as [rest|] eqn:H3.
    { right. exists "jpg". split; [simpl; auto|]. exact (stripPrefix_Some _ _ _ H3). }
    destruct (stripPrefix "data:image/webp;base64," s) as [rest|] eqn:H4.
    { right. exists "webp". split; [simpl; auto|]. exact (stripPrefix_Some _ _ _ H4). }
    left. reflexivity.
  - induction ps as [|part rest IH]; intros url; simpl; [discriminate|].
    destruct (inlineData part) as [[[d|]]|]; try apply IH.
    destruct (truthy d); [|apply IH].
    intros H. injection H as <-. reflexivity.
Qed.

(** A text that is no image data URL, here a GIF, is sent as it is. *)
Lemma cleanBase64_strips_header_witness :
  cleanBase64 "R0lGODlhAQABAAAAACw=" = "R0lGODlhAQABAAAAACw=".
Proof.
  apply (proj1 (proj2 cleanBase64_strips_header)). reflexivity.
Defined.

End SlotFacts.

(* ================================================================== *)
(** * The result history                                                *)
(* ================================================================== *)

Module HistoryFacts.
Import Js Gemini App Spec.

Lemma filter_all {A : Type} (f : A -> bool) (l : list A) :
  (forall x, In x l -> f x = true) -> filter f l = l.
Proof.
  induction l as [|x l IH]; intros H; simpl; [reflexivity|].
  rewrite (H x (or_introl eq_refl)). f_equal. apply IH.
  intros y Hy. apply H. right. exact Hy.
Qed.

(** Filtering a list by the key of one of its elements, where keys are
    pairwise distinct, removes that element and no other. *)
Lemma filter_unique_key {A : Type} (key : A -> string) (l : list A) (a : A) :
  NoDup (map key l) -> In a l ->
  exists before after : list A,
    l = (before ++ a :: after)%list /\
    filter (fun x => negb (String.eqb (key x) (key a))) l = (before ++ after)%list.
Proof.
  induction l as [|x l IH]; intros Hnd Hin; [destruct Hin|].
  simpl in Hnd. apply NoDup_cons_iff in Hnd. destruct Hnd as [Hnot Hnd].
  destruct Hin as [->|Hin].
  - exists [], l. split; [reflexivity|]. simpl. rewrite String.eqb_refl. simpl.
    apply filter_all. intros y Hy.
    destruct (String.eqb_spec (key y) (key a)) as [He|]; [|reflexivity].
    exfalso. apply Hnot. rewrite <- He. apply in_map, Hy.
  - destruct (IH Hnd Hin) as [before [after [Hl Hf]]].
    exists (x :: before), after. split; [simpl; rewrite <- Hl; reflexivity|].
    simpl. destruct (String.eqb_spec (key x) (key a)) as [He|].
    + exfalso. apply Hnot. rewrite He. apply in_map, Hin.
    + simpl. rewrite Hf. reflexivity.
Qed.

(** An element of a list with pairwise distinct keys splits it; no other
    element has its key. *)
Lemma filter_unique_key_split (a : PromptEntry) (l : list PromptEntry) :
  NoDup (map entry_id l) -> In a l ->
  exists before after : list PromptEntry,
    l = (before ++ a :: after)%list /\
    (forall x, In x (before ++ after)%list ->
       String.eqb (entry_id x) (entry_id a) = false).
Proof.
  intros Hnd Hin. apply in_split in Hin. destruct Hin as [before [after ->]].
  exists before, after. split; [reflexivity|]. intros x Hx.
  rewrite map_app in Hnd. cbn [map] in Hnd. apply NoDup_remove_2 in Hnd.
  destruct (String.eqb_spec (entry_id x) (entry_id a)) as [He|]; [|reflexivity].
  exfalso. apply Hnd. rewrite <- He, <- map_app. apply in_map, Hx.
Qed.

Lemma NoDup_map_app {A : Type} (key : A -> string) (l1 l2 : list A) :
  NoDup (map key l1) -> NoDup (map key l2) ->
  (forall a b, In a l1 -> In b l2 -> key a <> key b) ->
  NoDup (map key (l1 ++ l2)).
Proof.
  induction l1 as [|x l1 IH]; intros H1 H2 Hd; simpl; [exact H2|].
  simpl in H1. apply NoDup_cons_iff in H1. destruct H1 as [Hnot H1].
  constructor.
  - rewrite map_app, in_app_iff. intros [Hin|Hin]; [exact (Hnot Hin)|].
    apply in_map_iff in Hin. destruct Hin as [b [Hb Hin]].
    apply (Hd x b); [left; reflexivity | exact Hin | symmetry; exact Hb].
  - apply IH; [exact H1 | exact H2|]. intros a b Ha Hb. apply Hd; [right; exact Ha | exact Hb].
Qed.

Lemma NoDup_map_app_inv {A : Type} (key : A -> string) (l1 l2 : list A) :
  NoDup (map key (l1 ++ l2)) ->
  NoDup (map key l1) /\ NoDup (map key l2) /\
  (forall a b, In a l1 -> In b l2 -> key a <> key b).
Proof.
  induction l1 as [|x l1 IH]; simpl; intros H.
  - split; [constructor|]. split; [exact H|]. intros a b [].
  - apply NoDup_cons_iff in H. destruct H as [Hnot H].
    destruct (IH H) as [H1 [H2 Hd]]. split; [|split; [exact H2|]].
    + constructor; [|exact H1]. intros Hin. apply Hnot.
      rewrite map_app, in_app_iff. left. exact Hin.
    + intros a b [<-|Ha] Hb.
      * intros He. apply Hnot. rewrite map_app, in_app_iff. right.
        rewrite He. apply in_map, Hb.
      * apply Hd; assumption.
Qed.

Lemma resultsOf_cons (i : nat) (rs : list MockupResult)
    (settled : list (nat * list MockupResult)) (k : nat) :
  resultsOf ((i, rs) :: settled) k =
  if (i =? k)%nat then rs else resultsOf settled k.
Proof. unfold resultsOf. simpl. destruct (i =? k)%nat; reflexivity. Qed.

(** What [Promise.all] holds at two different indices shares no
    identifier, and what it holds at one index repeats none. *)
Lemma resultsOf_disjoint (settled : list (nat * list MockupResult)) :
  NoDup (map id (concat (map snd settled))) ->
  (forall k, NoDup (map id (resultsOf settled k))) /\
  (forall k k' r r', k <> k' ->
     In r (resultsOf settled k) -> In r' (resultsOf settled k') -> id r <> id r').
Proof.
  induction settled as [|[i rs] settled IH]; intros Hnd.
  - split; [intros k; constructor | intros k k' r r' _ []].
  - simpl in Hnd. apply NoDup_map_app_inv in Hnd. destruct Hnd as [Hrs [Htl Hd]].
    destruct (IH Htl) as [IH1 IH2]. split.
    + intros k. rewrite resultsOf_cons. destruct (i =? k)%nat; [exact Hrs | apply IH1].
    + intros k k' r r' Hne. rewrite !resultsOf_cons.
      destruct (Nat.eqb_spec i k) as [->|Hk]; destruct (Nat.eqb_spec k k') as [->|Hk'];
        try congruence.
      * intros Hr Hr'. apply Hd; [exact Hr | apply (StateFacts.resultsOf_In _ _ _ Hr')].
      * destruct (Nat.eqb_spec i k') as [->|Hik'].
        -- intros Hr Hr' He. apply (Hd r' r); [exact Hr' | | symmetry; exact He].
           apply (StateFacts.resultsOf_In _ _ _ Hr).
        -- apply IH2. exact Hne.
Qed.

Lemma flat_NoDup (settled : list (nat * list MockupResult)) (ks : list nat) :
  NoDup ks ->
  NoDup (map id (concat (map snd settled))) ->
  NoDup (map id (concat (map (resultsOf settled) ks))).
Proof.
  intros Hks Hnd. destruct (resultsOf_disjoint settled Hnd) as [H1 H2].
  induction ks as [|k ks IH]; simpl; [constructor|].
  apply NoDup_cons_iff in Hks. destruct Hks as [Hnot Hks].
  apply NoDup_map_app; [apply H1 | apply IH, Hks|].
  intros a b Ha Hb. apply in_concat in Hb. destruct Hb as [l [Hl Hb]].
  apply in_map_iff in Hl. destruct Hl as [k' [<- Hk']].
  apply (H2 k k'); [intros ->; exact (Hnot Hk') | exact Ha | exact Hb].
Qed.

Lemma concat_length_le {A : Type} (f : nat -> list A) (ks : list nat) (c : nat) :
  (forall k, List.length (f k) <= c) ->
  List.length (concat (map f ks)) <= c * List.length ks.
Proof.
  intros H. induction ks as [|k ks IH]; simpl; [lia|].
  rewrite length_app. specialize (H k). lia.
Qed.

Lemma jobsFrom_count st : forall entries index job,
  In job (jobsFrom st entries index) -> count (job_settings job) = 1.
Proof.
  induction entries as [|p entries IH]; intros index job; simpl; [intros []|].
  intros [<-|Hin]; [reflexivity | apply (IH _ _ Hin)].
Qed.

Section Machine.
Variable JSON_parse : string -> option Json.
Variable randomUUID : nat -> string.
Variable keys : KeySources.
Hypothesis Huuid : uniqueUUIDs randomUUID.

Lemma jobResults_small st w img job d :
  count (job_settings job) = 1 ->
  List.length (fst (jobResults randomUUID keys st w img job d)) <= 1.
Proof.
  intros Hc. unfold jobResults.
  destruct (generateMockup keys (batch_ai w (job_index job)) img (job_settings job))
    as [images|e] eqn:Hg; simpl; [|lia].
  rewrite StateFacts.mapWithUUID_length.
  rewrite (GenerateFacts.generateMockup_single keys (batch_ai w (job_index job)) img
             (job_settings job) images Hc Hg). lia.
Qed.

Lemma settle_small st w img jobs :
  (forall job, In job jobs -> count (job_settings job) = 1) ->
  forall order d0 p,
    In p (fst (settle randomUUID keys st w img jobs order d0)) ->
    List.length (snd p) <= 1.
Proof.
  intros Hc. induction order as [|i rest IH]; intros d0 p; [intros []|].
  rewrite StateFacts.settle_cons.
  destruct (nth_error jobs i) as [job|] eqn:Hn; [|apply IH].
  pose proof (jobResults_small st w img job d0 (Hc job (nth_error_In _ _ Hn))) as Hs.
  destruct (jobResults randomUUID keys st w img job d0) as [rs dj].
  specialize (IH dj p).
  destruct (settle randomUUID keys st w img jobs rest dj) as [settled d2].
  simpl in *. intros [<-|Hin]; [exact Hs | apply IH, Hin].
Qed.

Lemma resultsOf_small (settled : list (nat * list MockupResult)) (k : nat) :
  (forall p, In p settled -> List.length (snd p) <= 1) ->
  List.length (resultsOf settled k) <= 1.
Proof.
  intros H. unfold resultsOf.
  destruct (find (fun p => (fst p =? k)%nat) settled) as [p|] eqn:Hf; [|simpl; lia].
  apply find_some in Hf. apply H, Hf.
Qed.

(** A batch returns at most one result per prompt, in whatever order its
    calls settle. *)
Lemma runBatch_length st w img flat :
  fst (runBatch randomUUID keys st w img) = Resolved flat ->
  List.length flat <= List.length (editablePrompts st).
Proof.
  unfold runBatch.
  pose proof (settle_small st w img (batchJobs st)
                (fun job => jobsFrom_count st _ _ job) (batch_order w) (drawn st)) as Hsmall.
  destruct (settle randomUUID keys st w img (batchJobs st) (batch_order w) (drawn st))
    as [settled dn] eqn:Hs.
  simpl in Hsmall.
  set (n := List.length (batchJobs st)) in *.
  destruct (List.length (concat (map (resultsOf settled) (seq 0 n))) =? 0)%nat;
    simpl; intros H; [discriminate|]. injection H as <-.
  pose proof (concat_length_le (resultsOf settled) (seq 0 n) 1
                (fun k => resultsOf_small settled k Hsmall)) as Hle.
  rewrite length_seq in Hle. subst n.
  rewrite <- (LayoutFacts.batchJobs_length st). lia.
Qed.

(** A batch returns no identifier twice, in whatever order its calls
    settle and whether or not every call settles once. *)
Lemma runBatch_distinct st w img flat :
  uniqueUUIDs randomUUID ->
  fst (runBatch randomUUID keys st w img) = Resolved flat ->
  NoDup (map id flat).
Proof.
  intros Huu. unfold runBatch.
  destruct (settle randomUUID keys st w img (batchJobs st) (batch_order w) (drawn st))
    as [settled dn] eqn:Hs.
  set (n := List.length (batchJobs st)) in *.
  destruct (List.length (concat (map (resultsOf settled) (seq 0 n))) =? 0)%nat;
    simpl; intros H; [discriminate|]. injection H as <-.
  apply flat_NoDup; [apply seq_NoDup|].
  destruct (StateFacts.settle_ids randomUUID keys _ _ _ _ _ _ _ _ Hs) as [_ Hids].
  rewrite Hids. apply (StateFacts.NoDup_draws randomUUID Huu).
Qed.

Lemma handleMagicAnalysis_results imageOverride vibeOverride ai st :
  results (handleMagicAnalysis JSON_parse randomUUID keys imageOverride vibeOverride ai st)
  = results st.
Proof.
  unfold handleMagicAnalysis.
  destruct (whenTruthy (orUndefined imageOverride (sourceImage st))) as [img|];
    [|reflexivity].
  destruct (analyzeImageForPrompts JSON_parse keys ai img _) as [suggestions|e];
    [|reflexivity].
  destruct (0 <? List.length suggestions)%nat; reflexivity.
Qed.

Lemma processFile_results dropped isJpeg dataUrl width height ai st :
  results (processFile JSON_parse randomUUID keys dropped isJpeg dataUrl width height ai st)
  = results st.
Proof.
  unfold processFile. destruct (negb isJpeg); [reflexivity|].
  cbn [setSettings results]. rewrite handleMagicAnalysis_results. reflexivity.
Qed.

Lemma selectVibe_results v ai st :
  results (selectVibe JSON_parse randomUUID keys v ai st) = results st.
Proof.
  unfold selectVibe. destruct (whenTruthy (sourceImage st)); [|reflexivity].
  rewrite handleMagicAnalysis_results. reflexivity.
Qed.

Lemma handleRegenerateSinglePrompt_results id_ ai st :
  results (handleRegenerateSinglePrompt JSON_parse keys id_ ai st) = results st.
Proof.
  unfold handleRegenerateSinglePrompt.
  destruct (whenTruthy (sourceImage st)) as [img|]; [|reflexivity].
  destruct (regenerateSinglePrompt JSON_parse keys ai img (analysisVibe st));
    reflexivity.
Qed.

Lemma removePrompt_results id_ st : results (removePrompt id_ st) = results st.
Proof.
  unfold removePrompt. destruct (1 <? List.length (editablePrompts st))%nat; reflexivity.
Qed.

(** What a batch adds to the history: at most one result per prompt, with
    identifiers drawn during the batch. *)
Lemma handleGenerateBatch_grows w st :
  exists added : list MockupResult,
    results (handleGenerateBatch randomUUID keys w st) = (added ++ results st)%list /\
    List.length added <= List.length (editablePrompts st) /\
    (uniqueUUIDs randomUUID -> NoDup (map id added)) /\
    (forall r, In r added -> exists k, drawn st <= k /\ id r = randomUUID k).
Proof.
  assert (Hnone : exists added : list MockupResult,
            results st = (added ++ results st)%list /\
            List.length added <= List.length (editablePrompts st) /\
            (uniqueUUIDs randomUUID -> NoDup (map id added)) /\
            (forall r, In r added -> exists k, drawn st <= k /\ id r = randomUUID k)).
  { exists []. split; [reflexivity|]. split; [simpl; lia|].
    split; [intros _; constructor | intros r []]. }
  unfold handleGenerateBatch.
  destruct (whenTruthy (sourceImage st)) as [img|]; [|exact Hnone].
  destruct (List.length (editablePrompts st) =? 0)%nat; [exact Hnone|].
  destruct (runBatch randomUUID keys st w img) as [o d1] eqn:Hr.
  destruct o as [flat|e]; [|exact Hnone].
  exists flat. split; [reflexivity|].
  assert (Hfst : fst (runBatch randomUUID keys st w img) = Resolved flat)
    by (rewrite Hr; reflexivity).
  split; [exact (runBatch_length st w img flat Hfst)|].
  split; [intros Huu; exact (runBatch_distinct st w img flat Huu Hfst)|].
  intros r Hin.
  destruct (StateFacts.runBatch_ids randomUUID keys _ _ _ _ _ Hr) as [_ Hids].
  destruct (Hids flat eq_refl r Hin) as [k [Hk Hid]]. exists k. split; [lia | exact Hid].
Qed.

(** What an upscale adds: nothing, or one high-resolution result with
    the next identifier. *)
Lemma handleUpscale_results R ai now st :
  results (handleUpscale randomUUID keys R ai now st) = results st \/
  exists newResult,
    results (handleUpscale randomUUID keys R ai now st) = newResult :: results st /\
    id newResult = randomUUID (drawn st) /\
    prompt newResult = prompt R /\
    isHighRes newResult = true.
Proof.
  unfold handleUpscale.
  destruct (whenTruthy (sourceImage st)) as [img|]; [|left; reflexivity].
  destruct (generateMockup keys ai img (upscaleSettings st R)) as [images|e];
    [|left; reflexivity].
  right. eexists. split; [reflexivity|]. repeat split.
Qed.

Lemma fresh_draw st r k :
  Inv randomUUID st -> In r (results st) -> drawn st <= k -> randomUUID k <> id r.
Proof.
  intros (_ & _ & _ & I4 & _) Hin Hk He.
  destruct (I4 r Hin) as [k' [Hk' Hid]].
  destruct Huuid as [Hinj _]. rewrite Hid in He. apply Hinj in He. lia.
Qed.

Lemma step_nodup st ev :
  Inv randomUUID st ->
  NoDup (map id (results st)) ->
  NoDup (map id (results (step JSON_parse randomUUID keys st ev))).
Proof.
  intros HI Hnd. destruct ev; cbn [step].
  - rewrite processFile_results. exact Hnd.
  - rewrite selectVibe_results. exact Hnd.
  - exact Hnd.
  - exact Hnd.
  - exact Hnd.
  - exact Hnd.
  - exact Hnd.
  - rewrite handleRegenerateSinglePrompt_results. exact Hnd.
  - exact Hnd.
  - rewrite removePrompt_results. exact Hnd.
  - exact Hnd.
  - destruct (handleGenerateBatch_grows w st) as [added [-> [_ [Ha Hids]]]].
    apply NoDup_map_app; [exact (Ha Huuid) | exact Hnd|].
    intros a b Hina Hinb He. destruct (Hids a Hina) as [k [Hk Hid]].
    apply (fresh_draw st b k HI Hinb Hk). congruence.
  - destruct (handleUpscale_results result ai now st) as [->|[newResult [-> [Hid _]]]];
      [exact Hnd|].
    simpl. constructor; [|exact Hnd]. intros Hin.
    apply in_map_iff in Hin. destruct Hin as [b [Hb Hin]].
    apply (fresh_draw st b (drawn st) HI Hin (le_n _)). congruence.
  - unfold deleteResult. cbn [setResults results].
    apply StateFacts.NoDup_map_filter. exact Hnd.
  - unfold clearHistory. destruct confirmed; [constructor | exact Hnd].
Qed.

Lemma Reachable_nodup st :
  Reachable JSON_parse randomUUID keys st -> NoDup (map id (results st)).
Proof.
  induction 1 as [saved|st ev Hreach IH]; [constructor|].
  apply step_nodup; [|exact IH].
  apply (StateFacts.Reachable_Inv JSON_parse randomUUID keys Huuid). exact Hreach.
Qed.

(** In every state the component can reach, the results of the history
    carry pairwise distinct identifiers, whatever the order in which the
    calls of a batch settled. *)
Theorem result_ids_distinct :
  forall st : AppState,
    Reachable JSON_parse randomUUID keys st ->
    NoDup (map id (results st)).
Proof.
  intros st Hreach. induction Hreach as [saved|st ev Hreach IH]; [constructor|].
  apply step_nodup; [|exact IH].
  apply (StateFacts.Reachable_Inv JSON_parse randomUUID keys Huuid). exact Hreach.
Qed.

(** Deleting a result of the history removes that result and no other;
    the results before and after it keep their order. *)
Theorem deleteResult_removes_one :
  forall (st : AppState) (R : MockupResult),
    Reachable JSON_parse randomUUID keys st ->
    In R (results st) ->
    exists before after : list MockupResult,
      results st = (before ++ R :: after)%list /\
      results (deleteResult (id R) st) = (before ++ after)%list.
Proof.
  intros st R Hreach Hin. unfold deleteResult. cbn [setResults results].
  apply (filter_unique_key id (results st) R); [|exact Hin].
  apply Reachable_nodup, Hreach.
Qed.

(** What an event can do to the history. Deleting and clearing add
    nothing. A batch puts at most one new result per prompt in front of
    the history, an upscale at most one, a high-resolution result with the
    prompt of the result it was asked for. No other event (upload, vibe,
    sizes, constraint pills, prompt edits) changes the history. *)
Theorem history_changes :
  forall (st : AppState) (ev : Event),
    let st' := step JSON_parse randomUUID keys st ev in
    match ev with
    | EvDeleteResult _ | EvClearHistory _ =>
        forall r, In r (results st') -> In r (results st)
    | EvGenerateBatch _ =>
        exists added : list MockupResult,
          results st' = (added ++ results st)%list /\
          List.length added <= List.length (editablePrompts st)
    | EvUpscale R _ _ =>
        results st' = results st \/
        exists newResult,
          results st' = newResult :: results st /\
          prompt newResult = prompt R /\ isHighRes newResult = true
    | _ => results st' = results st
    end.
Proof.
  intros st ev. destruct ev; cbn [step].
  - apply processFile_results.
  - apply selectVibe_results.
  - reflexivity.
  - reflexivity.
  - reflexivity.
  - reflexivity.
  - reflexivity.
  - apply handleRegenerateSinglePrompt_results.
  - reflexivity.
  - apply removePrompt_results.
  - reflexivity.
  - destruct (handleGenerateBatch_grows w st) as [added [Hr [Hlen _]]].
    exists added. split; assumption.
  - destruct (handleUpscale_results result ai now st)
      as [H|[newResult [Hr [_ [Hp Hh]]]]]; [left; exact H|].
    right. exists newResult. repeat split; assumption.
  - intros r. unfold deleteResult. cbn [setResults results].
    intros Hin. apply filter_In in Hin. apply Hin.
  - intros r. unfold clearHistory. destruct confirmed; [intros [] | auto].
Qed.

End Machine.

(** The history after the sample batch: four results, four identifiers. *)
Lemma result_ids_distinct_witness :
  NoDup (map id (results Sample.generated)).
Proof.
  apply (result_ids_distinct Sample.parseSample Sample.sampleUUID Sample.envKeys
           StateFacts.sampleUUID_unique Sample.generated).
  exact StateFacts.Reachable_generated.
Defined.

(** Deleting the result of job 0 from the sample history. *)
Lemma deleteResult_removes_one_witness :
  exists before after : list MockupResult,
    results Sample.generated = (before ++ Sample.draft :: after)%list /\
    results (deleteResult (id Sample.draft) Sample.generated) = (before ++ after)%list.
Proof.
  apply (deleteResult_removes_one Sample.parseSample Sample.sampleUUID Sample.envKeys
           StateFacts.sampleUUID_unique Sample.generated Sample.draft).
  - exact StateFacts.Reachable_generated.
  - left. reflexivity.
Defined.

End HistoryFacts.

(* ================================================================== *)
(** * Editing the prompt list                                           *)
(* ================================================================== *)

Module EditFacts.
Import Js Gemini App Spec.

Section Machine.
Variable JSON_parse : string -> option Json.
Variable randomUUID : nat -> string.
Variable keys : KeySources.
Hypothesis Huuid : uniqueUUIDs randomUUID.

Lemma Reachable_prompt_ids st :
  Reachable JSON_parse randomUUID keys st ->
  NoDup (map entry_id (editablePrompts st)).
Proof.
  intros Hreach.
  apply (StateFacts.Reachable_Inv JSON_parse randomUUID keys Huuid) in Hreach.
  apply Hreach.
Qed.

(** An edit of one prompt touches that prompt and no other. Removing a
    prompt, when there are two or more, takes out that entry and keeps the
    others in order; changing its text replaces the text of that entry;
    re-rolling it replaces its text by the text the service returned (its
    old text when the call was rejected) and clears its progress flag. In
    each case every other entry is as before. *)
Theorem prompt_edit_touches_one :
  forall (st : AppState) (p : PromptEntry),
    Reachable JSON_parse randomUUID keys st ->
    In p (editablePrompts st) ->
    exists before after : list PromptEntry,
      editablePrompts st = (before ++ p :: after)%list /\
      (2 <= List.length (editablePrompts st) ->
       editablePrompts (removePrompt (entry_id p) st) = (before ++ after)%list) /\
      (forall newText,
         editablePrompts (updatePrompt (entry_id p) newText st) =
         (before ++ mkPromptEntry (entry_id p) newText (isRegenerating p) :: after)%list) /\
      (forall ai img,
         whenTruthy (sourceImage st) = Some img ->
         editablePrompts
           (handleRegenerateSinglePrompt JSON_parse keys (entry_id p) ai st) =
         (before ++
          mkPromptEntry (entry_id p)
            match regenerateSinglePrompt JSON_parse keys ai img (analysisVibe st) with
            | Resolved newText => newText
            | Rejected _ => entry_text p
            end false :: after)%list).
Proof.
  intros st p Hreach Hin.
  pose proof (Reachable_prompt_ids st Hreach) as Hnd.
  destruct (HistoryFacts.filter_unique_key_split p (editablePrompts st) Hnd Hin)
    as [before [after [Hl Hother]]].
  exists before, after. split; [exact Hl|].
  assert (Hmap : forall g : PromptEntry -> PromptEntry,
            map (fun x => if String.eqb (entry_id x) (entry_id p) then g x else x)
                (editablePrompts st) = (before ++ g p :: after)%list).
  { intros g. rewrite Hl, map_app. cbn [map]. rewrite String.eqb_refl.
    f_equal; [|f_equal].
    - rewrite <- (map_id before) at 2. apply map_ext_in. intros x Hx.
      rewrite (Hother x); [reflexivity | apply in_or_app; left; exact Hx].
    - rewrite <- (map_id after) at 2. apply map_ext_in. intros x Hx.
      rewrite (Hother x); [reflexivity | apply in_or_app; right; exact Hx]. }
  split; [|split].
  - intros Hlen. unfold removePrompt.
    assert (H1 : (1 <? List.length (editablePrompts st))%nat = true)
      by (apply Nat.ltb_lt; lia).
    rewrite H1. cbn [setEditablePrompts editablePrompts].
    rewrite Hl, filter_app. cbn [filter]. rewrite String.eqb_refl. cbn [negb].
    f_equal; apply HistoryFacts.filter_all; intros x Hx.
    + rewrite (Hother x); [reflexivity | apply in_or_app; left; exact Hx].
    + rewrite (Hother x); [reflexivity | apply in_or_app; right; exact Hx].
  - intros newText. unfold updatePrompt. cbn [setEditablePrompts editablePrompts].
    apply (Hmap (fun x => mkPromptEntry (entry_id x) newText (isRegenerating x))).
  - intros ai img Himg. unfold handleRegenerateSinglePrompt. rewrite Himg.
    destruct (regenerateSinglePrompt JSON_parse keys ai img (analysisVibe st))
      as [newText|e]; cbn [setEditablePrompts editablePrompts]; rewrite map_map.
    + pose proof (Hmap (fun x => mkPromptEntry (entry_id x) newText false)) as Hm.
      cbv beta in Hm. rewrite <- Hm.
      apply map_ext. intros x. rewrite !StateFacts.markRegenerating_id.
      unfold markRegenerating.
      destruct (String.eqb (entry_id x) (entry_id p)); reflexivity.
    + pose proof (Hmap (fun x => mkPromptEntry (entry_id x) (entry_text x) false)) as Hm.
      cbv beta in Hm. rewrite <- Hm.
      apply map_ext. intros x. unfold markRegenerating.
      destruct (String.eqb (entry_id x) (entry_id p)) eqn:He;
        cbn [entry_id entry_text]; rewrite He; reflexivity.
Qed.

(** Adding an empty prompt and removing it again gives back the prompt
    list as it was. *)
Theorem add_then_remove_prompt :
  forall st : AppState,
    Reachable JSON_parse randomUUID keys st ->
    editablePrompts
      (removePrompt (randomUUID (drawn st)) (addEmptyPrompt randomUUID st)) =
    editablePrompts st.
Proof.
  intros st Hreach.
  apply (StateFacts.Reachable_Inv JSON_parse randomUUID keys Huuid) in Hreach.
  pose proof (StateFacts.next_uuid_fresh randomUUID Huuid st Hreach) as Hfresh.
  destruct Hreach as (Hne & _).
  unfold removePrompt, addEmptyPrompt.
  cbn [setDrawn setEditablePrompts editablePrompts].
  assert (H1 : (1 <? List.length
                  (editablePrompts st ++
                   [mkPromptEntry (randomUUID (drawn st))
                      "Describe a new environment..." false]))%nat = true).
  { apply Nat.ltb_lt. rewrite length_app. simpl.
    destruct (editablePrompts st); [congruence | simpl; lia]. }
  rewrite H1. cbn [setEditablePrompts editablePrompts].
  rewrite filter_app. cbn [filter entry_id]. rewrite String.eqb_refl. cbn [negb].
  rewrite app_nil_r. apply HistoryFacts.filter_all. intros x Hx.
  destruct (String.eqb_spec (entry_id x) (randomUUID (drawn st))) as [He|]; [|reflexivity].
  exfalso. apply Hfresh. rewrite <- He. apply in_map, Hx.
Qed.

End Machine.

(** The first suggestion after the sample upload, re-typed. *)
Lemma prompt_edit_touches_one_witness :
  exists before after : list PromptEntry,
    editablePrompts Sample.uploaded =
      (before ++ mkPromptEntry (Sample.sampleUUID 0)
                   "A modern gallery wall with spot lighting" false :: after)%list /\
    editablePrompts (updatePrompt (Sample.sampleUUID 0) "A harbour at dawn" Sample.uploaded) =
      (before ++ mkPromptEntry (Sample.sampleUUID 0) "A harbour at dawn" false :: after)%list.
Proof.
  destruct (prompt_edit_touches_one Sample.parseSample Sample.sampleUUID Sample.envKeys
              StateFacts.sampleUUID_unique Sample.uploaded
              (mkPromptEntry (Sample.sampleUUID 0)
                 "A modern gallery wall with spot lighting" false)
              StateFacts.Reachable_uploaded (or_introl eq_refl))
    as [before [after [Hl [_ [Hupdate _]]]]].
  exists before, after. split; [exact Hl | exact (Hupdate "A harbour at dawn")].
Defined.

Lemma add_then_remove_prompt_witness :
  editablePrompts
    (removePrompt (Sample.sampleUUID (drawn Sample.uploaded))
       (addEmptyPrompt Sample.sampleUUID Sample.uploaded)) =
  editablePrompts Sample.uploaded.
Proof.
  apply (add_then_remove_prompt Sample.parseSample Sample.sampleUUID Sample.envKeys
           StateFacts.sampleUUID_unique Sample.uploaded).
  exact StateFacts.Reachable_uploaded.
Defined.

End EditFacts.

(* ================================================================== *)
(** * Downloads                                                         *)
(* ================================================================== *)

Module DownloadFacts.
Import Js Gemini App Spec Download.

Lemma append_inj_r (c : string) : forall a b : string, a ++ c = b ++ c -> a = b.
Proof.
  assert (Hlen : forall x b', c <> String x (b' ++ c)).
  { intros x b' H. apply (f_equal String.length) in H.
    simpl in H. rewrite KeyFacts.append_length in H. lia. }
  induction a as [|x a IH]; intros [|y b] H; simpl in H.
  - reflexivity.
  - exfalso. exact (Hlen y b H).
  - exfalso. exact (Hlen x a (eq_sym H)).
  - injection H as -> H. f_equal. apply IH, H.
Qed.

Lemma fileName_inj (a b : string) :
  "mockup-" ++ a ++ ".png" = "mockup-" ++ b ++ ".png" -> a = b.
Proof.
  intros H. simpl in H. injection H as H. apply (append_inj_r ".png"), H.
Qed.

Lemma timersFrom_spec : forall (rs : list MockupResult) (index : nat),
  map fst (timersFrom rs index) =
    map (fun k => (Z.of_nat k * 300)%Z) (seq index (List.length rs)) /\
  map snd (timersFrom rs index) =
    map (fun r => mkClick (imageUrl r) ("mockup-" ++ id r ++ ".png")) rs.
Proof.
  induction rs as [|r rs IH]; intros index; simpl; [split; reflexivity|].
  destruct (IH (S index)) as [H1 H2]. rewrite H1, H2. split; reflexivity.
Qed.

Section Machine.
Variable JSON_parse : string -> option Json.
Variable randomUUID : nat -> string.
Variable keys : KeySources.
Hypothesis Huuid : uniqueUUIDs randomUUID.

(** "Download all", once confirmed, in any state the component can reach:
    the result at index [k] of the history is saved [300 * k] ms after the
    click, from its own image, under the name "mockup-<id>.png"; no two
    downloads are due at the same time and no two files get the same
    name. Declined, it downloads nothing. *)
Theorem downloadAll_files :
  forall st : AppState,
    Reachable JSON_parse randomUUID keys st ->
    let timers := downloadAll true (results st) in
    map fst timers =
      map (fun k => (Z.of_nat k * 300)%Z) (seq 0 (List.length (results st))) /\
    map snd timers =
      map (fun r => mkClick (imageUrl r) ("mockup-" ++ id r ++ ".png")) (results st) /\
    NoDup (map fst timers) /\
    NoDup (map (fun t => download (snd t)) timers) /\
    downloadAll false (results st) = [].
Proof.
  intros st Hreach timers.
  assert (Htimers : timers = timersFrom (results st) 0).
  { unfold timers, downloadAll. destruct (results st); reflexivity. }
  destruct (timersFrom_spec (results st) 0) as [H1 H2].
  rewrite Htimers. split; [exact H1|]. split; [exact H2|]. split; [|split].
  - rewrite H1. apply Finite.Injective_map_NoDup; [|apply seq_NoDup].
    intros a b H. lia.
  - rewrite <- (map_map snd download), H2, map_map. cbn [download].
    rewrite <- (map_map id (fun i => "mockup-" ++ i ++ ".png")).
    apply Finite.Injective_map_NoDup.
    + intros a b H. apply fileName_inj, H.
    + apply (HistoryFacts.Reachable_nodup JSON_parse randomUUID keys Huuid), Hreach.
  - unfold downloadAll. destruct (List.length (results st) =? 0)%nat; reflexivity.
Qed.

End Machine.

(** The four results of the sample batch: four files, 300 ms apart. *)
Lemma downloadAll_files_witness :
  map fst (downloadAll true (results Sample.generated)) = [0; 300; 600; 900]%Z /\
  NoDup (map (fun t => download (snd t)) (downloadAll true (results Sample.generated))).
Proof.
  destruct (downloadAll_files Sample.parseSample Sample.sampleUUID Sample.envKeys
              StateFacts.sampleUUID_unique Sample.generated
              StateFacts.Reachable_generated) as [Hdelays [_ [_ [Hnames _]]]].
  split; [exact Hdelays | exact Hnames].
Defined.

End DownloadFacts.

(* ================================================================== *)
(** * The component without an API key                                  *)
(* ================================================================== *)

Module NoKeyFacts.
Import Js Gemini App Spec.

Section Machine.
Variable JSON_parse : string -> option Json.
Variable randomUUID : nat -> string.
Variable keys : KeySources.
Hypothesis Hnone : getApiKey keys = None.

Lemma jobResults_nokey st w img job d :
  jobResults randomUUID keys st w img job d = ([], d).
Proof. unfold jobResults, generateMockup. rewrite Hnone. reflexivity. Qed.

Lemma settle_nokey st w img jobs : forall order d0,
  snd (settle randomUUID keys st w img jobs order d0) = d0 /\
  forall p, In p (fst (settle randomUUID keys st w img jobs order d0)) -> snd p = [].
Proof.
  induction order as [|i rest IH]; intros d0; [split; [reflexivity | intros p []]|].
  rewrite StateFacts.settle_cons. destruct (nth_error jobs i) as [job|]; [|apply IH].
  rewrite jobResults_nokey. destruct (IH d0) as [Hd Hp].
  destruct (settle randomUUID keys st w img jobs rest d0) as [settled d2].
  simpl in *. split; [exact Hd|]. intros p [<-|Hin]; [reflexivity | apply Hp, Hin].
Qed.

Lemma runBatch_nokey st w img :
  runBatch randomUUID keys st w img = (Rejected batchEmpty, drawn st).
Proof.
  unfold runBatch.
  destruct (settle_nokey st w img (batchJobs st) (batch_order w) (drawn st)) as [Hd Hp].
  destruct (settle randomUUID keys st w img (batchJobs st) (batch_order w) (drawn st))
    as [settled d1].
  simpl in Hd, Hp. subst d1.
  assert (Hflat : concat (map (resultsOf settled)
                            (seq 0 (List.length (batchJobs st)))) = []).
  { rewrite <- flat_map_concat_map. apply StateFacts.flat_map_nil. intros i _.
    unfold resultsOf.
    destruct (find (fun p => (fst p =? i)%nat) settled) as [p|] eqn:Hf; [|reflexivity].
    apply find_some in Hf. apply Hp, Hf. }
  rewrite Hflat. reflexivity.
Qed.

(** Where no API key is found (none in the environment, from AI Studio
    or in local storage), nothing is generated. A batch started with an
    image and prompts ends with the alert "Batch generation encountered
    errors." and an upscale with "Upscale failed."; neither changes the
    history nor draws an identifier. An analysis leaves the prompt list
    at its single placeholder entry "Analyzing for ... vibe...", and
    re-rolling a prompt changes no prompt text. *)
Theorem without_key :
  (forall (w : BatchWorld) (st : AppState) (img : string),
     whenTruthy (sourceImage st) = Some img ->
     editablePrompts st <> [] ->
     handleGenerateBatch randomUUID keys w st =
       alert "Batch generation encountered errors." st) /\
  (forall (R : MockupResult) (ai : nat -> Remote) (now : Z) (st : AppState) (img : string),
     whenTruthy (sourceImage st) = Some img ->
     handleUpscale randomUUID keys R ai now st = alert "Upscale failed." st) /\
  (forall imageOverride vibeOverride (ai : Remote) (st : AppState) (img : string),
     whenTruthy (orUndefined imageOverride (sourceImage st)) = Some img ->
     handleMagicAnalysis JSON_parse randomUUID keys imageOverride vibeOverride ai st =
       setEditablePrompts
         [loadingEntry match vibeOverride with
                       | Some v => v
                       | None => analysisVibe st
                       end] st) /\
  (forall (id_ : string) (ai : Remote) (st : AppState),
     map entry_text
       (editablePrompts (handleRegenerateSinglePrompt JSON_parse keys id_ ai st)) =
     map entry_text (editablePrompts st)) /\
  (forall (st : AppState) (ev : Event),
     forall r, In r (results (step JSON_parse randomUUID keys st ev)) ->
               In r (results st)).
Proof.
  assert (Hbatch : forall w st,
            results (handleGenerateBatch randomUUID keys w st) = results st).
  { intros w st. unfold handleGenerateBatch.
    destruct (whenTruthy (sourceImage st)) as [img|]; [|reflexivity].
    destruct (List.length (editablePrompts st) =? 0)%nat; [reflexivity|].
    rewrite runBatch_nokey. reflexivity. }
  assert (Hup : forall R ai now st,
            results (handleUpscale randomUUID keys R ai now st) = results st).
  { intros R ai now st. unfold handleUpscale, generateMockup. rewrite Hnone.
    destruct (whenTruthy (sourceImage st)); reflexivity. }
  split; [|split; [|split; [|split]]].
  - intros w st img Himg Hne. unfold handleGenerateBatch. rewrite Himg.
    destruct (editablePrompts st) as [|p l] eqn:Hl; [congruence|].
    cbn [List.length Nat.eqb]. rewrite runBatch_nokey.
    destruct st; reflexivity.
  - intros R ai now st img Himg. unfold handleUpscale, generateMockup.
    rewrite Himg, Hnone. reflexivity.
  - intros imageOverride vibeOverride ai st img Himg.
    unfold handleMagicAnalysis, analyzeImageForPrompts. rewrite Himg, Hnone.
    reflexivity.
  - intros id_ ai st. unfold handleRegenerateSinglePrompt, regenerateSinglePrompt.
    rewrite Hnone.
    destruct (whenTruthy (sourceImage st)) as [img|]; [|reflexivity].
    cbn [setEditablePrompts editablePrompts]. rewrite !map_map.
    apply map_ext. intros p. unfold markRegenerating.
    destruct (String.eqb (entry_id p) id_) eqn:He; cbn [entry_id entry_text];
      rewrite ?He; reflexivity.
  - intros st ev r. destruct ev; cbn [step].
    + rewrite (HistoryFacts.processFile_results JSON_parse randomUUID keys). auto.
    + rewrite (HistoryFacts.selectVibe_results JSON_parse randomUUID keys). auto.
    + auto.
    + auto.
    + auto.
    + auto.
    + auto.
    + rewrite (HistoryFacts.handleRegenerateSinglePrompt_results JSON_parse keys). auto.
    + auto.
    + rewrite HistoryFacts.removePrompt_results. auto.
    + auto.
    + rewrite Hbatch. auto.
    + rewrite Hup. auto.
    + unfold deleteResult. cbn [setResults results]. intros Hin.
      apply filter_In in Hin. apply Hin.
    + unfold clearHistory. destruct confirmed; [intros [] | auto].
Qed.

End Machine.

(** The sample upload with nothing configured: the batch only alerts. *)
Lemma without_key_witness :
  handleGenerateBatch Sample.sampleUUID Sample.noKeys Sample.paintAll Sample.uploaded =
  alert "Batch generation encountered errors." Sample.uploaded.
Proof.
  apply (proj1 (without_key Sample.parseSample Sample.sampleUUID Sample.noKeys eq_refl)
           Sample.paintAll Sample.uploaded Sample.jpeg).
  - reflexivity.
  - discriminate.
Defined.

End NoKeyFacts.

(* ================================================================== *)
(** * Upload and analysis                                               *)
(* ================================================================== *)

Module UploadFacts.
Import Js Gemini App Spec.

Section Machine.
Variable JSON_parse : string -> option Json.
Variable randomUUID : nat -> string.
Variable keys : KeySources.

Lemma analyze_at_most_four ai img vibe suggestions :
  analyzeImageForPrompts JSON_parse keys ai img vibe = Resolved suggestions ->
  List.length suggestions <= 4.
Proof.
  unfold analyzeImageForPrompts.
  destruct (getApiKey keys); [|discriminate].
  destruct (Retry.result (Retry.retryDefault _)) as [response|e].
  - destruct (JSON_parse _) as [[items|]|]; intros H; injection H as <-.
    + unfold slice0. pose proof (firstn_le_length 4 items). exact H.
    + simpl. lia.
    + simpl. lia.
  - intros H. injection H as <-. simpl. lia.
Qed.

(** What an analysis leaves alone, and the size of the prompt list it
    leaves when it has an image to look at. *)
Lemma handleMagicAnalysis_frame imageOverride vibeOverride ai st :
  let st' :=
    handleMagicAnalysis JSON_parse randomUUID keys imageOverride vibeOverride ai st in
  sourceImage st' = sourceImage st /\
  settings st' = settings st /\
  analysisVibe st' = analysisVibe st /\
  selectedFrames st' = selectedFrames st /\
  selectedLighting st' = selectedLighting st /\
  selectedTextures st' = selectedTextures st /\
  alerts st' = alerts st /\
  (whenTruthy (orUndefined imageOverride (sourceImage st)) <> None ->
   1 <= List.length (editablePrompts st') <= 4).
Proof.
  unfold handleMagicAnalysis.
  destruct (whenTruthy (orUndefined imageOverride (sourceImage st))) as [img|];
    [|repeat split; congruence].
  destruct (analyzeImageForPrompts JSON_parse keys ai img _) as [suggestions|e] eqn:Ha.
  - pose proof (analyze_at_most_four _ _ _ _ Ha) as Hle.
    destruct (0 <? List.length suggestions)%nat eqn:Hpos.
    + cbn. repeat split; try reflexivity;
        rewrite StateFacts.mapWithUUID_length; [apply Nat.ltb_lt in Hpos; lia | lia].
    + cbn. repeat split; lia.
  - cbn. repeat split; lia.
Qed.

(** An upload. A file that is no JPEG is refused with an alert and
    changes nothing else. A JPEG becomes the source image, sets the aspect
    ratio by the shape of the picture (4:3 when wider than high, 3:4 when
    higher than wide, 1:1 when square) and replaces the prompt list by
    one to four entries; the history, the three selections, the vibe and
    the other settings stay as they are. *)
Theorem processFile_outcome :
  forall (dropped : bool) (dataUrl : string) (width height : nat) (ai : Remote)
         (st : AppState),
    processFile JSON_parse randomUUID keys dropped false dataUrl width height ai st =
      alert "Please upload a JPEG image." st /\
    (truthy dataUrl = true ->
     let st' :=
       processFile JSON_parse randomUUID keys dropped true dataUrl width height ai st in
     sourceImage st' = Some dataUrl /\
     settings st' = withAspectRatio (aspectFor width height) (settings st) /\
     aspectRatio (settings st') =
       (if (height <? width)%nat then R4x3
        else if (width <? height)%nat then R3x4 else R1x1) /\
     1 <= List.length (editablePrompts st') <= 4 /\
     results st' = results st /\
     analysisVibe st' = analysisVibe st /\
     selectedFrames st' = selectedFrames st /\
     selectedLighting st' = selectedLighting st /\
     selectedTextures st' = selectedTextures st /\
     alerts st' = alerts st).
Proof.
  intros dropped dataUrl width height ai st. split; [reflexivity|].
  intros Htruthy st'. subst st'. unfold processFile. cbn [negb].
  set (st1 := setSourceImage (Some dataUrl) st).
  set (vibeOverride := if dropped then Some SurpriseMe else None).
  destruct (handleMagicAnalysis_frame (Some dataUrl) vibeOverride ai st1)
    as (Himg & Hset & Hvibe & Hf & Hl & Ht & Hal & Hlen).
  pose proof (HistoryFacts.handleMagicAnalysis_results JSON_parse randomUUID keys
                (Some dataUrl) vibeOverride ai st1) as Hres.
  cbn [setSettings sourceImage settings editablePrompts results analysisVibe
       selectedFrames selectedLighting selectedTextures alerts].
  rewrite Himg, Hset, Hres, Hvibe, Hf, Hl, Ht, Hal.
  repeat split; try reflexivity; apply Hlen;
    cbn [orUndefined whenTruthy]; rewrite Htruthy; cbn [whenTruthy];
    rewrite Htruthy; discriminate.
Qed.

(** Choosing a vibe makes it the current vibe, and with an image loaded
    replaces the prompt list by one to four entries; it never touches the
    image, the settings or the history. *)
Theorem selectVibe_outcome :
  forall (v : AnalysisVibe) (ai : Remote) (st : AppState),
    let st' := selectVibe JSON_parse randomUUID keys v ai st in
    analysisVibe st' = v /\
    sourceImage st' = sourceImage st /\
    settings st' = settings st /\
    results st' = results st /\
    (whenTruthy (sourceImage st) = None -> editablePrompts st' = editablePrompts st) /\
    (whenTruthy (sourceImage st) <> None ->
     1 <= List.length (editablePrompts st') <= 4).
Proof.
  intros v ai st st'. subst st'. unfold selectVibe.
  destruct (whenTruthy (sourceImage st)) as [img|] eqn:Himg.
  - destruct (handleMagicAnalysis_frame (Some img) (Some v) ai (setAnalysisVibe v st))
      as (Hsrc & Hset & Hvibe & _ & _ & _ & _ & Hlen).
    rewrite Hsrc, Hset, Hvibe.
    rewrite (HistoryFacts.handleMagicAnalysis_results JSON_parse randomUUID keys).
    do 4 (split; [reflexivity|]). split; [congruence|].
    intros _. apply Hlen.
    unfold whenTruthy in Himg. destruct (sourceImage st) as [s|]; [|discriminate].
    destruct (truthy s) eqn:Hs; [|discriminate]. injection Himg as <-.
    cbn [orUndefined setAnalysisVibe sourceImage whenTruthy]. rewrite Hs.
    cbn [whenTruthy]. rewrite Hs. discriminate.
  - repeat split; try reflexivity; congruence.
Qed.

End Machine.

(** The sample upload: a portrait JPEG, analysed by a service that
    refuses every call. *)
Lemma processFile_outcome_witness :
  sourceImage Sample.uploaded = Some Sample.jpeg /\
  aspectRatio (settings Sample.uploaded) = R3x4 /\
  1 <= List.length (editablePrompts Sample.uploaded) <= 4.
Proof.
  destruct (processFile_outcome Sample.parseSample Sample.sampleUUID
              Sample.envKeys false Sample.jpeg 3 4 Sample.refusing
              (initialState None)) as [_ Hjpeg].
  destruct (Hjpeg eq_refl) as (Himg & _ & Hratio & Hlen & _).
  split; [exact Himg|]. split; [exact Hratio | exact Hlen].
Defined.

Lemma selectVibe_outcome_witness :
  1 <= List.length
         (editablePrompts
            (selectVibe Sample.parseSample Sample.sampleUUID Sample.envKeys
               IndustrialRaw Sample.refusing Sample.uploaded)) <= 4.
Proof.
  apply (selectVibe_outcome Sample.parseSample Sample.sampleUUID Sample.envKeys
           IndustrialRaw Sample.refusing Sample.uploaded).
  discriminate.
Defined.

End UploadFacts.

(* ================================================================== *)
(** * The constraint pills                                              *)
(* ================================================================== *)

Module PillFacts.
Import App Spec.

Section Pills.
Context {T : Type}.
Variable eq_dec : forall a b : T, {a = b} + {a <> b}.
Variable auto : T.




End Pills.


End PillFacts.

(* ================================================================== *)
(** * The generation prompt: what of the settings reaches the text      *)
(* ================================================================== *)

Module PromptText.
Import Js Prompt Spec.

Lemma includes_prefix (s p : string) : prefix p s = true -> includes s p = true.
Proof. intros H. destruct s; cbn [includes]; rewrite H; reflexivity. Qed.

Lemma includes_mid (a m b : string) : includes (a ++ m ++ b) m = true.
Proof.
  apply PromptFacts.includes_app_r, includes_prefix, PromptFacts.prefix_app.
Qed.

Lemma finalPrompt_includes_details settings p :
  includes (envContext settings) p = true ->
  includes (finalPrompt settings) p = true.
Proof.
  intros H. rewrite PromptFacts.finalPrompt_segments.
  apply PromptFacts.includes_app_r, PromptFacts.includes_cons_r.
  apply PromptFacts.includes_app_r, PromptFacts.includes_cons_r.
  apply PromptFacts.includes_app_r, PromptFacts.includes_cons_r.
  apply PromptFacts.includes_app_l. exact H.
Qed.

Lemma trim_nonempty (s : string) : trim s <> "" -> truthy s = true.
Proof. destruct s; [intros H; exfalso; apply H; reflexivity | reflexivity]. Qed.

(** What of the settings reaches the text sent to the image model: the
    scene description, verbatim, after "SCENE: "; the print size in the
    placement sentence; each lighting and wall material other than "Auto"
    by name, and the sentence that leaves both to the scene when both are
    "Auto"; and the negative prompt, verbatim and at the very end, unless
    it is empty or white space only, in which case nothing is added. *)
Theorem finalPrompt_carries_settings :
  forall settings : GenerationSettings,
    includes (finalPrompt settings) ("SCENE: " ++ s_prompt settings ++ ". ") = true /\
    includes (finalPrompt settings)
      (match frameStyle settings with
       | Some FrameNone =>
           "as a " ++ printSizeText (printSize settings) ++ " poster"
       | _ => "(" ++ printSizeText (printSize settings) ++ " size)"
       end) = true /\
    (forall l, lighting settings = Some l -> l <> LightAuto ->
       includes (finalPrompt settings)
         ("Lighting Condition: " ++ lightingText l ++ ". ") = true) /\
    (forall w, wallTexture settings = Some w -> w <> TextureAuto ->
       includes (finalPrompt settings)
         ("Wall Material: " ++ wallTextureText w ++ ". ") = true) /\
    (lighting settings = Some LightAuto -> wallTexture settings = Some TextureAuto ->
       includes (finalPrompt settings)
         "Lighting and Wall Material should be inferred naturally from the scene description."
       = true) /\
    (trim (negativePrompt settings) = "" -> negativeClause settings = "") /\
    (trim (negativePrompt settings) <> "" ->
       exists body,
         finalPrompt settings =
         body ++ " Do NOT include: " ++ negativePrompt settings ++ ".").
Proof.
  intros settings. split; [|split; [|split; [|split; [|split; [|split]]]]].
  - set (head := nl ++ ind ++ qualityPrefix ++ " " ++ nl ++ ind).
    set (rest :=
           nl ++ ind ++ "DETAILS: " ++ envContext settings ++ " " ++
           nl ++ ind ++ "PLACEMENT: " ++ frameContext settings ++ " " ++
           nl ++ ind ++ "PHYSICS: " ++ physicalInteraction ++
           nl ++ ind ++ colorGrade ++ nl ++ "  " ++ negativeClause settings).
    assert (Hshape : finalPrompt settings =
              head ++ ("SCENE: " ++ s_prompt settings ++ ". ") ++ rest).
    { rewrite !PromptFacts.append_assoc. reflexivity. }
    rewrite Hshape. apply includes_mid.
  - apply PromptFacts.finalPrompt_includes_placement.
    destruct settings as [p n c a i f l w s]. cbn [frameStyle printSize].
    destruct f as [[]|]; destruct s; reflexivity.
  - intros l Hl Hne. apply finalPrompt_includes_details.
    destruct settings as [p n c a i f l0 w s]. cbn [lighting] in Hl. subst l0.
    destruct l; try congruence; destruct w as [[]|]; reflexivity.
  - intros w Hw Hne. apply finalPrompt_includes_details.
    destruct settings as [p n c a i f l w0 s]. cbn [wallTexture] in Hw. subst w0.
    destruct w; try congruence; destruct l as [[]|]; reflexivity.
  - intros Hl Hw. apply finalPrompt_includes_details.
    destruct settings as [p n c a i f l w s]. cbn [lighting wallTexture] in Hl, Hw.
    subst l w. reflexivity.
  - intros Hblank. unfold negativeClause. rewrite Hblank. cbn [String.length Nat.ltb Nat.leb].
    rewrite andb_false_r. reflexivity.
  - intros Hsome.
    exists (nl ++ ind ++ qualityPrefix ++ " " ++
            nl ++ ind ++ "SCENE: " ++ s_prompt settings ++ ". " ++
            nl ++ ind ++ "DETAILS: " ++ envContext settings ++ " " ++
            nl ++ ind ++ "PLACEMENT: " ++ frameContext settings ++ " " ++
            nl ++ ind ++ "PHYSICS: " ++ physicalInteraction ++
            nl ++ ind ++ colorGrade ++ nl ++ "  ").
    assert (Hclause : negativeClause settings =
              " Do NOT include: " ++ negativePrompt settings ++ ".").
    { unfold negativeClause. rewrite (trim_nonempty _ Hsome).
      destruct (trim (negativePrompt settings)); [congruence | reflexivity]. }
    unfold finalPrompt. rewrite Hclause, !PromptFacts.append_assoc. reflexivity.
Qed.

(** The oak sample: studio lighting is named, "people" is excluded. *)
Lemma finalPrompt_carries_settings_witness :
  includes (finalPrompt Sample.oakSettings) "Lighting Condition: Studio Lighting. " = true /\
  exists body,
    finalPrompt Sample.oakSettings = body ++ " Do NOT include: people.".
Proof.
  destruct (finalPrompt_carries_settings Sample.oakSettings)
    as (_ & _ & Hlight & _ & _ & _ & Hneg).
  split.
  - apply (Hlight StudioLighting); [reflexivity | discriminate].
  - apply Hneg. vm_compute. discriminate.
Defined.

End PromptText.

(* ================================================================== *)
(** * The key screen                                                    *)
(* ================================================================== *)

Module KeyScreenFacts.
Import Js Gemini Storage Connect.

(** What holds of the key screen throughout: an environment key means the
    app is unlocked; nothing was shown by [alert]; and a screen unlocked
    after starting locked has a key that [getApiKey] finds. *)
Lemma keyStep_invariant (k0 : KeySources) (host0 : StudioHost)
    (s : KeyScreen * KeySources) (ev : KeyEvent) :
  ((hasEnvKey (fst s) = true -> hasKey (fst s) = true) /\
   shown (fst s) = [] /\
   (hasKey (init k0 host0) = false -> hasKey (fst s) = true ->
    getApiKey (snd s) <> None)) ->
  ((hasEnvKey (fst (keyStep s ev)) = true -> hasKey (fst (keyStep s ev)) = true) /\
   shown (fst (keyStep s ev)) = [] /\
   (hasKey (init k0 host0) = false -> hasKey (fst (keyStep s ev)) = true ->
    getApiKey (snd (keyStep s ev)) <> None)).
Proof.
  intros (Henv & Hshown & Hkey). unfold keyStep.
  destruct (hasKey (fst s)) eqn:Hhas;
    [split; [intros _; exact Hhas
            | split; [exact Hshown | intros H _; exact (Hkey H eq_refl)]]|].
  assert (Hno : hasEnvKey (fst s) = false).
  { destruct (hasEnvKey (fst s)); [specialize (Henv eq_refl); discriminate | reflexivity]. }
  destruct s as [sc k]. cbn [fst snd] in *. destruct ev as [value|host hostAfter].
  - cbn [fst snd typeKey hasKey hasEnvKey shown]. rewrite Hno, Hhas.
    split; [intros H; discriminate H | split; [exact Hshown | intros _ H; discriminate H]].
  - unfold handleConnect. rewrite Hno. unfold validateApiKey.
    destruct (normalizeApiKey (Some (apiKeyInput sc))) as [n|] eqn:Hn.
    + destruct (jsLength n <? 10)%nat.
      * cbn [fst snd hasKey hasEnvKey shown]. rewrite ?Hno, ?Hhas.
        split; [intros H; discriminate H | split; [exact Hshown | intros _ H; discriminate H]].
      * cbv zeta. destruct (checkApiKey (setApiKey n k) host).
        -- cbn [fst snd hasKey hasEnvKey shown]. rewrite ?Hno.
           split; [intros; reflexivity|]. split; [assumption|]. intros _ _.
           destruct (KeyFacts.normalizeApiKey_fixed _ _ Hn) as (_ & _ & _ & Hfix).
           unfold setApiKey. rewrite Hfix. unfold getApiKey, getEnvApiKey, setItem.
           cbn [env_API_KEY env_GEMINI_API_KEY aistudio_getApiKey
                localStorage_gemini_api_key].
           rewrite Hfix.
           destruct (normalizeApiKey (orUndefined (env_API_KEY k) (env_GEMINI_API_KEY k)));
             [discriminate|].
           destruct (normalizeApiKey (aistudio_getApiKey k)); discriminate.
        -- cbn [fst snd hasKey hasEnvKey shown]. rewrite ?Hno, ?Hhas.
           split; [intros H; discriminate H | split; [exact Hshown | intros _ H; discriminate H]].
    + cbn [fst snd hasKey hasEnvKey shown]. rewrite ?Hno, ?Hhas.
      split; [intros H; discriminate H | split; [exact Hshown | intros _ H; discriminate H]].
Qed.

(** The key screen, from the first render on and whatever is typed and
    clicked on it. While it is displayed (the app is locked) no
    environment key exists, so it always shows the manual form: the
    "Connect API Key" button and the branch of [handleConnect] that calls
    [promptForApiKey] are never reached, and the alert "Please set
    GEMINI_API_KEY environment variable..." is never shown. And when a
    screen that started locked becomes unlocked, [getApiKey] finds a key
    (storage taken never to throw). *)
Theorem key_screen_is_manual :
  forall (k : KeySources) (host : StudioHost) (evs : list KeyEvent),
    let sc := fst (keyRun k host evs) in
    let k' := snd (keyRun k host evs) in
    (hasKey sc = false -> hasEnvKey sc = false) /\
    shown sc = [] /\
    (hasKey (init k host) = false -> hasKey sc = true -> getApiKey k' <> None).
Proof.
  intros k host evs. unfold keyRun.
  assert (Hinv : forall s,
            ((hasEnvKey (fst s) = true -> hasKey (fst s) = true) /\
             shown (fst s) = [] /\
             (hasKey (init k host) = false -> hasKey (fst s) = true ->
              getApiKey (snd s) <> None)) ->
            ((hasEnvKey (fst (fold_left keyStep evs s)) = true ->
              hasKey (fst (fold_left keyStep evs s)) = true) /\
             shown (fst (fold_left keyStep evs s)) = [] /\
             (hasKey (init k host) = false ->
              hasKey (fst (fold_left keyStep evs s)) = true ->
              getApiKey (snd (fold_left keyStep evs s)) <> None))).
  { induction evs as [|ev evs IH]; intros s Hs; [exact Hs|].
    simpl. apply IH. apply keyStep_invariant. exact Hs. }
  destruct (Hinv (init k host, k)) as (Henv & Hshown & Hkey).
  - cbn [fst snd]. split; [|split; [reflexivity|]].
    + unfold init, checkApiKey. cbn [hasEnvKey hasKey].
      destruct (getEnvApiKey k); [reflexivity | discriminate].
    + intros H1 H2. rewrite H1 in H2. discriminate.
  - cbv zeta. split; [|split; [exact Hshown | exact Hkey]].
    intros Hlocked.
    destruct (hasEnvKey (fst (fold_left keyStep evs (init k host, k)))); [|reflexivity].
    rewrite (Henv eq_refl) in Hlocked. discriminate.
Qed.

(** Nothing configured, a key typed and saved: the app unlocks with it. *)
Lemma key_screen_is_manual_witness :
  getApiKey
    (snd (keyRun Sample.noKeys Sample.standalone
            [KeType "  AIzaSyExampleExampleExample ";
             KeConnect Sample.standalone Sample.standalone])) <> None.
Proof.
  apply (key_screen_is_manual Sample.noKeys Sample.standalone
           [KeType "  AIzaSyExampleExampleExample ";
            KeConnect Sample.standalone Sample.standalone]).
  - reflexivity.
  - vm_compute. reflexivity.
Defined.

End KeyScreenFacts.
